(** * secure_fs_guard: a shallow embedding of the daemon core

    The development follows the Python sources of the daemon:
    - [daemon/integrity_engine.py]  (module [IntegrityEngine]),
    - [daemon/recovery.py]          (module [RecoveryEngine]),
    - [daemon/hash_storage.py]      (module [HashStorage]),
    - [daemon/auth.py]              (module [AuthManager]).

    Conventions of the embedding.
    - A file system is a finite map from paths to nodes; a regular file
      carries its bytes and its permission bits.
    - [datetime] values are integers counting the microseconds since
      [datetime.min], the first instant of year 1; every method that
      reads the clock receives the instant as an argument [now].
    - A Python [float] is the real number it denotes.  The percentage of
      changed blocks and the Shannon entropy are computed exactly here;
      where the code averages, multiplies or subtracts floats and compares
      the result, the rounding of the machine is a parameter [round] of
      the model, and the builtin [sum] a parameter [float_sum].
    - Exceptions are values of [exn]; a method that can raise returns
      [res]. *)

From Stdlib Require Import ZArith List Ascii String Reals Lra Lia Sorted.
From Stdlib Require Import Strings.Byte.
From stdpp Require Import base option list gmap strings.
Import ListNotations.

Open Scope Z_scope.

(* ===================================================================== *)
(** * Common data *)
(* ===================================================================== *)

Abbreviation bytes := (list byte).

(** Python exceptions that the modelled methods raise or catch. *)
Inductive exn :=
| FileNotFoundError
| ValueError
| PermissionError
| IsADirectoryError
| OSError
| ZeroDivisionError
| OverflowError
| Exception_.

Inductive res (A : Type) :=
| Ok (a : A)
| Raise (e : exn).
Arguments Ok {A} a.
Arguments Raise {A} e.

(** A regular file: content and permission bits ([st_mode & 0o777]). *)
Record inode := Inode { i_data : bytes; i_mode : Z }.

Inductive node :=
| Directory
| Regular (f : inode).

Abbreviation filesystem := (gmap string node).

(** What the kernel lets the daemon's process do with a file of given
    permission bits.  For the super-user every answer is [true]. *)
Record access := Access {
  may_read  : Z -> bool;
  may_write : Z -> bool;
  may_chmod : bool
}.

(** The bytes behind a path: [None] when nothing is there, [Some None]
    for a directory. *)
Definition node_data (nd : node) : option bytes :=
  match nd with
  | Directory => None
  | Regular f => Some (i_data f)
  end.

Definition content (fs : filesystem) (path : string) : option (option bytes) :=
  node_data <$> fs !! path.

Definition root_access : access :=
  {| may_read := fun _ => true; may_write := fun _ => true; may_chmod := true |}.

(** [f.read(n)] on an open binary file raises [ValueError] for [n < -1],
    whatever is left of the file; every method that reads asks
    [read_allowed] first. *)
Definition read_allowed (n : Z) : bool := -1 <=? n.

(** What [f.read(n)] returns of the rest of the file when [n] is allowed:
    [-1] reads to the end of the file. *)
Definition file_read (n : Z) (rest : bytes) : bytes :=
  if n <? 0 then rest else take (Z.to_nat n) rest.

(** [os.path.getsize]. A directory has some size of its own. *)
Definition dir_size : Z := 4096.

Definition getsize (nd : node) : Z :=
  match nd with
  | Directory => dir_size
  | Regular f => Z.of_nat (length (i_data f))
  end.

(** Comparison of floats, [x >= y]. *)
Definition Rgeb (x y : R) : bool := if Rle_dec y x then true else false.

(** *** [datetime] and [timedelta] *)

(** [datetime.min] and [datetime.max], years 1 and 9999. *)
Definition datetime_min : Z := 0.
Definition datetime_max : Z := 315537897599999999.

(** [timedelta(seconds=s)] for an integer [s], in microseconds:
    [OverflowError] when the days are more than 999999999 in magnitude. *)
Definition timedelta_seconds (s : Z) : res Z :=
  let days := s / 86400 in
  if (-999999999 <=? days) && (days <=? 999999999)
  then Ok (s * 1000000)
  else Raise OverflowError.

(** [t + d] and [t - d] of a [datetime] and a [timedelta]:
    [OverflowError] when the result is no [datetime]. *)
Definition datetime_add (t d : Z) : res Z :=
  let r := t + d in
  if (datetime_min <=? r) && (r <=? datetime_max) then Ok r
  else Raise OverflowError.

Definition datetime_sub (t d : Z) : res Z := datetime_add t (- d).

(** [collections.deque(maxlen=n).append]: the oldest entries fall out. *)
Definition deque_append {A} (maxlen : nat) (d : list A) (x : A) : list A :=
  let d' := d ++ [x] in drop (length d' - maxlen)%nat d'.

(* ===================================================================== *)
(** * daemon/integrity_engine.py *)
(* ===================================================================== *)

Module IntegrityEngine.

Inductive ChangeType :=
| NO_CHANGE
| ALLOWED_CHANGE
| UNAUTHORIZED_CHANGE
| SUSPICIOUS_CHANGE
| CRITICAL_CHANGE.

(** The [message] field of the Python dataclass is presentation only and
    is left out. *)
Record IntegrityCheckResult := {
  file_path : string;
  change_type : ChangeType;
  blocks_total : nat;
  blocks_changed : nat;
  change_percent : R;
  current_hashes : list string;
  reference_hashes : list string;
  changed_block_indices : list nat;
  entropy : R
}.

Record ModificationEvent := {
  ev_file_path : string;
  ev_timestamp : Z;
  ev_blocks_changed : nat;
  ev_blocks_total : nat;
  ev_change_percent : R;
  ev_entropy : R
}.

(** [self.ransomware_thresholds]. *)
Record thresholds := {
  files_count : Z;
  time_window : Z;
  block_change_percent : R;
  entropy_threshold : R
}.

Definition default_thresholds : thresholds :=
  {| files_count := 10; time_window := 10;
     block_change_percent := 70%R; entropy_threshold := (75 / 10)%R |}.

(** The engine object: configuration and the modification history. *)
Record engine := {
  block_size : Z;
  ransomware_thresholds : thresholds;
  modification_history : list ModificationEvent
}.

Definition history_maxlen : nat := 1000.

Definition new_engine (bs : Z) (th : thresholds) : engine :=
  {| block_size := bs; ransomware_thresholds := th; modification_history := [] |}.

Definition set_history (e : engine) (h : list ModificationEvent) : engine :=
  {| block_size := block_size e;
     ransomware_thresholds := ransomware_thresholds e;
     modification_history := h |}.

Section Engine.

(** SHA-256 with hexadecimal output is a parameter of the model. *)
Variable sha256 : bytes -> string.
Variable acc : access.

(** The [while True] loop of [compute_file_hashes]; [fuel] bounds the
    number of [read] calls. *)
Fixpoint read_blocks (fuel : nat) (bs : Z) (rest : bytes) : list bytes :=
  match fuel with
  | O => []
  | S k =>
      match file_read bs rest with
      | [] => []
      | block => block :: read_blocks k bs (drop (length block) rest)
      end
  end.

Definition file_blocks (bs : Z) (data : bytes) : list bytes :=
  read_blocks (S (length data)) bs data.

(** The [ValueError] of the first [read] with a block size below [-1]
    leaves the method as an [Exception]. *)
Definition compute_file_hashes (e : engine) (fs : filesystem) (path : string)
  : res (list string * Z) :=
  match fs !! path with
  | None => Raise FileNotFoundError
  | Some Directory => Raise ValueError
  | Some (Regular f) =>
      if may_read acc (i_mode f)
      then if read_allowed (block_size e)
           then Ok (map sha256 (file_blocks (block_size e) (i_data f)),
                    Z.of_nat (length (i_data f)))
           else Raise Exception_
      else Raise PermissionError
  end.

(** The first loop of [compare_hashes], over [range(min_blocks)]. *)
Fixpoint diff_common (i : nat) (cur ref : list string) : list nat :=
  match cur, ref with
  | c :: cur', r :: ref' =>
      if String.eqb c r then diff_common (S i) cur' ref'
      else i :: diff_common (S i) cur' ref'
  | _, _ => []
  end.

Definition compare_hashes (cur ref : list string) : list nat * R :=
  let max_blocks := Nat.max (length cur) (length ref) in
  let min_blocks := Nat.min (length cur) (length ref) in
  let changed_indices :=
    diff_common 0 cur ref ++
    (if Nat.eqb (length cur) (length ref) then []
     else seq min_blocks (max_blocks - min_blocks)) in
  let change_percent :=
    if (0 <? max_blocks)%nat
    then (INR (length changed_indices) / INR max_blocks * 100)%R
    else 0%R in
  (changed_indices, change_percent).

(** [byte_counts[byte] += 1]. *)
Definition count_byte (counts : list nat) (b : byte) : list nat :=
  alter S (Byte.to_nat b) counts.

Definition byte_counts (data : bytes) : list nat :=
  fold_left count_byte data (replicate 256 0%nat).

Definition log2 (x : R) : R := (ln x / ln 2)%R.

(** One round of the loop [for count in byte_counts]. *)
Definition entropy_step (data_len : nat) (entropy : R) (count : nat) : R :=
  if (0 <? count)%nat
  then let probability := (INR count / INR data_len)%R in
       (entropy - probability * log2 probability)%R
  else entropy.

Definition shannon (data : bytes) : R :=
  fold_left (entropy_step (length data)) (byte_counts data) 0%R.

Definition default_sample_size : Z := 1048576.

Definition calculate_entropy (fs : filesystem) (path : string)
    (sample_size : Z) : R :=
  match fs !! path with
  | None => 0%R
  | Some nd =>
      let file_size := getsize nd in
      let read_size := Z.min sample_size file_size in
      if read_size =? 0 then 0%R
      else
        match nd with
        | Directory => 0%R               (* open() raises; caught *)
        | Regular f =>
            if may_read acc (i_mode f)
            then if read_allowed read_size
                 then let data := file_read read_size (i_data f) in
                      match data with
                      | [] => 0%R
                      | _ => shannon data
                      end
                 else 0%R                (* ValueError; caught *)
            else 0%R                     (* PermissionError; caught *)
        end
  end.

Definition _classify_change (e : engine) (change_percent entropy : R)
  : ChangeType :=
  let block_threshold := block_change_percent (ransomware_thresholds e) in
  let entropy_threshold := entropy_threshold (ransomware_thresholds e) in
  if Rgeb change_percent block_threshold && Rgeb entropy entropy_threshold
  then CRITICAL_CHANGE
  else if Rgeb change_percent block_threshold || Rgeb entropy entropy_threshold
  then SUSPICIOUS_CHANGE
  else UNAUTHORIZED_CHANGE.

(** [check_integrity]: the result (or the exception that leaves the
    method) and the engine afterwards. *)
Definition check_integrity (e : engine) (fs : filesystem) (path : string)
    (reference : list string) (is_update_mode : bool) (now : Z)
  : res IntegrityCheckResult * engine :=
  match compute_file_hashes e fs path with
  | Ok (cur, _file_size) =>
      let '(changed_indices, change_percent) := compare_hashes cur reference in
      let blocks_total := length cur in
      let blocks_changed := length changed_indices in
      if Nat.eqb blocks_changed 0 then
        (Ok {| file_path := path; change_type := NO_CHANGE;
               blocks_total := blocks_total; blocks_changed := 0;
               change_percent := 0%R;
               current_hashes := cur; reference_hashes := reference;
               changed_block_indices := []; entropy := 0%R |}, e)
      else if is_update_mode then
        (Ok {| file_path := path; change_type := ALLOWED_CHANGE;
               blocks_total := blocks_total; blocks_changed := blocks_changed;
               change_percent := change_percent;
               current_hashes := cur; reference_hashes := reference;
               changed_block_indices := changed_indices; entropy := 0%R |}, e)
      else
        let entropy := calculate_entropy fs path default_sample_size in
        let mod_event :=
          {| ev_file_path := path; ev_timestamp := now;
             ev_blocks_changed := blocks_changed;
             ev_blocks_total := blocks_total;
             ev_change_percent := change_percent;
             ev_entropy := entropy |} in
        let e' := set_history e
                    (deque_append history_maxlen (modification_history e)
                                  mod_event) in
        let change_type := _classify_change e' change_percent entropy in
        (Ok {| file_path := path; change_type := change_type;
               blocks_total := blocks_total; blocks_changed := blocks_changed;
               change_percent := change_percent;
               current_hashes := cur; reference_hashes := reference;
               changed_block_indices := changed_indices;
               entropy := entropy |}, e')
  | Raise FileNotFoundError =>
      (Ok {| file_path := path; change_type := CRITICAL_CHANGE;
             blocks_total := 0; blocks_changed := 0; change_percent := 0%R;
             current_hashes := []; reference_hashes := reference;
             changed_block_indices := []; entropy := 0%R |}, e)
  | Raise _ => (Raise Exception_, e)
  end.

End Engine.

(** The [details] dictionary of the detector ([detection_time] is the
    instant of the query). *)
Record details := {
  files_affected : nat;
  time_window_seconds : Z;
  avg_change_percent : R;
  avg_entropy : R;
  critical_changes : nat;
  affected_files : list string;
  detection_time : Z
}.

(** The events of the history from [threshold_time] on. *)
Definition events_since (e : engine) (threshold_time : Z)
  : list ModificationEvent :=
  List.filter (fun ev => threshold_time <=? ev_timestamp ev)
              (modification_history e).

Definition is_critical (th : thresholds) (ev : ModificationEvent) : bool :=
  Rgeb (ev_change_percent ev) (block_change_percent th)
  && Rgeb (ev_entropy ev) (entropy_threshold th).

Section Detector.

(** The arithmetic of floats: [round] takes the exact result of an
    operation, of the conversion of an integer or of a literal to the
    float that the machine gives; [float_sum] is [sum] over floats. *)
Variable round : R -> R.
Variable float_sum : list R -> R.

(** [sum(...) / files_count], a float by an integer. *)
Definition average (values : list R) (files_count : nat) : R :=
  round (float_sum values / round (INR files_count)).

(** [detect_ransomware_pattern]; [None] for the empty dictionary.  The
    two thresholds are compared with floats as they are, and with an
    integer the product [files_count * 0.7] is compared exactly. *)
Definition detect_ransomware_pattern (e : engine) (time_window : option Z)
    (now : Z) : res (bool * option details) :=
  let th := ransomware_thresholds e in
  let time_window :=
    match time_window with
    | None => IntegrityEngine.time_window th
    | Some w => w
    end in
  match timedelta_seconds time_window with
  | Raise ex => Raise ex
  | Ok delta =>
  match datetime_sub now delta with
  | Raise ex => Raise ex
  | Ok threshold_time =>
      let recent := events_since e threshold_time in
      if Z.of_nat (length recent) <? IntegrityEngine.files_count th
      then Ok (false, None)
      else
        let files_count := length recent in
        if Nat.eqb files_count 0 then Raise ZeroDivisionError
        else
          let avg_change_percent :=
            average (map ev_change_percent recent) files_count in
          let avg_entropy := average (map ev_entropy recent) files_count in
          let critical_changes :=
            length (List.filter (is_critical th) recent) in
          let is_attack :=
            (IntegrityEngine.files_count th <=? Z.of_nat files_count)
            && Rgeb avg_change_percent (block_change_percent th)
            && Rgeb (INR critical_changes)
                    (round (round (INR files_count) * round (7 / 10))) in
          Ok (is_attack,
              Some {| files_affected := files_count;
                      time_window_seconds := time_window;
                      avg_change_percent := avg_change_percent;
                      avg_entropy := avg_entropy;
                      critical_changes := critical_changes;
                      affected_files := map ev_file_path recent;
                      detection_time := now |})
  end
  end.

End Detector.

End IntegrityEngine.

(* ===================================================================== *)
(** * daemon/recovery.py *)
(* ===================================================================== *)

Module RecoveryEngine.

Inductive RecoveryMethod :=
| BACKUP_FULL
| BACKUP_BLOCKS
| ROLLBACK
| NONE.

(** [RecoveryResult] without its [message] and [timestamp] texts. *)
Record RecoveryResult := {
  success : bool;
  method : RecoveryMethod;
  restored_blocks : nat
}.

Record engine := {
  backup_dir : string;
  quarantine_dir : string;
  block_size : Z
}.

(** ** A state and exception monad over the file system

    An exception leaves the file system as the statements before it made
    it, which is what a Python [try] block observes. *)
Definition io (A : Type) : Type := filesystem -> res A * filesystem.

Definition ret {A} (a : A) : io A := fun fs => (Ok a, fs).
Definition raise {A} (e : exn) : io A := fun fs => (Raise e, fs).
Definition bind {A B} (m : io A) (k : A -> io B) : io B :=
  fun fs =>
    match m fs with
    | (Ok a, fs') => k a fs'
    | (Raise e, fs') => (Raise e, fs')
    end.
(** [try: m except: pass] for a block without a value. *)
Definition try_pass (m : io unit) : io unit :=
  fun fs => (Ok tt, snd (m fs)).

#[global] Instance io_ret : MRet io := @ret.
#[global] Instance io_bind : MBind io := fun A B k m => bind m k.

Section Recovery.

Variable acc : access.

(** *** Primitives of [os], [stat] and [shutil] *)

Definition exists_ (path : string) : io bool :=
  fun fs => (Ok (bool_decide (is_Some (fs !! path))), fs).

(** [os.stat(path).st_mode]; the permission bits of a directory are not
    part of the model and read as [0o755]. *)
Definition st_mode (path : string) : io Z :=
  fun fs =>
    match fs !! path with
    | None => (Raise FileNotFoundError, fs)
    | Some Directory => (Ok 493, fs)
    | Some (Regular f) => (Ok (i_mode f), fs)
    end.

Definition chmod (path : string) (mode : Z) : io unit :=
  fun fs =>
    match fs !! path with
    | None => (Raise FileNotFoundError, fs)
    | Some nd =>
        if may_chmod acc then
          match nd with
          | Directory => (Ok tt, fs)
          | Regular f =>
              (Ok tt, <[path := Regular (Inode (i_data f) mode)]> fs)
          end
        else (Raise PermissionError, fs)
    end.

Definition os_getsize (path : string) : io Z :=
  fun fs =>
    match fs !! path with
    | None => (Raise FileNotFoundError, fs)
    | Some nd => (Ok (getsize nd), fs)
    end.

(** [S_IWUSR | S_IWGRP | S_IWOTH] and [S_IWUSR]. *)
Definition S_IWALL : Z := 146.
Definition S_IWUSR : Z := 128.

Definition clear_bits (mode bits : Z) : Z := Z.land mode (Z.lnot bits).

Definition _lock_file (path : string) : io unit :=
  try_pass (
    ex ← exists_ path;
    if (ex : bool) then
      current_mode ← st_mode path;
      chmod path (clear_bits current_mode S_IWALL)
    else ret tt).

Definition _unlock_file (path : string) : io unit :=
  try_pass (
    ex ← exists_ path;
    if (ex : bool) then
      current_mode ← st_mode path;
      chmod path (Z.lor current_mode S_IWUSR)
    else ret tt).

Definition has_slash (s : string) : bool :=
  existsb (Ascii.eqb "/"%char) (list_ascii_of_string s).

(** [os.path.basename]. *)
Fixpoint basename (s : string) : string :=
  match s with
  | EmptyString => EmptyString
  | String c s' =>
      if Ascii.eqb c "/"%char || has_slash s' then basename s' else s
  end.

Fixpoint ends_with_slash (s : string) : bool :=
  match s with
  | EmptyString => false
  | String c EmptyString => Ascii.eqb c "/"%char
  | String _ s' => ends_with_slash s'
  end.

(** [os.path.join dir name] for a relative [name]. *)
Definition path_join (dir name : string) : string :=
  match dir with
  | EmptyString => name
  | _ => if ends_with_slash dir then (dir ++ name)%string
         else (dir ++ "/" ++ name)%string
  end.

(** Mode of a file that [open(_, 'wb')] creates (umask [0o022]). *)
Definition created_mode : Z := 420.

(** [shutil.copy2 src dst]: content and permission bits of [src]. *)
Definition copy2 (src dst : string) : io unit :=
  fun fs =>
    let dst :=
      match fs !! dst with
      | Some Directory => path_join dst (basename src)
      | _ => dst
      end in
    match fs !! src with
    | None => (Raise FileNotFoundError, fs)
    | Some Directory =>
        if bool_decide (src = dst) then (Raise OSError, fs)
        else (Raise IsADirectoryError, fs)
    | Some (Regular s) =>
        if bool_decide (src = dst) then (Raise OSError, fs)   (* SameFileError *)
        else if negb (may_read acc (i_mode s)) then (Raise PermissionError, fs)
        else
          match fs !! dst with
          | Some Directory => (Raise IsADirectoryError, fs)
          | Some (Regular d) =>
              if may_write acc (i_mode d) then
                if may_chmod acc
                then (Ok tt, <[dst := Regular (Inode (i_data s) (i_mode s))]> fs)
                else (Raise PermissionError,
                      <[dst := Regular (Inode (i_data s) (i_mode d))]> fs)
              else (Raise PermissionError, fs)
          | None =>
              if may_chmod acc
              then (Ok tt, <[dst := Regular (Inode (i_data s) (i_mode s))]> fs)
              else (Raise PermissionError,
                    <[dst := Regular (Inode (i_data s) created_mode)]> fs)
          end
    end.

(** *** Full restore *)

Definition failed (m : RecoveryMethod) : RecoveryResult :=
  {| success := false; method := m; restored_blocks := 0 |}.

(** The directory tree is not part of the model (paths are keys of a flat
    map): the directories that [Path(file_dir).mkdir(parents=True,
    exist_ok=True)] creates above the file when they are missing do not
    appear here, nor does its failure when a regular file stands where a
    directory is needed.  The call touches no regular file. *)
Definition restore_from_backup (e : engine) (file_path backup_path : string)
  : filesystem -> RecoveryResult * filesystem :=
  fun fs =>
    if negb (bool_decide (is_Some (fs !! backup_path)))
    then (failed BACKUP_FULL, fs)
    else
      match (_lock_file file_path;;
             copy2 backup_path file_path;;
             chmod file_path 420;;
             _unlock_file file_path) fs with
      | (Ok _, fs') =>
          ({| success := true; method := BACKUP_FULL; restored_blocks := 0 |},
           fs')
      | (Raise _, fs') => (failed BACKUP_FULL, fs')
      end.

(** *** Block restore *)

Definition zero : byte := x00.

(** [f.seek(off); f.write(data)] on a file opened ['r+b']: a gap between
    the end of the file and [off] reads as zero bytes. *)
Definition write_at (off : nat) (data target : bytes) : bytes :=
  take off target ++ replicate (off - length target) zero
    ++ data ++ drop (off + length data) target.

(** [f.truncate(size)]: cut, or extend with zero bytes. *)
Definition truncate (size : nat) (target : bytes) : bytes :=
  take size target ++ replicate (size - length target) zero.

(** [sorted(block_indices)]. *)
Fixpoint insert_sorted (i : Z) (l : list Z) : list Z :=
  match l with
  | [] => [i]
  | j :: l' => if i <=? j then i :: l else j :: insert_sorted i l'
  end.

Definition sorted (l : list Z) : list Z := fold_right insert_sorted [] l.

(** The [for block_index in sorted(block_indices)] loop: [restored_count],
    or the exception of a [seek] to a negative offset or of a [read] with
    a block size below [-1], and the content of the target as the loop
    leaves it. *)
Fixpoint restore_loop (bs : Z) (backup : bytes) (idxs : list Z)
    (target : bytes) (restored_count : nat) : res nat * bytes :=
  match idxs with
  | [] => (Ok restored_count, target)
  | block_index :: rest =>
      let block_offset := block_index * bs in
      if block_offset <? 0 then (Raise OSError, target)
      else if negb (read_allowed bs) then (Raise ValueError, target)
      else
        let off := Z.to_nat block_offset in
        match file_read bs (drop off backup) with
        | [] => restore_loop bs backup rest target restored_count
        | block_data =>
            restore_loop bs backup rest (write_at off block_data target)
                         (S restored_count)
        end
  end.

(** The body of the [with open(...) as backup_file, open(...) as
    target_file] statement.  The backup is read from its content at the
    time it is opened; what was written reaches the target when the
    statement is left, also by an exception. *)
Definition with_open_both (e : engine) (file_path backup_path : string)
    (backup_size : Z) (idxs : list Z) : io nat :=
  fun fs =>
    match fs !! backup_path with
    | None => (Raise FileNotFoundError, fs)
    | Some Directory => (Raise IsADirectoryError, fs)
    | Some (Regular b) =>
        if negb (may_read acc (i_mode b)) then (Raise PermissionError, fs)
        else
          match fs !! file_path with
          | None => (Raise FileNotFoundError, fs)
          | Some Directory => (Raise IsADirectoryError, fs)
          | Some (Regular t) =>
              if negb (may_read acc (i_mode t) && may_write acc (i_mode t))
              then (Raise PermissionError, fs)
              else
                match restore_loop (block_size e) (i_data b) (sorted idxs)
                                   (i_data t) 0 with
                | (Raise ex, data) =>
                    (Raise ex,
                     <[file_path := Regular (Inode data (i_mode t))]> fs)
                | (Ok restored_count, data) =>
                    if backup_size <? 0
                    then (Raise OSError,
                          <[file_path := Regular (Inode data (i_mode t))]> fs)
                    else
                      (Ok restored_count,
                       <[file_path :=
                           Regular (Inode (truncate (Z.to_nat backup_size) data)
                                          (i_mode t))]> fs)
                end
          end
    end.

Definition restore_blocks (e : engine) (file_path backup_path : string)
    (block_indices : list Z) : filesystem -> RecoveryResult * filesystem :=
  fun fs =>
    if negb (bool_decide (is_Some (fs !! backup_path)))
    then (failed BACKUP_BLOCKS, fs)
    else if negb (bool_decide (is_Some (fs !! file_path)))
    then restore_from_backup e file_path backup_path fs
    else
      match (_lock_file file_path;;
             backup_size ← os_getsize backup_path;
             restored_count ←
               with_open_both e file_path backup_path backup_size
                              block_indices;
             _unlock_file file_path;;
             ret restored_count) fs with
      | (Ok restored_count, fs') =>
          ({| success := true; method := BACKUP_BLOCKS;
              restored_blocks := restored_count |}, fs')
      | (Raise _, fs') => (failed BACKUP_BLOCKS, fs')
      end.

End Recovery.

End RecoveryEngine.

(* ===================================================================== *)
(** * daemon/hash_storage.py *)
(* ===================================================================== *)

Module HashStorage.

(** The dataclass returned by [get_file]. *)
Record FileRecord := {
  file_path : string;
  file_size : Z;
  block_size : Z;
  blocks_count : Z;
  block_hashes : list string;
  created_at : Z;
  updated_at : Z;
  is_trusted : bool;
  backup_path : option string
}.

(** A row of table [files]; [is_trusted] is an INTEGER column. *)
Record file_row := {
  f_id : Z;
  f_file_path : string;
  f_file_size : Z;
  f_block_size : Z;
  f_blocks_count : Z;
  f_created_at : Z;
  f_updated_at : Z;
  f_is_trusted : Z;
  f_backup_path : option string
}.

(** A row of table [block_hashes]. *)
Record block_row := {
  b_id : Z;
  b_file_id : Z;
  b_block_index : Z;
  b_hash_value : string
}.

(** The connection: the two tables in row order, the AUTOINCREMENT
    counters of [sqlite_sequence], and the [foreign_keys] pragma of the
    connection, which decides whether [ON DELETE CASCADE] and the
    reference check are enforced. *)
Record database := {
  files : list file_row;
  block_hashes_tbl : list block_row;
  files_seq : Z;
  block_hashes_seq : Z;
  foreign_keys : bool
}.

(** [sqlite3.connect] followed by the [CREATE TABLE IF NOT EXISTS]
    statements on a fresh file.  The method issues no [PRAGMA
    foreign_keys], so the pragma keeps the value a new connection has. *)
Definition sqlite_default_foreign_keys : bool := false.

Definition _init_database : database :=
  {| files := []; block_hashes_tbl := [];
     files_seq := 0; block_hashes_seq := 0;
     foreign_keys := sqlite_default_foreign_keys |}.

(** ** SQL statements *)

Definition max_id (ids : list Z) : Z := fold_right Z.max 0 ids.

(** The rowid an AUTOINCREMENT table gives to a new row. *)
Definition next_rowid (seq : Z) (ids : list Z) : Z :=
  Z.max seq (max_id ids) + 1.

Definition has_path (p : string) (r : file_row) : bool :=
  String.eqb (f_file_path r) p.

Definition refers_to (ids : list Z) (b : block_row) : bool :=
  existsb (Z.eqb (b_file_id b)) ids.

(** Deleting rows of [files]: with the pragma on, the rows of
    [block_hashes] that reference them go as well. *)
Definition delete_files (doomed : file_row -> bool) (db : database)
  : database * nat :=
  let gone := List.filter doomed (files db) in
  let kept := List.filter (fun r => negb (doomed r)) (files db) in
  let blocks :=
    if foreign_keys db
    then List.filter (fun b => negb (refers_to (map f_id gone) b))
                     (block_hashes_tbl db)
    else block_hashes_tbl db in
  ({| files := kept; block_hashes_tbl := blocks;
      files_seq := files_seq db; block_hashes_seq := block_hashes_seq db;
      foreign_keys := foreign_keys db |}, length gone).

(** [INSERT OR REPLACE INTO files (...) VALUES (...)]: rows in conflict on
    the UNIQUE [file_path] are deleted, the new row gets a fresh id.
    Returns the database and [cursor.lastrowid]. *)
Definition insert_or_replace_file (path : string) (size bsize count : Z)
    (created updated trusted : Z) (backup : option string) (db : database)
  : database * Z :=
  let db1 := fst (delete_files (has_path path) db) in
  let new_id := next_rowid (files_seq db1) (map f_id (files db1)) in
  ({| files := files db1 ++
        [{| f_id := new_id; f_file_path := path; f_file_size := size;
            f_block_size := bsize; f_blocks_count := count;
            f_created_at := created; f_updated_at := updated;
            f_is_trusted := trusted; f_backup_path := backup |}];
      block_hashes_tbl := block_hashes_tbl db1;
      files_seq := new_id; block_hashes_seq := block_hashes_seq db1;
      foreign_keys := foreign_keys db1 |}, new_id).

(** [DELETE FROM block_hashes WHERE file_id = ?]. *)
Definition delete_block_hashes (file_id : Z) (db : database) : database :=
  {| files := files db;
     block_hashes_tbl :=
       List.filter (fun b => negb (b_file_id b =? file_id))
                   (block_hashes_tbl db);
     files_seq := files_seq db; block_hashes_seq := block_hashes_seq db;
     foreign_keys := foreign_keys db |}.

(** [INSERT INTO block_hashes (file_id, block_index, hash_value)]:
    [sqlite3.IntegrityError] on a second row for the same
    [(file_id, block_index)] and, with the pragma on, on a [file_id]
    that no row of [files] carries. *)
Definition insert_block_hash (file_id block_index : Z) (hash : string)
    (db : database) : option database :=
  if existsb (fun b => (b_file_id b =? file_id)
                       && (b_block_index b =? block_index))
             (block_hashes_tbl db)
  then None
  else if foreign_keys db && negb (existsb (fun r => f_id r =? file_id) (files db))
  then None
  else
    let new_id := next_rowid (block_hashes_seq db)
                             (map b_id (block_hashes_tbl db)) in
    Some {| files := files db;
            block_hashes_tbl := block_hashes_tbl db ++
              [{| b_id := new_id; b_file_id := file_id;
                  b_block_index := block_index; b_hash_value := hash |}];
            files_seq := files_seq db; block_hashes_seq := new_id;
            foreign_keys := foreign_keys db |}.

(** [for block_index, hash_value in enumerate(block_hashes)], started at
    [block_index]. *)
Fixpoint insert_block_hashes (file_id : Z) (block_index : Z)
    (hashes : list string) (db : database) : option database :=
  match hashes with
  | [] => Some db
  | h :: rest =>
      match insert_block_hash file_id block_index h db with
      | None => None
      | Some db' => insert_block_hashes file_id (block_index + 1) rest db'
      end
  end.

(** [ORDER BY block_index]. *)
Fixpoint insert_by_index (b : block_row) (l : list block_row)
  : list block_row :=
  match l with
  | [] => [b]
  | c :: l' =>
      if b_block_index b <? b_block_index c then b :: l
      else c :: insert_by_index b l'
  end.

Definition order_by_block_index (l : list block_row) : list block_row :=
  fold_left (fun sorted b => insert_by_index b sorted) l [].

(** ** Methods.  A [sqlite3.Error] rolls the transaction back, so the
    database returned with [Raise] is the one the method started from. *)

Definition add_file (db : database) (file_path : string)
    (file_size block_size : Z) (block_hashes : list string)
    (backup_path : option string) (now : Z) : res bool * database :=
  let blocks_count := Z.of_nat (length block_hashes) in
  let '(db1, file_id) :=
    insert_or_replace_file file_path file_size block_size blocks_count
                           now now 1 backup_path db in
  let db2 := delete_block_hashes file_id db1 in
  match insert_block_hashes file_id 0 block_hashes db2 with
  | Some db3 => (Ok true, db3)
  | None => (Raise Exception_, db)
  end.

Definition get_file (db : database) (file_path : string)
  : option FileRecord :=
  match List.filter (has_path file_path) (files db) with
  | [] => None
  | row :: _ =>
      let file_id := f_id row in
      let rows :=
        order_by_block_index
          (List.filter (fun b => b_file_id b =? file_id)
                       (block_hashes_tbl db)) in
      Some {| file_path := f_file_path row;
              file_size := f_file_size row;
              block_size := f_block_size row;
              blocks_count := f_blocks_count row;
              block_hashes := map b_hash_value rows;
              created_at := f_created_at row;
              updated_at := f_updated_at row;
              is_trusted := negb (f_is_trusted row =? 0);
              backup_path := f_backup_path row |}
  end.

(** [UPDATE files SET file_size, blocks_count, updated_at, backup_path
    WHERE id = ?]. *)
Definition update_file_row (file_id size count updated : Z)
    (backup : option string) (r : file_row) : file_row :=
  if f_id r =? file_id
  then {| f_id := f_id r; f_file_path := f_file_path r;
          f_file_size := size; f_block_size := f_block_size r;
          f_blocks_count := count; f_created_at := f_created_at r;
          f_updated_at := updated; f_is_trusted := f_is_trusted r;
          f_backup_path := backup |}
  else r.

Definition set_files (db : database) (fl : list file_row) : database :=
  {| files := fl; block_hashes_tbl := block_hashes_tbl db;
     files_seq := files_seq db; block_hashes_seq := block_hashes_seq db;
     foreign_keys := foreign_keys db |}.

Definition update_file (db : database) (file_path : string) (file_size : Z)
    (block_hashes : list string) (backup_path : option string) (now : Z)
  : res bool * database :=
  match List.filter (has_path file_path) (files db) with
  | [] => (Ok false, db)
  | row :: _ =>
      let file_id := f_id row in
      let blocks_count := Z.of_nat (length block_hashes) in
      let db1 :=
        set_files db
          (map (update_file_row file_id file_size blocks_count now backup_path)
               (files db)) in
      let db2 := delete_block_hashes file_id db1 in
      match insert_block_hashes file_id 0 block_hashes db2 with
      | Some db3 => (Ok true, db3)
      | None => (Raise Exception_, db)
      end
  end.

(** [DELETE FROM files WHERE file_path = ?]; [cursor.rowcount > 0]. *)
Definition remove_file (db : database) (file_path : string)
  : res bool * database :=
  let '(db', rowcount) := delete_files (has_path file_path) db in
  (Ok (0 <? rowcount)%nat, db').

Definition set_trust_status (db : database) (file_path : string)
    (is_trusted : bool) : res bool * database :=
  let v := if is_trusted then 1 else 0 in
  let hit := List.filter (has_path file_path) (files db) in
  (Ok (0 <? length hit)%nat,
   set_files db
     (map (fun r =>
             if has_path file_path r
             then {| f_id := f_id r; f_file_path := f_file_path r;
                     f_file_size := f_file_size r;
                     f_block_size := f_block_size r;
                     f_blocks_count := f_blocks_count r;
                     f_created_at := f_created_at r;
                     f_updated_at := f_updated_at r;
                     f_is_trusted := v; f_backup_path := f_backup_path r |}
             else r)
          (files db))).

(** [clear_all] deletes the rows of both tables itself. *)
Definition clear_all (db : database) : res bool * database :=
  (Ok true,
   {| files := []; block_hashes_tbl := [];
      files_seq := files_seq db; block_hashes_seq := block_hashes_seq db;
      foreign_keys := foreign_keys db |}).

(** The rows of [block_hashes] that belong to file [file_id]. *)
Definition rows_of (file_id : Z) (db : database) : list block_row :=
  List.filter (fun b => b_file_id b =? file_id) (block_hashes_tbl db).

(** The id under which [file_path] is stored, if it is. *)
Definition id_of (db : database) (file_path : string) : option Z :=
  match List.filter (has_path file_path) (files db) with
  | [] => None
  | row :: _ => Some (f_id row)
  end.

(** The rows the loop of [add_file] and [update_file] adds for a file:
    its id on each, the hashes in order, indices that ascend from [k]. *)
Definition inserted (file_id : Z) (k : Z) (hashes : list string)
    (rows : list block_row) : Prop :=
  Forall (fun b => b_file_id b = file_id) rows /\
  map b_hash_value rows = hashes /\
  StronglySorted Z.le (map b_block_index rows) /\
  Forall (fun b => k <= b_block_index b) rows.

End HashStorage.

(* ===================================================================== *)
(** * daemon/auth.py *)
(* ===================================================================== *)

Module AuthManager.

Inductive SystemMode :=
| MONITOR
| INIT
| UPDATE
| EMERGENCY.

Inductive AuthResult :=
| SUCCESS
| FAILED
| EXPIRED
| UNAUTHORIZED.

#[global] Instance SystemMode_eq_dec : EqDecision SystemMode.
Proof. solve_decision. Defined.

Record session := {
  user : string;
  created : Z;
  expires : Z
}.

Record mode_record := {
  rec_timestamp : Z;
  rec_from_mode : SystemMode;
  rec_to_mode : SystemMode;
  rec_admin_user : string;
  rec_timeout : option Z;
  rec_reason : string
}.

(** The fields of an [AuthManager] object.  [mode_timeout] counts
    seconds, the instants count microseconds. *)
Record manager := {
  current_mode : SystemMode;
  mode_start_time : option Z;
  mode_timeout : option Z;
  active_sessions : gmap string session;
  mode_history : list mode_record;
  emergency_triggered : bool;
  emergency_reason : string
}.

Definition __init__ : manager :=
  {| current_mode := MONITOR; mode_start_time := None; mode_timeout := None;
     active_sessions := ∅; mode_history := [];
     emergency_triggered := false; emergency_reason := "" |}.

Definition seconds (n : Z) : Z := n * 1000000.

Definition _record_mode_change (m : manager) (new_mode : SystemMode)
    (admin_user : string) (timeout : option Z) (reason : string) (now : Z)
  : manager :=
  let record :=
    {| rec_timestamp := now; rec_from_mode := current_mode m;
       rec_to_mode := new_mode; rec_admin_user := admin_user;
       rec_timeout := timeout; rec_reason := reason |} in
  let h := mode_history m ++ [record] in
  let h := if (1000 <? length h)%nat then drop (length h - 1000)%nat h else h in
  {| current_mode := current_mode m;
     mode_start_time := mode_start_time m;
     mode_timeout := mode_timeout m;
     active_sessions := active_sessions m;
     mode_history := h;
     emergency_triggered := emergency_triggered m;
     emergency_reason := emergency_reason m |}.

(** [elapsed > self.mode_timeout], with [elapsed] the seconds since
    [mode_start_time]. *)
Definition _is_mode_expired (m : manager) (now : Z) : bool :=
  match mode_timeout m, mode_start_time m with
  | Some timeout, Some start => seconds timeout <? now - start
  | _, _ => false
  end.

Definition _exit_update_mode (m : manager) (admin_user : string) (now : Z)
  : bool * manager :=
  let m := _record_mode_change m MONITOR admin_user None "" now in
  (true,
   {| current_mode := MONITOR; mode_start_time := None; mode_timeout := None;
      active_sessions := ∅;
      mode_history := mode_history m;
      emergency_triggered := emergency_triggered m;
      emergency_reason := emergency_reason m |}).

Definition get_current_mode (m : manager) (now : Z) : SystemMode * manager :=
  let m :=
    if bool_decide (current_mode m = UPDATE) then
      if _is_mode_expired m now then snd (_exit_update_mode m "auto" now)
      else m
    else m in
  (current_mode m, m).

(** [os.geteuid()] is the argument [euid]. *)
Definition _verify_admin (euid : Z) (admin_user : string) : bool :=
  if negb (euid =? 0) then false
  else bool_decide (admin_user ∈ ["root"; "admin"]).

(** [secrets.token_hex(32)] is the argument [token].  The session is
    stored once its dictionary is built: when [timedelta(seconds=timeout)]
    or [datetime.now() + ...] raises [OverflowError], nothing is stored. *)
Definition _generate_session_token (m : manager) (admin_user : string)
    (timeout : Z) (now : Z) (token : string) : res string * manager :=
  match timedelta_seconds timeout with
  | Raise ex => (Raise ex, m)
  | Ok delta =>
      match datetime_add now delta with
      | Raise ex => (Raise ex, m)
      | Ok expires =>
          (Ok token,
           {| current_mode := current_mode m;
              mode_start_time := mode_start_time m;
              mode_timeout := mode_timeout m;
              active_sessions :=
                <[token := {| user := admin_user; created := now;
                              expires := expires |}]>
                  (active_sessions m);
              mode_history := mode_history m;
              emergency_triggered := emergency_triggered m;
              emergency_reason := emergency_reason m |})
      end
  end.

Definition set_mode (m : manager) (mode : SystemMode) (start timeout : option Z)
  : manager :=
  {| current_mode := mode; mode_start_time := start; mode_timeout := timeout;
     active_sessions := active_sessions m;
     mode_history := mode_history m;
     emergency_triggered := emergency_triggered m;
     emergency_reason := emergency_reason m |}.

Definition enter_init_mode (m : manager) (admin_user : string) (now : Z)
  : bool * manager :=
  if negb (bool_decide (current_mode m = MONITOR)) then (false, m)
  else
    let m := _record_mode_change m INIT admin_user None "" now in
    (true, set_mode m INIT (Some now) None).

Definition exit_init_mode (m : manager) (admin_user : string) (now : Z)
  : bool * manager :=
  if negb (bool_decide (current_mode m = INIT)) then (false, m)
  else
    let m := _record_mode_change m MONITOR admin_user None "" now in
    (true, set_mode m MONITOR None None).

(** Returns [(success, session_token)], or the exception of
    [_generate_session_token], and the manager afterwards. *)
Definition enter_update_mode (m : manager) (euid : Z) (admin_user : string)
    (timeout : Z) (now : Z) (token : string)
  : res (bool * option string) * manager :=
  if bool_decide (current_mode m = EMERGENCY) then (Ok (false, None), m)
  else if bool_decide (current_mode m = INIT) then (Ok (false, None), m)
  else if bool_decide (current_mode m = UPDATE) then
    (Ok (true, None), set_mode m UPDATE (Some now) (Some timeout))
  else if negb (_verify_admin euid admin_user) then (Ok (false, None), m)
  else
    match _generate_session_token m admin_user timeout now token with
    | (Raise ex, m) => (Raise ex, m)
    | (Ok session_token, m) =>
        let m :=
          _record_mode_change m UPDATE admin_user (Some timeout) "" now in
        (Ok (true, Some session_token),
         set_mode m UPDATE (Some now) (Some timeout))
    end.

Definition exit_update_mode (m : manager) (admin_user : string) (now : Z)
  : bool * manager :=
  if negb (bool_decide (current_mode m = UPDATE)) then (false, m)
  else _exit_update_mode m admin_user now.

Definition enter_emergency_mode (m : manager) (reason : string) (now : Z)
  : bool * manager :=
  let m := _record_mode_change m EMERGENCY "system" None reason now in
  let m :=
    if bool_decide (current_mode m = UPDATE)
    then snd (_exit_update_mode m "system" now)
    else m in
  (true,
   {| current_mode := EMERGENCY; mode_start_time := Some now;
      mode_timeout := None;
      active_sessions := active_sessions m;
      mode_history := mode_history m;
      emergency_triggered := true;
      emergency_reason := reason |}).

Definition exit_emergency_mode (m : manager) (euid : Z) (admin_user : string)
    (now : Z) : bool * manager :=
  if negb (bool_decide (current_mode m = EMERGENCY)) then (false, m)
  else if negb (_verify_admin euid admin_user) then (false, m)
  else
    let m := _record_mode_change m MONITOR admin_user None "" now in
    (true,
     {| current_mode := MONITOR; mode_start_time := None;
        mode_timeout := None;
        active_sessions := active_sessions m;
        mode_history := mode_history m;
        emergency_triggered := false;
        emergency_reason := "" |}).

Definition verify_session_token (m : manager) (token : string) (now : Z)
  : AuthResult * manager :=
  match active_sessions m !! token with
  | None => (UNAUTHORIZED, m)
  | Some s =>
      if expires s <? now
      then (EXPIRED,
            {| current_mode := current_mode m;
               mode_start_time := mode_start_time m;
               mode_timeout := mode_timeout m;
               active_sessions := delete token (active_sessions m);
               mode_history := mode_history m;
               emergency_triggered := emergency_triggered m;
               emergency_reason := emergency_reason m |})
      else (SUCCESS, m)
  end.

(** The calls that ask the manager for a mode transition, with the
    instant at which each one runs. *)
Inductive call :=
| Enter_init (admin_user : string)
| Exit_init (admin_user : string)
| Enter_update (admin_user : string) (timeout : Z) (token : string)
| Exit_update (admin_user : string)
| Enter_emergency (reason : string)
| Exit_emergency (admin_user : string).

(** The success flag of a call and the manager afterwards; a call that
    raises has not succeeded. *)
Definition run (euid : Z) (now : Z) (c : call) (m : manager)
  : bool * manager :=
  match c with
  | Enter_init u => enter_init_mode m u now
  | Exit_init u => exit_init_mode m u now
  | Enter_update u t tok =>
      match enter_update_mode m euid u t now tok with
      | (Ok (ok, _), m') => (ok, m')
      | (Raise _, m') => (false, m')
      end
  | Exit_update u => exit_update_mode m u now
  | Enter_emergency r => enter_emergency_mode m r now
  | Exit_emergency u => exit_emergency_mode m euid u now
  end.

(** A sequence of [get_current_mode] calls at the given instants: the
    modes they return and the manager afterwards. *)
Fixpoint reads (m : manager) (instants : list Z) : list SystemMode * manager :=
  match instants with
  | [] => ([], m)
  | t :: rest =>
      let '(mode, m1) := get_current_mode m t in
      let '(modes, m2) := reads m1 rest in
      (mode :: modes, m2)
  end.

End AuthManager.

(* ===================================================================== *)
(** * Sample inputs *)
(* ===================================================================== *)

Module Samples.

(** A stand-in for SHA-256 on the sample inputs: the bytes as a string. *)
Definition digest (data : bytes) : string :=
  string_of_list_ascii (map ascii_of_byte data).

(** A protected file of five bytes and its backup of three. *)
Definition target_file : inode := Inode [x41; x42; x43; x44; x45] 420.
Definition backup_file : inode := Inode [x61; x62; x63] 384.

Definition disk : filesystem :=
  <["/srv/data.txt" := Regular target_file]>
    (<["/var/backups/data.backup" := Regular backup_file]> ∅).

Definition integrity : IntegrityEngine.engine :=
  IntegrityEngine.new_engine 2 IntegrityEngine.default_thresholds.

Definition recovery : RecoveryEngine.engine :=
  {| RecoveryEngine.backup_dir := "/var/backups";
     RecoveryEngine.quarantine_dir := "/var/quarantine";
     RecoveryEngine.block_size := 2 |}.

(** A store with one file, marked untrusted after its baseline. *)
Definition store : HashStorage.database :=
  snd (HashStorage.set_trust_status
         (snd (HashStorage.add_file HashStorage._init_database
                 "/etc/hosts" 70000 65536 ["aa"; "bb"] None 5))
         "/etc/hosts" false).

(** Arithmetic without rounding: an instance of the parameters [round]
    and [float_sum]. *)
Definition exact (x : R) : R := x.
Definition Rsum (l : list R) : R := fold_left Rplus l 0%R.

(** The first instant of 2026, in microseconds since [datetime.min]. *)
Definition today : Z := 63902822400000000.

(** An engine that reacts to a single file, with the event of a file
    whose blocks have all changed to noise. *)
Definition encrypted : IntegrityEngine.ModificationEvent :=
  {| IntegrityEngine.ev_file_path := "/srv/data.txt";
     IntegrityEngine.ev_timestamp := today;
     IntegrityEngine.ev_blocks_changed := 3;
     IntegrityEngine.ev_blocks_total := 3;
     IntegrityEngine.ev_change_percent := 100%R;
     IntegrityEngine.ev_entropy := 8%R |}.

Definition attacked : IntegrityEngine.engine :=
  {| IntegrityEngine.block_size := 65536;
     IntegrityEngine.ransomware_thresholds :=
       {| IntegrityEngine.files_count := 1;
          IntegrityEngine.time_window := 10;
          IntegrityEngine.block_change_percent := 70%R;
          IntegrityEngine.entropy_threshold := (75 / 10)%R |};
     IntegrityEngine.modification_history := [encrypted] |}.

(** A manager that an alarm has put into the emergency mode. *)
Definition alarmed : AuthManager.manager :=
  snd (AuthManager.enter_emergency_mode AuthManager.__init__ "ransomware" 0).

End Samples.

(* ===================================================================== *)
(** * daemon/integrity_engine.py, the remaining methods *)
(* ===================================================================== *)

Module IntegrityEngineExt.

Import IntegrityEngine.

Section Engine.

Variable acc : access.



End Engine.

Definition clear_modification_history (e : engine) : engine :=
  set_history e [].

(** The dictionary of [get_modification_statistics]; the keys that only
    the non-empty case has are options. *)
Record statistics := {
  files_modified : nat;
  stat_avg_change_percent : R;
  stat_avg_entropy : R;
  max_change_percent : option R;
  max_entropy : option R;
  stat_time_window_seconds : Z;
  files : option (list string)
}.

(** [max] of a non-empty sequence of floats. *)
Definition Rmax_list (first : R) (others : list R) : R :=
  fold_left Rmax others first.

Section Statistics.

Variable round : R -> R.
Variable float_sum : list R -> R.

Definition get_modification_statistics (e : engine) (time_window : Z)
    (now : Z) : res statistics :=
  match timedelta_seconds time_window with
  | Raise ex => Raise ex
  | Ok delta =>
  match datetime_sub now delta with
  | Raise ex => Raise ex
  | Ok threshold_time =>
      match events_since e threshold_time with
      | [] =>
          Ok {| files_modified := 0; stat_avg_change_percent := 0%R;
                stat_avg_entropy := 0%R; max_change_percent := None;
                max_entropy := None; stat_time_window_seconds := time_window;
                files := None |}
      | ev :: evs =>
          let recent := ev :: evs in
          Ok {| files_modified := length recent;
                stat_avg_change_percent :=
                  average round float_sum (map ev_change_percent recent)
                          (length recent);
                stat_avg_entropy :=
                  average round float_sum (map ev_entropy recent)
                          (length recent);
                max_change_percent :=
                  Some (Rmax_list (ev_change_percent ev)
                                  (map ev_change_percent evs));
                max_entropy :=
                  Some (Rmax_list (ev_entropy ev) (map ev_entropy evs));
                stat_time_window_seconds := time_window;
                files := Some (map ev_file_path recent) |}
      end
  end
  end.

End Statistics.

End IntegrityEngineExt.

(* ===================================================================== *)
(** * daemon/recovery.py, the remaining methods *)
(* ===================================================================== *)

Module RecoveryEngineExt.

Import RecoveryEngine.

(** [s.replace('/', '_')]; the second [replace], of [os.sep], finds
    nothing more. *)
Fixpoint replace_slash (s : string) : string :=
  match s with
  | EmptyString => EmptyString
  | String c s' =>
      String (if Ascii.eqb c "/"%char then "_"%char else c) (replace_slash s')
  end.

(** [_generate_backup_name]; [stamp] is the text that
    [datetime.now().strftime('%Y%m%d_%H%M%S')] returns. *)
Definition _generate_backup_name (file_path stamp : string) : string :=
  (replace_slash file_path ++ "_" ++ stamp ++ ".backup")%string.

(** The answer of the [chattr] tool run by [subprocess.run]: it did what
    it was asked, it failed or is not installed ([CalledProcessError],
    [FileNotFoundError]), or it hit the timeout ([TimeoutExpired]). *)
Inductive chattr_outcome :=
| Chattr_done
| Chattr_failed
| Chattr_timeout.

(** A file system together with the paths that carry the immutable
    attribute.  The kernel refuses [chmod] on such a path, also to the
    super-user. *)
Record disk := Disk {
  d_files : filesystem;
  d_immutable : gset string
}.

Section Recovery.

Variable acc : access.

(** [(True, backup_path)] is [Some backup_path], [(False, message)] is
    [None]. *)
Definition create_backup (e : engine) (file_path stamp : string)
  : filesystem -> option string * filesystem :=
  fun fs =>
    match fs !! file_path with
    | None => (None, fs)
    | Some Directory => (None, fs)
    | Some (Regular _) =>
        let backup_name := _generate_backup_name file_path stamp in
        let backup_path := path_join (backup_dir e) backup_name in
        match (copy2 acc file_path backup_path;;
               chmod acc backup_path 384) fs with
        | (Ok _, fs') => (Some backup_path, fs')
        | (Raise _, fs') => (None, fs')
        end
    end.

(** [os.chmod] on a disk. *)
Definition chmod_on (path : string) (mode : Z) (d : disk) : res unit * disk :=
  if bool_decide (path ∈ d_immutable d) then (Raise PermissionError, d)
  else let '(r, fs) := chmod acc path mode (d_files d) in
       (r, Disk fs (d_immutable d)).

(** [block_file]; [chattr] is what the tool answers when it is run. *)
Definition block_file (file_path : string) (permanent : bool)
    (chattr : chattr_outcome) (d : disk) : bool * disk :=
  match d_files d !! file_path with
  | None => (false, d)
  | Some nd =>
      let current_mode := match nd with
                          | Directory => 493
                          | Regular f => i_mode f
                          end in
      match chmod_on file_path (clear_bits current_mode S_IWALL) d with
      | (Raise _, d') => (false, d')
      | (Ok _, d') =>
          if permanent then
            match chattr with
            | Chattr_done =>
                (true, Disk (d_files d') ({[file_path]} ∪ d_immutable d'))
            | Chattr_failed => (true, d')
            | Chattr_timeout => (false, d')
            end
          else (true, d')
      end
  end.

(** [unblock_file]: [chattr -i] first, whatever comes of it short of a
    timeout, then the owner's write bit. *)
Definition unblock_file (file_path : string) (chattr : chattr_outcome)
    (d : disk) : bool * disk :=
  match d_files d !! file_path with
  | None => (false, d)
  | Some _ =>
      match chattr with
      | Chattr_timeout => (false, d)
      | _ =>
          let d1 := match chattr with
                    | Chattr_done =>
                        Disk (d_files d) (d_immutable d ∖ {[file_path]})
                    | _ => d
                    end in
          match d_files d1 !! file_path with
          | None => (false, d1)
          | Some nd =>
              let current_mode := match nd with
                                  | Directory => 493
                                  | Regular f => i_mode f
                                  end in
              match chmod_on file_path (Z.lor current_mode S_IWUSR) d1 with
              | (Ok _, d2) => (true, d2)
              | (Raise _, d2) => (false, d2)
              end
          end
      end
  end.

(** The loop of [emergency_block_all] with its two counters; [chattr]
    gives the answer of the tool for each path. *)
Fixpoint emergency_block_loop (file_paths : list string)
    (chattr : string -> chattr_outcome) (blocked errors : nat) (d : disk)
  : (nat * nat) * disk :=
  match file_paths with
  | [] => ((blocked, errors), d)
  | file_path :: rest =>
      let '(success, d1) := block_file file_path true (chattr file_path) d in
      if success
      then emergency_block_loop rest chattr (S blocked) errors d1
      else emergency_block_loop rest chattr blocked (S errors) d1
  end.

(** Returns [(blocked, errors)]. *)
Definition emergency_block_all (file_paths : list string)
    (chattr : string -> chattr_outcome) (d : disk) : (nat * nat) * disk :=
  emergency_block_loop file_paths chattr 0 0 d.

End Recovery.

End RecoveryEngineExt.

(* ===================================================================== *)
(** * daemon/hash_storage.py, the remaining methods *)
(* ===================================================================== *)

Module HashStorageExt.

Import HashStorage.

(** [SELECT 1 FROM files WHERE file_path = ? LIMIT 1]. *)
Definition file_exists (db : database) (file_path : string) : bool :=
  match List.filter (has_path file_path) (files db) with
  | [] => false
  | _ :: _ => true
  end.

(** [ORDER BY file_path], the comparison of the texts byte by byte. *)
Fixpoint insert_by_path (p : string) (l : list string) : list string :=
  match l with
  | [] => [p]
  | q :: l' =>
      if String.leb p q then p :: l else q :: insert_by_path p l'
  end.

Definition order_by_file_path (l : list string) : list string :=
  fold_right insert_by_path [] l.

Definition get_all_files (db : database) : list string :=
  order_by_file_path (map f_file_path (files db)).

(** [SELECT COUNT( * ) FROM files]. *)
Definition get_files_count (db : database) : nat := length (files db).

(** The two uniqueness constraints of table [files]: [file_path UNIQUE]
    and the primary key [id]. *)
Definition well_formed (db : database) : Prop :=
  NoDup (map f_file_path (files db)) /\ NoDup (map f_id (files db)).

(** Every record the store returns has as many hashes as it says. *)
Definition consistent (db : database) : Prop :=
  forall path r,
    get_file db path = Some r ->
    blocks_count r = Z.of_nat (length (block_hashes r)).

End HashStorageExt.

(* ===================================================================== *)
(** * daemon/auth.py, the remaining methods *)
(* ===================================================================== *)

Module AuthManagerExt.

Import AuthManager.

Definition is_monitor_mode (m : manager) (now : Z) : bool * manager :=
  let '(mode, m) := get_current_mode m now in
  (bool_decide (mode = MONITOR), m).

Definition is_update_mode (m : manager) (now : Z) : bool * manager :=
  let '(mode, m) := get_current_mode m now in
  (bool_decide (mode = UPDATE), m).

Definition is_init_mode (m : manager) (now : Z) : bool * manager :=
  let '(mode, m) := get_current_mode m now in
  (bool_decide (mode = INIT), m).

Definition is_emergency_mode (m : manager) (now : Z) : bool * manager :=
  let '(mode, m) := get_current_mode m now in
  (bool_decide (mode = EMERGENCY), m).

(** [int(x)] of a float: the integer towards zero. *)
Definition truncate_float (x : R) : Z :=
  if Rle_dec 0 x then Int_part x else - Int_part (- x).

(** An integer of this magnitude or more is beyond the floats: its
    conversion raises [OverflowError]. *)
Definition float_overflow : Z := 2 ^ 1024 - 2 ^ 970.

Section RemainingTime.

(** The rounding of the machine, as in the detector. *)
Variable round : R -> R.

(** The float of an integer, which [int - float] computes first. *)
Definition float_of_int (z : Z) : res R :=
  if Z.abs z <? float_overflow then Ok (round (IZR z))
  else Raise OverflowError.

(** [timedelta.total_seconds()]: the microseconds divided by [10**6]. *)
Definition total_seconds (delta : Z) : R := round (IZR delta / 1000000).

(** [max(0, int(remaining))] with [remaining = self.mode_timeout -
    elapsed], a float. *)
Definition get_mode_remaining_time (m : manager) (now : Z)
  : res (option Z) :=
  match mode_timeout m, mode_start_time m with
  | Some timeout, Some start =>
      let elapsed := total_seconds (now - start) in
      match float_of_int timeout with
      | Raise ex => Raise ex
      | Ok t =>
          let remaining := round (t - elapsed) in
          Ok (Some (Z.max 0 (truncate_float remaining)))
      end
  | _, _ => Ok None
  end.

End RemainingTime.

Definition set_sessions (m : manager) (s : gmap string session) : manager :=
  {| current_mode := current_mode m;
     mode_start_time := mode_start_time m;
     mode_timeout := mode_timeout m;
     active_sessions := s;
     mode_history := mode_history m;
     emergency_triggered := emergency_triggered m;
     emergency_reason := emergency_reason m |}.

Definition revoke_session (m : manager) (token : string) : bool * manager :=
  match active_sessions m !! token with
  | Some _ => (true, set_sessions m (delete token (active_sessions m)))
  | None => (false, m)
  end.

(** The slice [l[start:]] of Python: a negative [start] counts from the
    end and stops at the first element. *)
Definition slice_from {A} (start : Z) (l : list A) : list A :=
  if start <? 0
  then drop (Z.to_nat (Z.max 0 (Z.of_nat (length l) + start))) l
  else drop (Z.to_nat start) l.

(** [self.mode_history[-limit:]]. *)
Definition get_mode_history (m : manager) (limit : Z) : list mode_record :=
  slice_from (- limit) (mode_history m).

(** The flag [validate_action] returns, and the manager after the mode
    read it starts with. *)
Definition validate_action (m : manager) (euid : Z) (action : string)
    (admin_user : string) (now : Z) : bool * manager :=
  let '(mode, m) := get_current_mode m now in
  if bool_decide (action ∈ ["get_status"; "view_logs"; "get_statistics"])
  then (true, m)
  else
    match mode with
    | MONITOR =>
        (bool_decide
           (action ∈ ["check_integrity"; "list_files"; "get_file_info"]), m)
    | INIT =>
        (bool_decide
           (action ∈ ["add_file"; "create_backup"; "initialize_baseline"]), m)
    | UPDATE =>
        (bool_decide
           (action ∈ ["update_file"; "modify_file"; "update_hashes";
                       "create_backup"]), m)
    | EMERGENCY =>
        if bool_decide
             (action ∈ ["restore_file"; "block_file"; "exit_emergency_mode"])
        then (_verify_admin euid admin_user, m)
        else (false, m)
    end.

(** The tokens whose session has [now > session['expires']] are deleted
    one by one; the number of them is returned. *)
Definition cleanup_expired_sessions (m : manager) (now : Z)
  : nat * manager :=
  let expired :=
    map fst (List.filter (fun p => expires (snd p) <? now)
                         (map_to_list (active_sessions m))) in
  (length expired,
   set_sessions m
     (fold_left (fun s token => delete token s) expired (active_sessions m))).

(** The calls a client of the manager can make, with the instant at which
    each one runs. *)
Inductive request :=
| Transition (c : call)
| Get_current_mode
| Verify_session_token (token : string)
| Revoke_session (token : string)
| Validate_action (action admin_user : string)
| Cleanup_expired_sessions.

Definition serve (euid : Z) (now : Z) (r : request) (m : manager)
  : manager :=
  match r with
  | Transition c => snd (run euid now c m)
  | Get_current_mode => snd (get_current_mode m now)
  | Verify_session_token token => snd (verify_session_token m token now)
  | Revoke_session token => snd (revoke_session m token)
  | Validate_action action u => snd (validate_action m euid action u now)
  | Cleanup_expired_sessions => snd (cleanup_expired_sessions m now)
  end.

(** The manager after a sequence of calls on a new object. *)
Definition serve_all (euid : Z) (requests : list (Z * request)) : manager :=
  fold_left (fun m tr => serve euid (fst tr) (snd tr) m) requests __init__.

(** Session tokens live in Update mode only. *)
Definition sessions_in_update_only (m : manager) : Prop :=
  current_mode m <> UPDATE -> active_sessions m = ∅.

End AuthManagerExt.

(* ===================================================================== *)
(** * Properties *)
(* ===================================================================== *)

(** ** Facts on the common definitions *)

Lemma Rgeb_true (x y : R) : Rgeb x y = true <-> (y <= x)%R.
Proof. unfold Rgeb. destruct (Rle_dec y x); split; intros; (easy || congruence). Qed.


Lemma timedelta_seconds_Ok (s delta : Z) :
  timedelta_seconds s = Ok delta -> delta = s * 1000000.
Proof.
  unfold timedelta_seconds. destruct (_ && _); [|discriminate].
  intros H. injection H as <-. reflexivity.
Qed.

Lemma datetime_add_Ok (t d r : Z) :
  datetime_add t d = Ok r -> r = t + d.
Proof.
  unfold datetime_add. destruct (_ && _); [|discriminate].
  intros H. injection H as <-. reflexivity.
Qed.

(** The date [s] seconds after the date [now], when there is one. *)
Lemma datetime_add_seconds (now s : Z) :
  datetime_min <= now <= datetime_max ->
  match timedelta_seconds s with
  | Raise ex => Raise ex
  | Ok delta => datetime_add now delta
  end
  = if (datetime_min <=? now + s * 1000000)
       && (now + s * 1000000 <=? datetime_max)
    then Ok (now + s * 1000000)
    else Raise OverflowError.
Proof.
  unfold timedelta_seconds, datetime_add, datetime_min, datetime_max.
  intros Hnow.
  destruct ((-999999999 <=? s / 86400) && (s / 86400 <=? 999999999)) eqn:Hd;
    [reflexivity|].
  destruct ((0 <=? now + s * 1000000)
            && (now + s * 1000000 <=? 315537897599999999)) eqn:Hs;
    [|reflexivity].
  exfalso.
  apply andb_true_iff in Hs as [Hs1 Hs2].
  apply Z.leb_le in Hs1, Hs2.
  apply andb_false_iff in Hd as [Hd | Hd]; apply Z.leb_gt in Hd.
  - assert (-999999999 <= s / 86400); [|lia].
    apply Z.div_le_lower_bound; lia.
  - assert (s / 86400 <= 999999999); [|lia].
    apply Z.div_le_upper_bound; lia.
Qed.

Section IntegrityFacts.
Import IntegrityEngine.

Variable sha256 : bytes -> string.
Variable acc : access.




Lemma classify_not_trivial e p h :
  _classify_change e p h <> NO_CHANGE /\ _classify_change e p h <> ALLOWED_CHANGE.
Proof.
  unfold _classify_change.
  destruct (Rgeb p _), (Rgeb h _); simpl; split; discriminate.
Qed.



(** Claim C9.  When [check_integrity] finds zero changed blocks, or runs
    with the Update-mode flag set, the result carries entropy 0 and the
    modification history is left as it is; a check that finds changed
    blocks outside Update mode carries the computed entropy and appends
    exactly its own event to the history. *)
Theorem check_integrity_history
    (e : engine) (fs : filesystem) (path : string)
    (reference : list string) (upd : bool) (now : Z) :
  match check_integrity sha256 acc e fs path reference upd now with
  | (Raise _, e') => modification_history e' = modification_history e
  | (Ok r, e') =>
      if Nat.eqb (blocks_changed r) 0 || upd
      then entropy r = 0%R /\
           modification_history e' = modification_history e
      else entropy r = calculate_entropy acc fs path default_sample_size /\
           modification_history e' =
             deque_append history_maxlen (modification_history e)
               {| ev_file_path := path; ev_timestamp := now;
                  ev_blocks_changed := blocks_changed r;
                  ev_blocks_total := blocks_total r;
                  ev_change_percent := change_percent r;
                  ev_entropy := entropy r |}
  end.
Proof.
  unfold check_integrity.
  destruct (compute_file_hashes sha256 acc e fs path) as [[cur size]|ex].
  - destruct (compare_hashes cur reference) as [changed pct].
    destruct (Nat.eqb (length changed) 0) eqn:Hz.
    + simpl. split; reflexivity.
    + destruct upd.
      * cbn [blocks_changed entropy]. rewrite Hz. simpl. split; reflexivity.
      * cbn -[calculate_entropy _classify_change deque_append].
        rewrite Hz. simpl orb. cbv iota. split; reflexivity.
  - destruct ex; simpl; try reflexivity. split; reflexivity.
Qed.

End IntegrityFacts.


Section ChunkingFacts.
Import IntegrityEngine.

Lemma file_read_nil (bs : Z) : file_read bs [] = [].
Proof. unfold file_read. destruct (bs <? 0); [reflexivity | apply take_nil]. Qed.

Lemma length_file_read (n : Z) (rest : bytes) :
  (length (file_read n rest) <= length rest)%nat.
Proof.
  unfold file_read. destruct (n <? 0); [lia|]. rewrite length_take. lia.
Qed.

Lemma file_read_prefix (bs : Z) (rest : bytes) :
  file_read bs rest ++ drop (length (file_read bs rest)) rest = rest.
Proof.
  unfold file_read. destruct (bs <? 0).
  - rewrite drop_all, app_nil_r. reflexivity.
  - rewrite length_take.
    destruct (Nat.le_ge_cases (Z.to_nat bs) (length rest)) as [Hle | Hge].
    + rewrite Nat.min_l by exact Hle. apply take_drop.
    + rewrite Nat.min_r by exact Hge. rewrite take_ge by exact Hge.
      rewrite drop_all, app_nil_r. reflexivity.
Qed.

(** The fuel [file_blocks] gives the loop is never used up: any larger
    amount reads the same blocks. *)
Lemma read_blocks_fuel (bs : Z) (fuel1 : nat) :
  forall (fuel2 : nat) (rest : bytes),
  (length rest < fuel1)%nat -> (length rest < fuel2)%nat ->
  read_blocks fuel1 bs rest = read_blocks fuel2 bs rest.
Proof.
  induction fuel1 as [|fuel1 IH]; intros fuel2 rest H1 H2; [lia|].
  destruct fuel2 as [|fuel2]; [lia|]. simpl.
  destruct (file_read bs rest) as [|b block] eqn:Hread; [reflexivity|].
  pose proof (length_file_read bs rest) as Hlen. rewrite Hread in Hlen.
  simpl in Hlen.
  f_equal. apply IH; rewrite length_drop; simpl; lia.
Qed.

(** With a block size other than zero the blocks are the file, cut. *)
Lemma file_blocks_concat (bs : Z) (data : bytes) :
  bs <> 0 -> concat (file_blocks bs data) = data.
Proof.
  intros Hbs. unfold file_blocks.
  remember (S (length data)) as fuel eqn:Hfuel.
  assert (Hlt : (length data < fuel)%nat) by lia. clear Hfuel.
  revert data Hlt. induction fuel as [|fuel IH]; intros data Hlt; [lia|].
  simpl. destruct (file_read bs data) as [|b block] eqn:Hread.
  - simpl. unfold file_read in Hread. destruct (bs <? 0) eqn:Hneg.
    + symmetry. exact Hread.
    + apply Z.ltb_ge in Hneg. destruct data as [|x data]; [reflexivity|].
      destruct (Z.to_nat bs) eqn:Hn; [lia | discriminate].
  - pose proof (length_file_read bs data) as Hlen. rewrite Hread in Hlen.
    simpl in Hlen.
    cbn [concat]. rewrite IH by (rewrite length_drop; simpl; lia).
    pose proof (file_read_prefix bs data) as Hp. rewrite Hread in Hp.
    exact Hp.
Qed.

Lemma file_blocks_bounded (bs : Z) (data : bytes) :
  0 < bs ->
  Forall (fun block => (0 < length block <= Z.to_nat bs)%nat)
         (file_blocks bs data).
Proof.
  intros Hbs. unfold file_blocks.
  generalize (S (length data)) as fuel. intros fuel. revert data.
  induction fuel as [|fuel IH]; intros data; simpl; [constructor|].
  destruct (file_read bs data) as [|b block] eqn:Hread; [constructor|].
  constructor; [|apply IH].
  rewrite <- Hread. unfold file_read in *.
  destruct (bs <? 0) eqn:Hneg; [apply Z.ltb_lt in Hneg; lia|].
  rewrite length_take. split; [|lia].
  rewrite <- length_take, Hread. simpl. lia.
Qed.

(** Entry [b] of the table of counts is the number of occurrences of
    byte [b] in the data. *)
Lemma byte_counts_from_lookup (data : bytes) (b : byte) :
  forall (counts : list nat) (c : nat),
  counts !! Byte.to_nat b = Some c ->
  fold_left count_byte data counts !! Byte.to_nat b
  = Some (c + count_occ Byte.byte_eq_dec data b)%nat.
Proof.
  induction data as [|x data IH]; intros counts c Hc; simpl.
  - rewrite Hc. f_equal. lia.
  - destruct (Byte.byte_eq_dec x b) as [->|Hne].
    + rewrite (IH _ (S c)).
      * f_equal. lia.
      * unfold count_byte. rewrite list_lookup_alter_eq, Hc. reflexivity.
    + apply IH. unfold count_byte.
      rewrite list_lookup_alter_ne; [exact Hc|].
      intros Heq. apply Hne.
      pose proof (Byte.of_to_nat x) as Hx. rewrite Heq in Hx.
      rewrite Byte.of_to_nat in Hx. congruence.
Qed.

Lemma byte_counts_lookup (data : bytes) (b : byte) :
  byte_counts data !! Byte.to_nat b
  = Some (count_occ Byte.byte_eq_dec data b).
Proof.
  unfold byte_counts.
  rewrite (byte_counts_from_lookup data b _ 0%nat); [reflexivity|].
  apply lookup_replicate_2. pose proof (Byte.to_nat_bounded b). lia.
Qed.

End ChunkingFacts.

Section EntropyFacts.
Import IntegrityEngine.

Lemma ln_le_minus_1 (y : R) : (0 < y)%R -> (ln y <= y - 1)%R.
Proof.
  intros Hy. pose proof (exp_ineq1_le (ln y)) as H.
  rewrite exp_ln in H by exact Hy. lra.
Qed.

Lemma ln_2_pos : (0 < ln 2)%R.
Proof. pose proof ln_lt_2. lra. Qed.

Lemma ln_256 : ln 256 = (8 * ln 2)%R.
Proof.
  replace 256%R with (2 ^ 8)%R by (simpl; lra).
  rewrite ln_pow by lra. simpl. lra.
Qed.

(** *** The table of byte counts *)

Lemma length_byte_counts_from (data : bytes) (counts : list nat) :
  length (fold_left count_byte data counts) = length counts.
Proof.
  revert counts. induction data as [|b data IH]; intros counts; simpl.
  - reflexivity.
  - rewrite IH. apply length_alter.
Qed.

Lemma length_byte_counts (data : bytes) : length (byte_counts data) = 256%nat.
Proof. unfold byte_counts. rewrite length_byte_counts_from. reflexivity. Qed.

Lemma sum_list_alter_S (l : list nat) (i : nat) :
  (i < length l)%nat -> sum_list (alter S i l) = S (sum_list l).
Proof.
  revert i. induction l as [|x l IH]; intros i Hi; simpl in Hi.
  - lia.
  - destruct i as [|i].
    + reflexivity.
    + change (alter S (S i) (x :: l)) with (x :: alter S i l).
      cbn [sum_list sum_list_with]. rewrite IH by lia. lia.
Qed.

Lemma sum_byte_counts_from (data : bytes) (counts : list nat) :
  length counts = 256%nat ->
  sum_list (fold_left count_byte data counts)
  = (sum_list counts + length data)%nat.
Proof.
  revert counts. induction data as [|b data IH]; intros counts Hlen; simpl.
  - lia.
  - rewrite IH by (unfold count_byte; rewrite length_alter; exact Hlen).
    unfold count_byte. rewrite sum_list_alter_S; [lia|].
    pose proof (Byte.to_nat_bounded b). lia.
Qed.

Lemma sum_byte_counts (data : bytes) :
  sum_list (byte_counts data) = length data.
Proof.
  unfold byte_counts. rewrite sum_byte_counts_from by reflexivity.
  rewrite sum_list_replicate. lia.
Qed.

Lemma Forall_le_sum_list (l : list nat) :
  Forall (fun c => (c <= sum_list l)%nat) l.
Proof.
  induction l as [|x l IH]; simpl; constructor.
  - lia.
  - eapply Forall_impl; [exact IH|]. simpl. intros; lia.
Qed.

(** *** One round of the entropy loop *)

Lemma entropy_step_lower (n c : nat) (a : R) :
  (0 < n)%nat -> (c <= n)%nat -> (a <= entropy_step n a c)%R.
Proof.
  intros Hn Hc. unfold entropy_step.
  destruct (0 <? c)%nat eqn:Hpos; [|lra].
  apply Nat.ltb_lt in Hpos. cbv zeta.
  assert (Hn' : (0 < INR n)%R) by (apply lt_0_INR; exact Hn).
  assert (Hc' : (0 < INR c)%R) by (apply lt_0_INR; exact Hpos).
  assert (Hcn : (INR c <= INR n)%R) by (apply le_INR; exact Hc).
  set (p := (INR c / INR n)%R).
  assert (Hp : (0 < p)%R) by (apply Rdiv_lt_0_compat; assumption).
  assert (Hp1 : (p <= 1)%R).
  { unfold p, Rdiv. apply Rmult_le_reg_r with (INR n); [lra|].
    rewrite Rmult_assoc, Rinv_l by lra. lra. }
  pose proof (ln_le_minus_1 p Hp) as Hln.
  pose proof ln_2_pos as H2.
  unfold log2.
  assert (Hq : (ln p / ln 2 <= 0)%R).
  { assert (0 < / ln 2)%R by (apply Rinv_0_lt_compat; lra).
    unfold Rdiv. nra. }
  nra.
Qed.

Lemma entropy_step_upper (n c : nat) (a M : R) :
  (0 < n)%nat -> (0 < M)%R ->
  (entropy_step n a c * ln 2
   <= a * ln 2 + INR c / INR n * ln M + / M - INR c / INR n)%R.
Proof.
  intros Hn HM. unfold entropy_step.
  assert (Hn' : (0 < INR n)%R) by (apply lt_0_INR; exact Hn).
  assert (HiM : (0 < / M)%R) by (apply Rinv_0_lt_compat; exact HM).
  pose proof ln_2_pos as H2.
  destruct (0 <? c)%nat eqn:Hpos.
  - apply Nat.ltb_lt in Hpos. cbv zeta.
    assert (Hc' : (0 < INR c)%R) by (apply lt_0_INR; exact Hpos).
    set (p := (INR c / INR n)%R).
    assert (Hp : (0 < p)%R) by (apply Rdiv_lt_0_compat; assumption).
    assert (HpM : (0 < p * M)%R) by (apply Rmult_lt_0_compat; assumption).
    pose proof (ln_le_minus_1 (/ (p * M))
                  (Rinv_0_lt_compat _ HpM)) as Hk.
    rewrite ln_Rinv, ln_mult in Hk by assumption.
    assert (Hk2 : (p * (- (ln p + ln M)) <= p * (/ (p * M) - 1))%R).
    { apply Rmult_le_compat_l; lra. }
    replace (p * (/ (p * M) - 1))%R with (/ M - p)%R in Hk2
      by (field; lra).
    unfold log2.
    replace ((a - p * (ln p / ln 2)) * ln 2)%R with (a * ln 2 - p * ln p)%R
      by (field; lra).
    lra.
  - apply Nat.ltb_ge in Hpos. assert (c = 0%nat) as -> by lia.
    simpl. unfold Rdiv. rewrite !Rmult_0_l. lra.
Qed.

Lemma entropy_fold_lower (n : nat) (l : list nat) (a : R) :
  (0 < n)%nat -> Forall (fun c => (c <= n)%nat) l ->
  (a <= fold_left (entropy_step n) l a)%R.
Proof.
  intros Hn. revert a. induction l as [|c l IH]; intros a Hl; simpl.
  - lra.
  - inversion Hl as [|? ? Hc Hl']; subst.
    eapply Rle_trans; [apply (entropy_step_lower n c a Hn Hc)|].
    apply IH. exact Hl'.
Qed.

Lemma entropy_fold_upper (n : nat) (l : list nat) (a M : R) :
  (0 < n)%nat -> (0 < M)%R ->
  (fold_left (entropy_step n) l a * ln 2
   <= a * ln 2 + INR (sum_list l) / INR n * ln M
      + INR (length l) * / M - INR (sum_list l) / INR n)%R.
Proof.
  intros Hn HM. revert a. induction l as [|c l IH]; intros a.
  - simpl. unfold Rdiv. rewrite !Rmult_0_l. lra.
  - cbn [fold_left sum_list sum_list_with length].
    eapply Rle_trans; [apply IH|].
    pose proof (entropy_step_upper n c a M Hn HM) as Hs.
    rewrite plus_INR, S_INR.
    unfold Rdiv, Datatypes.id in *. lra.
Qed.

Lemma shannon_range (data : bytes) :
  data <> [] -> (0 <= shannon data <= 8)%R.
Proof.
  intros Hne. unfold shannon.
  assert (Hn : (0 < length data)%nat) by (destruct data; simpl; [congruence|lia]).
  split.
  - apply entropy_fold_lower; [exact Hn|].
    pose proof (Forall_le_sum_list (byte_counts data)) as H.
    rewrite sum_byte_counts in H. exact H.
  - pose proof (entropy_fold_upper (length data) (byte_counts data) 0 256 Hn
                  ltac:(lra)) as H.
    rewrite sum_byte_counts, length_byte_counts, ln_256 in H.
    assert (Hn' : (0 < INR (length data))%R) by (apply lt_0_INR; exact Hn).
    replace (INR (length data) / INR (length data))%R with 1%R in H
      by (field; lra).
    replace (INR 256) with 256%R in H by (simpl; lra).
    pose proof ln_2_pos. nra.
Qed.

Variable acc : access.

(** Claim C8.  For every file, [calculate_entropy] returns a value
    between 0 and 8; a missing, empty or unreadable file yields exactly 0;
    for a readable non-empty file it is the Shannon entropy, base 2, of
    the byte frequencies of the first 1 MiB. *)
Theorem calculate_entropy_range (fs : filesystem) (path : string)
    (sample_size : Z) :
  (0 <= calculate_entropy acc fs path sample_size <= 8)%R /\
  (fs !! path = None -> calculate_entropy acc fs path sample_size = 0%R) /\
  (forall f, fs !! path = Some (Regular f) ->
     i_data f = [] \/ may_read acc (i_mode f) = false ->
     calculate_entropy acc fs path sample_size = 0%R) /\
  (forall f, fs !! path = Some (Regular f) ->
     i_data f <> [] -> may_read acc (i_mode f) = true ->
     calculate_entropy acc fs path default_sample_size
     = shannon (take (Z.to_nat default_sample_size) (i_data f))).
Proof.
  unfold calculate_entropy. repeat split.
  - destruct (fs !! path) as [[|f]|]; try lra.
    + destruct (_ =? 0); lra.
    + destruct (_ =? 0); [lra|]. destruct (may_read _ _); [|lra].
      destruct (read_allowed _); [|lra].
      destruct (file_read _ _) eqn:Hd; [lra|].
      apply shannon_range. congruence.
  - destruct (fs !! path) as [[|f]|]; try lra.
    + destruct (_ =? 0); lra.
    + destruct (_ =? 0); [lra|]. destruct (may_read _ _); [|lra].
      destruct (read_allowed _); [|lra].
      destruct (file_read _ _) eqn:Hd; [lra|].
      apply shannon_range. congruence.
  - intros ->. reflexivity.
  - intros f -> [Hd | Hr].
    + destruct (_ =? 0); [reflexivity|].
      destruct (may_read _ _); [|reflexivity].
      destruct (read_allowed _); [|reflexivity].
      rewrite Hd. unfold file_read.
      destruct (_ <? 0); [reflexivity|]. rewrite take_nil. reflexivity.
    + destruct (_ =? 0); [reflexivity|]. rewrite Hr. reflexivity.
  - intros f -> Hne Hr. cbn [getsize].
    set (n := Z.of_nat (length (i_data f))).
    assert (Hn : 0 < n).
    { subst n. destruct (i_data f); [congruence | cbn [length]; lia]. }
    destruct (Z.min default_sample_size n =? 0) eqn:Hz.
    { apply Z.eqb_eq in Hz. unfold default_sample_size in Hz. lia. }
    rewrite Hr. unfold read_allowed.
    rewrite (proj2 (Z.leb_le _ _)) by (unfold default_sample_size; lia).
    unfold file_read.
    destruct (Z.min default_sample_size n <? 0) eqn:Hneg.
    { apply Z.ltb_lt in Hneg. unfold default_sample_size in Hneg. lia. }
    assert (Heq : take (Z.to_nat (Z.min default_sample_size n)) (i_data f)
                  = take (Z.to_nat default_sample_size) (i_data f)).
    { destruct (Z.le_ge_cases default_sample_size n) as [Hle | Hge].
      - rewrite Z.min_l by lia. reflexivity.
      - rewrite Z.min_r by lia. rewrite !take_ge; [reflexivity | |];
          subst n; lia. }
    cbv zeta. rewrite Heq.
    destruct (take (Z.to_nat default_sample_size) (i_data f)) eqn:Ht;
      [|reflexivity].
    apply (f_equal length) in Ht. rewrite length_take in Ht.
    cbn [length] in Ht. unfold default_sample_size in Ht. lia.
Qed.

End EntropyFacts.

Section DetectorFacts.
Import IntegrityEngine.

Variable round : R -> R.
Variable float_sum : list R -> R.

(** The start of a window of [w] seconds that ends at the date [now]:
    the date [now - w] when there is one, [OverflowError] otherwise. *)
Lemma window_start (now w : Z) :
  datetime_min <= now <= datetime_max ->
  match timedelta_seconds w with
  | Raise ex => Raise ex
  | Ok delta => datetime_sub now delta
  end
  = if (datetime_min <=? now - w * 1000000)
       && (now - w * 1000000 <=? datetime_max)
    then Ok (now - w * 1000000)
    else Raise OverflowError.
Proof.
  unfold timedelta_seconds, datetime_sub, datetime_add, datetime_min,
    datetime_max.
  intros Hnow.
  replace (now + - (w * 1000000)) with (now - w * 1000000) by lia.
  destruct ((-999999999 <=? w / 86400) && (w / 86400 <=? 999999999)) eqn:Hd;
    [reflexivity|].
  destruct ((0 <=? now - w * 1000000)
            && (now - w * 1000000 <=? 315537897599999999)) eqn:Hs;
    [|reflexivity].
  exfalso.
  apply andb_true_iff in Hs as [Hs1 Hs2].
  apply Z.leb_le in Hs1, Hs2.
  apply andb_false_iff in Hd as [Hd | Hd]; apply Z.leb_gt in Hd.
  - assert (-999999999 <= w / 86400); [|lia].
    apply Z.div_le_lower_bound; lia.
  - assert (w / 86400 <= 999999999); [|lia].
    apply Z.div_le_upper_bound; lia.
Qed.

(** Claim C2, as amended.  For every query at a date [now] whose window
    starts at a date, [detect_ransomware_pattern] reports positive if and
    only if, over the recorded events whose timestamp lies within the
    window, (1) their count reaches the [files_count] threshold, (2)
    their mean [change_percent], as the machine computes it, reaches the
    block-change threshold, and (3) the number of events that reach both
    the block-change and the entropy threshold is at least 0.7 times that
    count, as the machine computes it.  A query whose window does not
    start at a date raises [OverflowError]. *)
Theorem detect_ransomware_pattern_iff (e : engine) (tw : option Z) (now : Z) :
  let th := ransomware_thresholds e in
  let w := match tw with
           | Some w => w
           | None => time_window th
           end in
  let start := now - w * 1000000 in
  let window :=
    List.filter (fun ev => start <=? ev_timestamp ev)
                (modification_history e) in
  let count := length window in
  let critical :=
    length
      (List.filter
         (fun ev =>
            (if Rle_dec (block_change_percent th) (ev_change_percent ev)
             then true else false)
            && (if Rle_dec (entropy_threshold th) (ev_entropy ev)
                then true else false))
         window) in
  datetime_min <= now <= datetime_max ->
  ((exists d,
      detect_ransomware_pattern round float_sum e tw now = Ok (true, d)) <->
   datetime_min <= start <= datetime_max /\
   files_count th <= Z.of_nat count /\
   (0 < count)%nat /\
   (block_change_percent th
      <= round (float_sum (map ev_change_percent window)
                / round (INR count)))%R /\
   (round (round (INR count) * round (7 / 10)) <= INR critical)%R) /\
  (~ datetime_min <= start <= datetime_max ->
   detect_ransomware_pattern round float_sum e tw now = Raise OverflowError).
Proof.
  intros th w start window count critical Hnow.
  unfold detect_ransomware_pattern. fold th.
  change (match tw with
          | Some w0 => w0
          | None => time_window th
          end) with w.
  pose proof (window_start now w Hnow) as Hstart. fold start in Hstart.
  destruct (timedelta_seconds w) as [delta|ex] eqn:Hdelta.
  - destruct (datetime_sub now delta) as [t|ex] eqn:Hsub.
    + destruct ((datetime_min <=? start) && (start <=? datetime_max)) eqn:Hrange;
        [|discriminate].
      injection Hstart as ->.
      apply andb_true_iff in Hrange as [Hr1 Hr2].
      apply Z.leb_le in Hr1, Hr2.
      split; [|intros Hno; exfalso; apply Hno; split; assumption].
      unfold events_since. fold window. fold count.
      assert (Hcrit : List.filter (is_critical th) window
                      = List.filter
                          (fun ev =>
                             (if Rle_dec (block_change_percent th)
                                         (ev_change_percent ev)
                              then true else false)
                             && (if Rle_dec (entropy_threshold th)
                                            (ev_entropy ev)
                                 then true else false))
                          window) by reflexivity.
      rewrite Hcrit. fold critical. unfold average.
      destruct (Z.of_nat count <? files_count th) eqn:Hcnt.
      * apply Z.ltb_lt in Hcnt. split.
        -- intros [d Hd]. discriminate.
        -- intros (_ & Hge & _). lia.
      * apply Z.ltb_ge in Hcnt.
        destruct (Nat.eqb count 0) eqn:Hz.
        -- apply Nat.eqb_eq in Hz. split.
           ++ intros [d Hd]. discriminate.
           ++ intros (_ & _ & Hpos & _). lia.
        -- apply Nat.eqb_neq in Hz. split.
           ++ intros [d Hd]. injection Hd as Hd _.
              rewrite !andb_true_iff, Z.leb_le, !Rgeb_true in Hd.
              destruct Hd as [[H1 H2] H3].
              repeat split; try assumption. lia.
           ++ intros (_ & H1 & _ & H2 & H3).
              eexists. f_equal. f_equal.
              rewrite !andb_true_iff, Z.leb_le, !Rgeb_true.
              repeat split; assumption.
    + destruct ((datetime_min <=? start) && (start <=? datetime_max)) eqn:Hrange;
        [discriminate|].
      injection Hstart as ->.
      apply andb_false_iff in Hrange.
      split; [|reflexivity]. split.
      * intros [d Hd]. discriminate.
      * intros ([Hr1 Hr2] & _). exfalso.
        destruct Hrange as [H | H]; apply Z.leb_gt in H; lia.
  - destruct ((datetime_min <=? start) && (start <=? datetime_max)) eqn:Hrange;
      [discriminate|].
    injection Hstart as ->.
    apply andb_false_iff in Hrange.
    split; [|reflexivity]. split.
    * intros [d Hd]. discriminate.
    * intros ([Hr1 Hr2] & _). exfalso.
      destruct Hrange as [H | H]; apply Z.leb_gt in H; lia.
Qed.

End DetectorFacts.

Section RecoveryFacts.
Import RecoveryEngine.

Variable acc : access.

(** *** [chmod], lock and unlock leave every content as it is *)

Lemma content_insert_same_data (fs : filesystem) (p q : string) (f : inode)
    (mode : Z) :
  fs !! p = Some (Regular f) ->
  content (<[p := Regular (Inode (i_data f) mode)]> fs) q = content fs q.
Proof.
  intros Hp. unfold content. destruct (decide (p = q)) as [->|Hne].
  - rewrite lookup_insert_eq, Hp. reflexivity.
  - rewrite lookup_insert_ne by exact Hne. reflexivity.
Qed.

Lemma chmod_content (p : string) (mode : Z) (fs fs' : filesystem)
    (r : res unit) :
  chmod acc p mode fs = (r, fs') -> forall q, content fs' q = content fs q.
Proof.
  unfold chmod. intros H q.
  destruct (fs !! p) as [[|f]|] eqn:Hp.
  - destruct (may_chmod acc); injection H as <- <-; reflexivity.
  - destruct (may_chmod acc); injection H as <- <-; [|reflexivity].
    apply content_insert_same_data. exact Hp.
  - injection H as <- <-. reflexivity.
Qed.

Lemma lock_file_content (p : string) (fs : filesystem) :
  exists fs', _lock_file acc p fs = (Ok tt, fs') /\
              forall q, content fs' q = content fs q.
Proof.
  unfold _lock_file, try_pass. eexists. split; [reflexivity|].
  intros q. unfold mbind, io_bind, bind, exists_, st_mode. cbn [fst snd].
  destruct (bool_decide _); [|reflexivity].
  destruct (fs !! p) as [[|f]|] eqn:Hp; try reflexivity.
  - destruct (chmod acc p _ fs) as [r fs'] eqn:Hc. simpl.
    eapply chmod_content. exact Hc.
  - destruct (chmod acc p _ fs) as [r fs'] eqn:Hc. simpl.
    eapply chmod_content. exact Hc.
Qed.

Lemma unlock_file_content (p : string) (fs : filesystem) :
  exists fs', _unlock_file acc p fs = (Ok tt, fs') /\
              forall q, content fs' q = content fs q.
Proof.
  unfold _unlock_file, try_pass. eexists. split; [reflexivity|].
  intros q. unfold mbind, io_bind, bind, exists_, st_mode. cbn [fst snd].
  destruct (bool_decide _); [|reflexivity].
  destruct (fs !! p) as [[|f]|] eqn:Hp; try reflexivity.
  - destruct (chmod acc p _ fs) as [r fs'] eqn:Hc. simpl.
    eapply chmod_content. exact Hc.
  - destruct (chmod acc p _ fs) as [r fs'] eqn:Hc. simpl.
    eapply chmod_content. exact Hc.
Qed.

Lemma content_regular (fs : filesystem) (p : string) (d : bytes) :
  content fs p = Some (Some d) <->
  exists f, fs !! p = Some (Regular f) /\ i_data f = d.
Proof.
  unfold content. destruct (fs !! p) as [[|f]|]; simpl; split.
  - discriminate.
  - intros (f & Hf & _). discriminate.
  - intros H. injection H as <-. eauto.
  - intros (f' & Hf & <-). injection Hf as <-. reflexivity.
  - discriminate.
  - intros (f & Hf & _). discriminate.
Qed.

Lemma content_none (fs : filesystem) (p : string) :
  content fs p = None <-> fs !! p = None.
Proof. unfold content. destruct (fs !! p); simpl; split; congruence. Qed.

(** *** [sorted] *)

Lemma In_insert_sorted (i j : Z) (l : list Z) :
  In j (insert_sorted i l) <-> j = i \/ In j l.
Proof.
  induction l as [|k l IH]; simpl.
  - intuition.
  - destruct (i <=? k); simpl; rewrite ?IH; intuition.
Qed.

Lemma In_sorted (j : Z) (l : list Z) : In j (sorted l) <-> In j l.
Proof.
  unfold sorted. induction l as [|i l IH]; simpl.
  - reflexivity.
  - rewrite In_insert_sorted, IH. intuition.
Qed.

(** *** Writing a block of the backup into the target *)

Lemma file_read_lookup (n : Z) (rest : bytes) (k : nat) :
  (k < length (file_read n rest))%nat ->
  file_read n rest !! k = rest !! k.
Proof.
  unfold file_read. destruct (n <? 0); [reflexivity|].
  rewrite length_take. intros Hk. apply lookup_take_lt. lia.
Qed.

Lemma write_at_inside (off : nat) (block target : bytes) (o : nat) :
  (off <= o < off + length block)%nat ->
  write_at off block target !! o = block !! (o - off)%nat.
Proof.
  intros Ho. unfold write_at.
  assert (Hlen : length (take off target ++ replicate (off - length target) zero)
                 = off).
  { rewrite length_app, length_take, length_replicate. lia. }
  rewrite app_assoc, lookup_app_r by lia.
  rewrite Hlen. apply lookup_app_l. lia.
Qed.

Lemma write_at_outside (off : nat) (block target : bytes) (o : nat) :
  (o < off \/ off + length block <= o)%nat ->
  (o < length target)%nat ->
  write_at off block target !! o = target !! o.
Proof.
  intros Ho Hlt. unfold write_at.
  destruct Ho as [Ho | Ho].
  - rewrite lookup_app_l by (rewrite length_take; lia).
    apply lookup_take_lt. exact Ho.
  - assert (Hlen : length (take off target
                           ++ replicate (off - length target) zero) = off).
    { rewrite length_app, length_take, length_replicate. lia. }
    rewrite app_assoc, lookup_app_r by lia. rewrite Hlen.
    rewrite lookup_app_r by lia.
    rewrite lookup_drop. f_equal. lia.
Qed.

(** A position where the target agrees with the backup still agrees after
    a block of the backup has been written at its own offset. *)
Lemma write_at_agree (bs : Z) (off : nat) (backup target : bytes) (o : nat) :
  (o < length backup)%nat ->
  target !! o = backup !! o ->
  write_at off (file_read bs (drop off backup)) target !! o = backup !! o.
Proof.
  intros Ho Hag.
  set (block := file_read bs (drop off backup)).
  assert (Hot : (o < length target)%nat).
  { apply lookup_lt_is_Some. rewrite Hag. apply lookup_lt_is_Some. exact Ho. }
  destruct (decide (off <= o < off + length block)%nat) as [Hin | Hout].
  - rewrite write_at_inside by exact Hin.
    unfold block. rewrite file_read_lookup by (fold block; lia).
    rewrite lookup_drop. f_equal. lia.
  - rewrite write_at_outside by lia. exact Hag.
Qed.

Lemma write_at_block (bs : Z) (off : nat) (backup target : bytes) (o : nat) :
  (off <= o < off + length (file_read bs (drop off backup)))%nat ->
  write_at off (file_read bs (drop off backup)) target !! o = backup !! o.
Proof.
  intros Hin. rewrite write_at_inside by exact Hin.
  rewrite file_read_lookup by lia.
  rewrite lookup_drop. f_equal. lia.
Qed.

(** What a [read] of at most [bs] bytes does not return lies beyond the
    end of the file. *)
Lemma file_read_short (bs : Z) (off : nat) (backup : bytes) (o : nat) :
  (off <= o)%nat -> Z.of_nat o < Z.of_nat off + bs ->
  (off + length (file_read bs (drop off backup)) <= o)%nat ->
  (length backup <= o)%nat.
Proof.
  unfold file_read. intros H1 H2 H3.
  destruct (bs <? 0) eqn:Hneg.
  - apply Z.ltb_lt in Hneg. lia.
  - apply Z.ltb_ge in Hneg.
    rewrite length_take, length_drop in H3. lia.
Qed.

Lemma restore_loop_spec (bs : Z) (backup : bytes) (idxs : list Z) :
  forall (target : bytes) (cnt : nat) (data : bytes) (cnt' : nat),
  restore_loop bs backup idxs target cnt = (Ok cnt', data) ->
  (forall o, (o < length backup)%nat ->
             target !! o = backup !! o -> data !! o = backup !! o) /\
  (forall i o, In i idxs -> i * bs <= Z.of_nat o < (i + 1) * bs ->
               (o < length backup)%nat -> data !! o = backup !! o).
Proof.
  induction idxs as [|i idxs IH]; intros target cnt data cnt' H; simpl in H.
  - injection H as <- <-. split; [auto | intros ? ? []].
  - destruct (i * bs <? 0) eqn:Hneg; [discriminate|].
    apply Z.ltb_ge in Hneg.
    destruct (negb (read_allowed bs)); [discriminate|].
    set (off := Z.to_nat (i * bs)) in *.
    destruct (file_read bs (drop off backup)) as [|b block] eqn:Hblock.
    + destruct (IH _ _ _ _ H) as [Hkeep Hidx]. split; [exact Hkeep|].
      intros j o [<- | Hj] Hrange Ho; [|eauto].
      exfalso.
      pose proof (file_read_short bs off backup o) as Hs.
      rewrite Hblock in Hs. simpl in Hs. lia.
    + rewrite <- Hblock in H.
      destruct (IH _ _ _ _ H) as [Hkeep Hidx]. split.
      * intros o Ho Hag. apply Hkeep; [exact Ho|].
        apply write_at_agree; assumption.
      * intros j o [<- | Hj] Hrange Ho; [|eauto].
        apply Hkeep; [exact Ho|].
        apply write_at_block. split; [lia|].
        destruct (decide (o < off + length (file_read bs (drop off backup)))%nat)
          as [Hlt | Hge]; [exact Hlt|].
        pose proof (file_read_short bs off backup o) as Hs. lia.
Qed.

Lemma length_truncate (size : nat) (target : bytes) :
  length (truncate size target) = size.
Proof.
  unfold truncate. rewrite length_app, length_take, length_replicate. lia.
Qed.

Lemma truncate_lookup (size : nat) (target : bytes) (o : nat) :
  (o < size)%nat -> (o < length target)%nat ->
  truncate size target !! o = target !! o.
Proof.
  intros H1 H2. unfold truncate.
  rewrite lookup_app_l by (rewrite length_take; lia).
  apply lookup_take_lt. exact H1.
Qed.


Lemma content_insert (fs : filesystem) (p q : string) (f : inode) :
  content (<[p := Regular f]> fs) q
  = if decide (p = q) then Some (Some (i_data f)) else content fs q.
Proof.
  unfold content. destruct (decide (p = q)) as [->|Hne].
  - rewrite lookup_insert_eq. reflexivity.
  - rewrite lookup_insert_ne by exact Hne. reflexivity.
Qed.

(** The block restore of an existing regular target, step by step. *)
Lemma restore_blocks_existing (e : engine) (target backup : string)
    (idxs : list Z) (fs fs' : filesystem) (dt : bytes) (r : RecoveryResult) :
  content fs target = Some (Some dt) ->
  restore_blocks acc e target backup idxs fs = (r, fs') ->
  success r = true ->
  exists db data cnt,
    content fs backup = Some (Some db) /\
    restore_loop (block_size e) db (sorted idxs) dt 0 = (Ok cnt, data) /\
    restored_blocks r = cnt /\ method r = BACKUP_BLOCKS /\
    forall q, content fs' q
              = if decide (target = q)
                then Some (Some (truncate (length db) data))
                else content fs q.
Proof.
  intros Ht H Hs. unfold restore_blocks in H.
  destruct (negb (bool_decide (is_Some (fs !! backup)))) eqn:Hb.
  { injection H as <- <-. discriminate. }
  apply negb_false_iff, bool_decide_eq_true in Hb.
  assert (Htex : is_Some (fs !! target)).
  { apply content_regular in Ht as (f & -> & _). eauto. }
  rewrite (bool_decide_eq_true_2 _ Htex) in H. cbn [negb] in H.
  destruct (lock_file_content target fs) as (fs1 & Hlock & Hc1).
  unfold mbind, io_bind, bind in H. rewrite Hlock in H.
  unfold os_getsize in H.
  assert (Hb1 : exists nd, fs1 !! backup = Some nd /\
                           node_data nd = node_data (default Directory (fs !! backup))).
  { specialize (Hc1 backup). unfold content in Hc1.
    destruct Hb as [nd Hnd]. rewrite Hnd in Hc1 |- *.
    destruct (fs1 !! backup) as [nd1|]; [|discriminate].
    exists nd1. split; [reflexivity|]. simpl in *. congruence. }
  destruct Hb1 as (nd1 & Hnd1 & Hdata1). rewrite Hnd1 in H.
  unfold with_open_both in H. rewrite Hnd1 in H.
  destruct nd1 as [|b]; [injection H as <- <-; discriminate|].
  destruct (negb (may_read acc (i_mode b)));
    [injection H as <- <-; discriminate|].
  assert (Ht1 : content fs1 target = Some (Some dt)) by (rewrite Hc1; exact Ht).
  apply content_regular in Ht1 as (t & Ht1 & Hdt). rewrite Ht1 in H.
  destruct (negb (may_read acc (i_mode t) && may_write acc (i_mode t)));
    [injection H as <- <-; discriminate|].
  rewrite Hdt in H.
  destruct (restore_loop (block_size e) (i_data b) (sorted idxs) dt 0)
    as [[cnt|ex] data] eqn:Hloop; [|injection H as <- <-; discriminate].
  cbn [getsize] in H.
  destruct (Z.of_nat (length (i_data b)) <? 0) eqn:Hneg;
    [apply Z.ltb_lt in Hneg; lia|].
  rewrite Nat2Z.id in H.
  match type of H with
  | context [_unlock_file acc target ?fs2] =>
      destruct (unlock_file_content target fs2) as (fs3 & Hun & Hc3);
      rewrite Hun in H
  end.
  cbn in H. injection H as <- <-.
  exists (i_data b), data, cnt.
  assert (Hdb : content fs backup = Some (Some (i_data b))).
  { unfold content. destruct Hb as [nd Hnd]. rewrite Hnd in Hdata1 |- *.
    simpl in *. rewrite <- Hdata1. reflexivity. }
  repeat split; try assumption; try reflexivity.
  intros q. rewrite Hc3, content_insert. simpl.
  destruct (decide (target = q)); [reflexivity | apply Hc1].
Qed.

(** Claim C3.  After a successful [restore_blocks] on an existing target
    file, the bytes of the target in every requested block range
    [[i * block_size, (i + 1) * block_size)] are the bytes of the backup at
    the same offsets and the target is as long as the backup; when the
    target does not exist, [restore_blocks] is [restore_from_backup], and
    its success leaves the content of the backup in the target. *)
Theorem restore_blocks_spec (e : engine) (target backup : string)
    (idxs : list Z) (fs : filesystem) :
  (forall dt r fs',
     content fs target = Some (Some dt) ->
     restore_blocks acc e target backup idxs fs = (r, fs') ->
     success r = true ->
     exists db dt',
       content fs backup = Some (Some db) /\
       content fs' target = Some (Some dt') /\
       length dt' = length db /\
       (forall i o, In i idxs ->
          i * block_size e <= Z.of_nat o < (i + 1) * block_size e ->
          dt' !! o = db !! o) /\
       (target <> backup -> content fs' backup = Some (Some db))) /\
  (fs !! target = None ->
     (is_Some (fs !! backup) ->
      restore_blocks acc e target backup idxs fs
      = restore_from_backup acc e target backup fs) /\
     forall r fs',
       restore_blocks acc e target backup idxs fs = (r, fs') ->
       success r = true ->
       method r = BACKUP_FULL /\
       exists db, content fs backup = Some (Some db) /\
                  content fs' target = Some (Some db)).
Proof.
  split.
  - intros dt r fs' Ht H Hs.
    destruct (restore_blocks_existing e target backup idxs fs fs' dt r Ht H Hs)
      as (db & data & cnt & Hdb & Hloop & _ & _ & Hfs').
    exists db, (truncate (length db) data).
    destruct (restore_loop_spec _ _ _ _ _ _ _ Hloop) as [_ Hidx].
    split; [exact Hdb|]. split.
    { rewrite Hfs'. rewrite decide_True by reflexivity. reflexivity. }
    split; [apply length_truncate|]. split.
    + intros i o Hi Hrange.
      destruct (decide (o < length db)%nat) as [Hlt | Hge].
      * assert (Hd : data !! o = db !! o).
        { apply (Hidx i); [apply In_sorted; exact Hi | exact Hrange | exact Hlt]. }
        rewrite truncate_lookup; [exact Hd | exact Hlt |].
        apply lookup_lt_is_Some. rewrite Hd. apply lookup_lt_is_Some. exact Hlt.
      * rewrite (lookup_ge_None_2 db) by lia.
        apply lookup_ge_None_2. rewrite length_truncate. lia.
    + intros Hne. rewrite Hfs'. rewrite decide_False by exact Hne. exact Hdb.
  - intros Ht. split.
    + intros Hb. unfold restore_blocks.
      rewrite (bool_decide_eq_true_2 _ Hb). cbn [negb].
      rewrite Ht. rewrite bool_decide_eq_false_2 by (intros [? ?]; discriminate).
      reflexivity.
    + intros r fs' H Hs. unfold restore_blocks in H.
      destruct (negb (bool_decide (is_Some (fs !! backup)))) eqn:Hb.
      { injection H as <- <-. discriminate. }
      rewrite Ht in H.
      rewrite bool_decide_eq_false_2 in H by (intros [? ?]; discriminate).
      cbn [negb] in H. unfold restore_from_backup in H. rewrite Hb in H.
      apply negb_false_iff, bool_decide_eq_true in Hb.
      destruct (lock_file_content target fs) as (fs1 & Hlock & Hc1).
      unfold mbind, io_bind, bind in H. rewrite Hlock in H.
      assert (Ht1 : fs1 !! target = None).
      { apply content_none. rewrite Hc1. apply content_none. exact Ht. }
      unfold copy2 in H. rewrite Ht1 in H. cbv zeta in H.
      destruct Hb as [nd Hnd].
      assert (Hb1 : content fs1 backup = Some (node_data nd)).
      { rewrite Hc1. unfold content. rewrite Hnd. reflexivity. }
      unfold content in Hb1.
      destruct (fs1 !! backup) as [nd1|] eqn:Hnd1; [|discriminate].
      simpl in Hb1. injection Hb1 as Hb1.
      destruct nd1 as [|s].
      { destruct (bool_decide (backup = target));
          injection H as <- <-; discriminate. }
      destruct (bool_decide (backup = target));
        [injection H as <- <-; discriminate|].
      destruct (negb (may_read acc (i_mode s)));
        [injection H as <- <-; discriminate|].
      rewrite Ht1 in H.
      destruct (may_chmod acc) eqn:Hch;
        [|injection H as <- <-; discriminate].
      match type of H with
      | context [chmod acc target ?m ?fs2] =>
          destruct (chmod acc target m fs2) as [rc fs3] eqn:Hchmod;
          pose proof (chmod_content _ _ _ _ _ Hchmod) as Hc3
      end.
      destruct rc as [[]|ex]; [|injection H as <- <-; discriminate].
      destruct (unlock_file_content target fs3) as (fs4 & Hun & Hc4).
      rewrite Hun in H. injection H as <- <-.
      split; [reflexivity|].
      exists (i_data s). split.
      * unfold content. rewrite Hnd. simpl. rewrite <- Hb1. reflexivity.
      * rewrite Hc4, Hc3, content_insert.
        rewrite decide_True by reflexivity. reflexivity.
Qed.

End RecoveryFacts.

Section StorageFacts.
Import HashStorage.

(** *** [ORDER BY block_index] on rows that are in order already *)

Lemma insert_by_index_last (b : block_row) (l : list block_row) :
  Forall (fun c => b_block_index c <= b_block_index b) l ->
  insert_by_index b l = l ++ [b].
Proof.
  induction 1 as [|c l Hc Hl IH]; simpl.
  - reflexivity.
  - destruct (b_block_index b <? b_block_index c) eqn:Hlt.
    + apply Z.ltb_lt in Hlt. lia.
    + rewrite IH. reflexivity.
Qed.

Lemma order_by_sorted_from (l acc : list block_row) :
  StronglySorted Z.le (map b_block_index (acc ++ l)) ->
  fold_left (fun sorted b => insert_by_index b sorted) l acc = acc ++ l.
Proof.
  revert acc. induction l as [|b l IH]; intros acc Hs; simpl.
  - rewrite app_nil_r. reflexivity.
  - rewrite insert_by_index_last.
    + rewrite IH; rewrite <- app_assoc; [reflexivity | exact Hs].
    + rewrite map_app in Hs. simpl in Hs.
      induction acc as [|c acc IHacc]; constructor.
      * inversion Hs as [|? ? _ Hall]; subst.
        rewrite Forall_app in Hall. destruct Hall as [_ Hall].
        inversion Hall; subst. assumption.
      * apply IHacc. inversion Hs; subst. assumption.
Qed.

Lemma order_by_sorted (l : list block_row) :
  StronglySorted Z.le (map b_block_index l) -> order_by_block_index l = l.
Proof. intros Hs. unfold order_by_block_index. apply (order_by_sorted_from l []). exact Hs. Qed.

(** *** The loop that inserts the hashes of a file *)

Lemma insert_block_hashes_ok (file_id : Z) (hashes : list string) :
  forall (k : Z) (db : database),
  Forall (fun b => b_file_id b = file_id -> b_block_index b < k)
         (block_hashes_tbl db) ->
  (foreign_keys db = true ->
   existsb (fun r => f_id r =? file_id) (files db) = true) ->
  exists db' rows,
    insert_block_hashes file_id k hashes db = Some db' /\
    files db' = files db /\
    foreign_keys db' = foreign_keys db /\
    block_hashes_tbl db' = block_hashes_tbl db ++ rows /\
    inserted file_id k hashes rows.
Proof.
  induction hashes as [|h hashes IH]; intros k db Hfree Hfk; simpl.
  - exists db, []. rewrite app_nil_r. repeat split; constructor.
  - unfold insert_block_hash.
    assert (Hnew : existsb (fun b => (b_file_id b =? file_id)
                                     && (b_block_index b =? k))
                           (block_hashes_tbl db) = false).
    { apply not_true_is_false. intros Hex.
      apply existsb_exists in Hex as (b & Hb & Heq).
      apply andb_true_iff in Heq as [H1 H2].
      apply Z.eqb_eq in H1, H2.
      rewrite Forall_forall in Hfree. apply list_elem_of_In in Hb.
      specialize (Hfree b Hb H1). lia. }
    rewrite Hnew.
    assert (Hfk' : foreign_keys db
                   && negb (existsb (fun r => f_id r =? file_id) (files db))
                   = false).
    { destruct (foreign_keys db); [|reflexivity].
      rewrite Hfk by reflexivity. reflexivity. }
    rewrite Hfk'.
    set (new_id := next_rowid _ _).
    set (row := {| b_id := new_id; b_file_id := file_id;
                   b_block_index := k; b_hash_value := h |}).
    match goal with
    | |- context [insert_block_hashes _ _ _ ?d] => set (db1 := d)
    end.
    destruct (IH (k + 1) db1) as (db' & rows & Hins & Hf & Hp & Htbl & Hrows).
    + subst db1. simpl. rewrite Forall_app. split.
      * eapply Forall_impl; [exact Hfree|]. simpl. intros b Hb H1.
        specialize (Hb H1). lia.
      * constructor; [|constructor]. simpl. lia.
    + subst db1. simpl. exact Hfk.
    + exists db', (row :: rows). split; [exact Hins|].
      split; [exact Hf|]. split; [exact Hp|]. split.
      * rewrite Htbl. subst db1. simpl. rewrite <- app_assoc. reflexivity.
      * destruct Hrows as (H1 & H2 & H3 & H4). repeat split.
        -- constructor; [reflexivity | exact H1].
        -- simpl. rewrite H2. reflexivity.
        -- simpl. constructor; [exact H3|].
           rewrite Forall_map. eapply Forall_impl; [exact H4|].
           simpl. intros; lia.
        -- constructor; [simpl; lia|].
           eapply Forall_impl; [exact H4|]. simpl. intros; lia.
Qed.

Lemma filter_all {A} (f : A -> bool) (l : list A) :
  Forall (fun x => f x = true) l -> List.filter f l = l.
Proof.
  induction 1 as [|x l Hx Hl IH]; simpl; [reflexivity|].
  rewrite Hx, IH. reflexivity.
Qed.

Lemma filter_none {A} (f : A -> bool) (l : list A) :
  Forall (fun x => f x = false) l -> List.filter f l = [].
Proof.
  induction 1 as [|x l Hx Hl IH]; simpl; [reflexivity|].
  rewrite Hx, IH. reflexivity.
Qed.

Lemma filter_negb_filter {A} (f : A -> bool) (l : list A) :
  List.filter f (List.filter (fun x => negb (f x)) l) = [].
Proof.
  apply filter_none. rewrite Forall_forall. intros x Hx.
  apply list_elem_of_In, filter_In in Hx as [_ Hx].
  apply negb_true_iff. exact Hx.
Qed.

(** After the old rows of [file_id] are deleted and the new ones inserted,
    the rows of [file_id], in index order, carry exactly the new hashes. *)
Lemma rows_after_replace (file_id : Z) (hashes : list string)
    (db : database) :
  (foreign_keys db = true ->
   existsb (fun r => f_id r =? file_id) (files db) = true) ->
  exists db',
    insert_block_hashes file_id 0 hashes (delete_block_hashes file_id db)
      = Some db' /\
    files db' = files db /\
    foreign_keys db' = foreign_keys db /\
    map b_hash_value
        (order_by_block_index
           (List.filter (fun b => b_file_id b =? file_id)
                        (block_hashes_tbl db'))) = hashes.
Proof.
  intros Hfk.
  destruct (insert_block_hashes_ok file_id hashes 0
              (delete_block_hashes file_id db))
    as (db' & rows & Hins & Hf & Hp & Htbl & H1 & H2 & H3 & H4).
  - simpl. rewrite Forall_forall. intros b Hb Hid.
    apply list_elem_of_In, filter_In in Hb as [_ Hb].
    apply negb_true_iff, Z.eqb_neq in Hb. contradiction.
  - simpl. exact Hfk.
  - exists db'. split; [exact Hins|]. split; [exact Hf|].
    split; [exact Hp|].
    rewrite Htbl, List.filter_app. simpl.
    rewrite (filter_negb_filter (fun b => b_file_id b =? file_id)).
    simpl. rewrite filter_all.
    + rewrite order_by_sorted by exact H3. exact H2.
    + eapply Forall_impl; [exact H1|]. simpl. intros b ->. apply Z.eqb_refl.
Qed.


Lemma has_path_eq (p : string) (r : file_row) :
  has_path p r = true <-> f_file_path r = p.
Proof. unfold has_path. apply String.eqb_eq. Qed.

(** [add_file] never fails, and the record read back afterwards is made
    of the arguments of the call alone. *)
Lemma add_file_get_file (db : database) (path : string) (size bsize : Z)
    (hashes : list string) (backup : option string) (now : Z) :
  exists db',
    add_file db path size bsize hashes backup now = (Ok true, db') /\
    get_file db' path =
      Some {| file_path := path; file_size := size; block_size := bsize;
              blocks_count := Z.of_nat (length hashes);
              block_hashes := hashes;
              created_at := now; updated_at := now;
              is_trusted := true; backup_path := backup |}.
Proof.
  unfold add_file.
  destruct (insert_or_replace_file path size bsize (Z.of_nat (length hashes))
              now now 1 backup db) as [db1 file_id] eqn:Hior.
  unfold insert_or_replace_file in Hior. injection Hior as Hdb1 Hid.
  destruct (rows_after_replace file_id hashes db1)
    as (db3 & Hins & Hf & _ & Hrows).
  - intros _. rewrite <- Hdb1. cbn [files].
    rewrite existsb_app. apply orb_true_iff. right. simpl.
    rewrite Hid, Z.eqb_refl. reflexivity.
  - rewrite Hins. exists db3. split; [reflexivity|].
    unfold get_file. rewrite Hf, <- Hdb1. cbn [files].
    rewrite List.filter_app.
    unfold delete_files. cbn [fst files].
    rewrite (filter_negb_filter (has_path path)).
    cbn [List.filter app]. unfold has_path at 1. cbn [f_file_path].
    rewrite String.eqb_refl.
    cbn [f_id f_file_path f_file_size f_block_size f_blocks_count
         f_created_at f_updated_at f_is_trusted f_backup_path].
    rewrite Hid, Hrows. reflexivity.
Qed.

(** [update_file] on a stored path: the record read back keeps
    [block_size], [created_at] and [is_trusted]. *)
Lemma update_file_get_file (db : database) (path : string) (size : Z)
    (hashes : list string) (backup : option string) (now : Z)
    (old : FileRecord) :
  get_file db path = Some old ->
  exists db',
    update_file db path size hashes backup now = (Ok true, db') /\
    get_file db' path =
      Some {| file_path := path; file_size := size;
              block_size := block_size old;
              blocks_count := Z.of_nat (length hashes);
              block_hashes := hashes;
              created_at := created_at old; updated_at := now;
              is_trusted := is_trusted old; backup_path := backup |}.
Proof.
  unfold get_file at 1, update_file.
  destruct (List.filter (has_path path) (files db)) as [|row rest] eqn:Hsel;
    [discriminate|].
  intros Hold. injection Hold as <-.
  assert (Hin : In row (List.filter (has_path path) (files db))).
  { rewrite Hsel. left. reflexivity. }
  apply filter_In in Hin as [Hin Hpath]. apply has_path_eq in Hpath.
  set (upd := update_file_row (f_id row) size (Z.of_nat (length hashes))
                              now backup).
  destruct (rows_after_replace (f_id row) hashes
              (set_files db (map upd (files db))))
    as (db3 & Hins & Hf & _ & Hrows).
  - intros _. cbn [set_files files]. apply existsb_exists.
    exists (upd row). split; [apply in_map; exact Hin|].
    unfold upd, update_file_row. rewrite Z.eqb_refl. simpl. apply Z.eqb_refl.
  - rewrite Hins. exists db3. split; [reflexivity|].
    unfold get_file. rewrite Hf. cbn [set_files files].
    assert (Hsel' : List.filter (has_path path) (map upd (files db))
                    = map upd (List.filter (has_path path) (files db))).
    { clear. induction (files db) as [|r l IH]; simpl; [reflexivity|].
      assert (Hp : has_path path (upd r) = has_path path r).
      { unfold upd, update_file_row, has_path.
        destruct (f_id r =? f_id row); reflexivity. }
      rewrite Hp. destruct (has_path path r); simpl; rewrite IH; reflexivity. }
    rewrite Hsel', Hsel. cbn [map].
    assert (Hrow : upd row
                   = {| f_id := f_id row; f_file_path := f_file_path row;
                        f_file_size := size; f_block_size := f_block_size row;
                        f_blocks_count := Z.of_nat (length hashes);
                        f_created_at := f_created_at row;
                        f_updated_at := now;
                        f_is_trusted := f_is_trusted row;
                        f_backup_path := backup |}).
    { unfold upd, update_file_row. rewrite Z.eqb_refl. reflexivity. }
    rewrite Hrow.
    cbn [f_id f_file_path f_file_size f_block_size f_blocks_count
         f_created_at f_updated_at f_is_trusted f_backup_path
         block_size created_at is_trusted].
    rewrite Hrows, Hpath. reflexivity.
Qed.

(** Claim C10.  On a path that already has a record, [add_file] replaces
    the whole record: the record read back carries the arguments of the
    call, [is_trusted] is true and [created_at] is the current time,
    whatever the old record said; [update_file] keeps [created_at] (and
    [is_trusted]) of the old record. *)
Theorem add_file_resets_record (db : database) (path : string)
    (size bsize : Z) (hashes : list string) (backup : option string)
    (now : Z) (old : FileRecord) :
  get_file db path = Some old ->
  (exists db' new,
     add_file db path size bsize hashes backup now = (Ok true, db') /\
     get_file db' path = Some new /\
     file_size new = size /\ block_size new = bsize /\
     block_hashes new = hashes /\ backup_path new = backup /\
     is_trusted new = true /\ created_at new = now /\ updated_at new = now) /\
  (exists db' new,
     update_file db path size hashes backup now = (Ok true, db') /\
     get_file db' path = Some new /\
     file_size new = size /\ block_hashes new = hashes /\
     backup_path new = backup /\ updated_at new = now /\
     created_at new = created_at old /\ is_trusted new = is_trusted old).
Proof.
  intros Hold. split.
  - destruct (add_file_get_file db path size bsize hashes backup now)
      as (db' & Hadd & Hget).
    eexists db', _. split; [exact Hadd|]. split; [exact Hget|].
    repeat split.
  - destruct (update_file_get_file db path size hashes backup now old Hold)
      as (db' & Hupd & Hget).
    eexists db', _. split; [exact Hupd|]. split; [exact Hget|].
    repeat split.
Qed.

(** *** The [foreign_keys] pragma and [remove_file] *)

Lemma remove_file_keeps_blocks (db : database) (path : string) :
  foreign_keys db = false ->
  block_hashes_tbl (snd (remove_file db path)) = block_hashes_tbl db.
Proof.
  intros Hfk. unfold remove_file, delete_files. rewrite Hfk. reflexivity.
Qed.

End StorageFacts.

(** Claim C4 against the code: one file with two blocks is stored and
    removed again; [remove_file] returns true and the record is gone, but
    both rows of [block_hashes] that belong to the file are still there. *)
Lemma remove_file_orphans :
  let db1 := snd (HashStorage.add_file HashStorage._init_database
                    "/etc/hosts" 70000 65536 ["aa"; "bb"]%string None 5) in
  let out := HashStorage.remove_file db1 "/etc/hosts" in
  HashStorage.id_of db1 "/etc/hosts" = Some 1 /\
  fst out = Ok true /\
  HashStorage.get_file (snd out) "/etc/hosts" = None /\
  map HashStorage.b_hash_value (HashStorage.rows_of 1 (snd out))
    = ["aa"; "bb"]%string.
Proof. repeat split. Qed.

Section PragmaFacts.
Import HashStorage.

(** With the pragma on, the rows of the removed file would go with it. *)
Lemma remove_file_cascades_when_enabled (db : database) (path : string)
    (file_id : Z) :
  foreign_keys db = true ->
  id_of db path = Some file_id ->
  rows_of file_id (snd (remove_file db path)) = [].
Proof.
  intros Hfk Hid. unfold id_of in Hid.
  destruct (List.filter (has_path path) (files db)) as [|row rest] eqn:Hsel;
    [discriminate|].
  injection Hid as <-.
  unfold remove_file, delete_files, rows_of. rewrite Hfk, Hsel. cbn [snd block_hashes_tbl].
  apply filter_none. rewrite Forall_forall. intros b Hb.
  apply list_elem_of_In, filter_In in Hb as [_ Hb].
  apply negb_true_iff in Hb. unfold refers_to in Hb. simpl in Hb.
  apply orb_false_iff in Hb as [Hb _]. exact Hb.
Qed.

(** No method touches the pragma: a store opened by [_init_database]
    runs with it off for good. *)
Lemma insert_block_hashes_pragma (file_id : Z) (hashes : list string) :
  forall (k : Z) (db db' : database),
  insert_block_hashes file_id k hashes db = Some db' ->
  foreign_keys db' = foreign_keys db.
Proof.
  induction hashes as [|h hashes IH]; intros k db db' H; simpl in H.
  - injection H as <-. reflexivity.
  - destruct (insert_block_hash file_id k h db) as [db1|] eqn:H1; [|discriminate].
    rewrite (IH _ _ _ H). unfold insert_block_hash in H1.
    destruct (existsb _ _); [discriminate|].
    destruct (_ && _); [discriminate|].
    injection H1 as <-. reflexivity.
Qed.

Lemma methods_keep_pragma (db : database) (path : string) (size bsize : Z)
    (hashes : list string) (backup : option string) (now : Z) (flag : bool) :
  foreign_keys (snd (add_file db path size bsize hashes backup now))
    = foreign_keys db /\
  foreign_keys (snd (update_file db path size hashes backup now))
    = foreign_keys db /\
  foreign_keys (snd (remove_file db path)) = foreign_keys db /\
  foreign_keys (snd (set_trust_status db path flag)) = foreign_keys db /\
  foreign_keys (snd (clear_all db)) = foreign_keys db.
Proof.
  repeat split; try reflexivity.
  - unfold add_file.
    destruct (insert_or_replace_file _ _ _ _ _ _ _ _ db) as [db1 fid] eqn:Hi.
    destruct (insert_block_hashes _ _ _ _) as [db3|] eqn:H3; [|reflexivity].
    apply insert_block_hashes_pragma in H3. cbn [snd]. rewrite H3.
    unfold insert_or_replace_file in Hi. injection Hi as <- _. reflexivity.
  - unfold update_file.
    destruct (List.filter _ _) as [|row rest]; [reflexivity|].
    destruct (insert_block_hashes _ _ _ _) as [db3|] eqn:H3; [|reflexivity].
    apply insert_block_hashes_pragma in H3. cbn [snd]. rewrite H3. reflexivity.
Qed.

End PragmaFacts.

Section AuthFacts.
Import AuthManager.

Lemma _verify_admin_spec (euid : Z) (admin_user : string) :
  _verify_admin euid admin_user = true <->
  euid = 0 /\ (admin_user = "root" \/ admin_user = "admin")%string.
Proof.
  unfold _verify_admin. destruct (euid =? 0) eqn:He; simpl.
  - apply Z.eqb_eq in He. rewrite bool_decide_eq_true.
    rewrite !elem_of_cons, elem_of_nil. tauto.
  - apply Z.eqb_neq in He. split; [discriminate | tauto].
Qed.

(** *** Reading the mode *)

Lemma get_current_mode_monitor (m : manager) (t : Z) :
  current_mode m = MONITOR -> get_current_mode m t = (MONITOR, m).
Proof.
  intros Hm. unfold get_current_mode.
  rewrite bool_decide_eq_false_2 by (rewrite Hm; discriminate).
  rewrite Hm. reflexivity.
Qed.

Lemma get_current_mode_update (m : manager) (start timeout t : Z) :
  current_mode m = UPDATE ->
  mode_start_time m = Some start -> mode_timeout m = Some timeout ->
  (start + seconds timeout < t ->
   exists m', get_current_mode m t = (MONITOR, m') /\
              current_mode m' = MONITOR /\ active_sessions m' = ∅) /\
  (t <= start + seconds timeout -> get_current_mode m t = (UPDATE, m)).
Proof.
  intros Hm Hs Ht. unfold get_current_mode, _is_mode_expired.
  rewrite (bool_decide_eq_true_2 _ Hm), Hs, Ht. split; intros Hlt.
  - assert ((seconds timeout <? t - start) = true) as -> by (apply Z.ltb_lt; lia).
    eexists. split; [reflexivity|]. split; reflexivity.
  - assert ((seconds timeout <? t - start) = false) as -> by (apply Z.ltb_ge; lia).
    rewrite Hm. reflexivity.
Qed.

Lemma get_current_mode_other (m : manager) (t : Z) :
  current_mode m <> UPDATE -> get_current_mode m t = (current_mode m, m).
Proof.
  intros Hm. unfold get_current_mode.
  rewrite bool_decide_eq_false_2 by exact Hm. reflexivity.
Qed.

(** What a successful [enter_update_mode] leaves behind. *)
Lemma enter_update_mode_success (m m1 : manager) (euid : Z)
    (admin_user : string) (timeout now : Z) (token : string)
    (tok : option string) :
  enter_update_mode m euid admin_user timeout now token
    = (Ok (true, tok), m1) ->
  current_mode m1 = UPDATE /\ mode_start_time m1 = Some now /\
  mode_timeout m1 = Some timeout.
Proof.
  unfold enter_update_mode.
  destruct (bool_decide (current_mode m = EMERGENCY)); [discriminate|].
  destruct (bool_decide (current_mode m = INIT)); [discriminate|].
  destruct (bool_decide (current_mode m = UPDATE)).
  - intros H. injection H as _ <-. simpl. auto.
  - destruct (negb _); [discriminate|].
    destruct (_generate_session_token m admin_user timeout now token)
      as [[session_token|ex] m0]; [|discriminate].
    intros H. injection H as _ <-. simpl. auto.
Qed.

Lemma reads_deadline (start timeout : Z) (instants : list Z) :
  forall (m m2 : manager) (modes : list SystemMode),
  (current_mode m = UPDATE /\ mode_start_time m = Some start /\
   mode_timeout m = Some timeout) \/ current_mode m = MONITOR ->
  reads m instants = (modes, m2) ->
  forall (i : nat) (t : Z),
    instants !! i = Some t -> start + seconds timeout < t ->
    modes !! i = Some MONITOR.
Proof.
  induction instants as [|t0 rest IH]; intros m m2 modes Hinv Hreads i t Hi Ht.
  - rewrite lookup_nil in Hi. discriminate.
  - cbn [reads] in Hreads.
    destruct (get_current_mode m t0) as [mode m1] eqn:Hget.
    destruct (reads m1 rest) as [modes' m2'] eqn:Hrest.
    injection Hreads as <- <-.
    assert (Hstep : ((current_mode m1 = UPDATE /\ mode_start_time m1 = Some start /\
                      mode_timeout m1 = Some timeout) \/ current_mode m1 = MONITOR)
                    /\ (start + seconds timeout < t0 -> mode = MONITOR)).
    { destruct Hinv as [(Hu & Hs & Hto) | Hmon].
      - destruct (get_current_mode_update m start timeout t0 Hu Hs Hto)
          as [Hexp Hlive].
        destruct (Z.lt_ge_cases (start + seconds timeout) t0) as [Hlt | Hge].
        + destruct (Hexp Hlt) as (m' & Heq & Hm' & _).
          rewrite Heq in Hget. injection Hget as <- <-. auto.
        + rewrite (Hlive Hge) in Hget. injection Hget as <- <-.
          split; [left; auto | lia].
      - rewrite (get_current_mode_monitor m t0 Hmon) in Hget.
        injection Hget as <- <-. auto. }
    destruct Hstep as [Hinv1 Hnow].
    destruct i as [|i]; simpl in Hi |- *.
    + injection Hi as ->. rewrite (Hnow Ht). reflexivity.
    + eapply IH; eauto.
Qed.

(** Claim C5, as amended.  After Update mode is entered (or extended) at
    instant [now] with timeout [T], every mode read at an instant later
    than [now + T] returns Monitor, with no exit call in between: the
    deadline is checked on every read. *)
Theorem update_mode_deadline (m m1 : manager) (euid : Z)
    (admin_user : string) (timeout now : Z) (token : string)
    (tok : option string) :
  enter_update_mode m euid admin_user timeout now token
    = (Ok (true, tok), m1) ->
  forall (instants : list Z) (modes : list SystemMode) (m2 : manager),
    reads m1 instants = (modes, m2) ->
    forall (i : nat) (t : Z),
      instants !! i = Some t -> now + seconds timeout < t ->
      modes !! i = Some MONITOR.
Proof.
  intros Henter instants modes m2 Hreads i t Hi Ht.
  apply enter_update_mode_success in Henter.
  eapply reads_deadline; eauto.
Qed.

(** What [_generate_session_token] does at a date [now]: it stores the
    session when the expiry is a date, and raises [OverflowError] and
    stores nothing when it is not. *)
Lemma _generate_session_token_spec (m : manager) (admin_user : string)
    (timeout now : Z) (token : string) :
  datetime_min <= now <= datetime_max ->
  _generate_session_token m admin_user timeout now token
  = if (datetime_min <=? now + seconds timeout)
       && (now + seconds timeout <=? datetime_max)
    then (Ok token,
          {| current_mode := current_mode m;
             mode_start_time := mode_start_time m;
             mode_timeout := mode_timeout m;
             active_sessions :=
               <[token := {| user := admin_user; created := now;
                             expires := now + seconds timeout |}]>
                 (active_sessions m);
             mode_history := mode_history m;
             emergency_triggered := emergency_triggered m;
             emergency_reason := emergency_reason m |})
    else (Raise OverflowError, m).
Proof.
  intros Hnow. pose proof (datetime_add_seconds now timeout Hnow) as H.
  unfold _generate_session_token, seconds.
  destruct (timedelta_seconds timeout) as [delta|ex].
  - destruct (datetime_add now delta) as [expiry|ex];
      destruct (_ && _); try discriminate.
    + injection H as ->. reflexivity.
    + injection H as ->. reflexivity.
  - destruct (_ && _); [discriminate|].
    injection H as ->. reflexivity.
Qed.

(** Claim C6, as amended.  From Monitor, at a date [now],
    [enter_update_mode] succeeds only when the admin is verified
    (effective user id 0 and a user name among [root] and [admin]).  No
    range of timeouts is checked: for a verified admin the call succeeds
    with every timeout whose expiry [now + timeout] is a date, returns
    the session token, records the session under it and starts the
    deadline; when the expiry is no date it raises [OverflowError].  A
    call that does not succeed changes nothing. *)
Theorem enter_update_mode_from_monitor (m : manager) (euid : Z)
    (admin_user : string) (timeout now : Z) (token : string) :
  let verified :=
    euid = 0 /\ (admin_user = "root" \/ admin_user = "admin")%string in
  let expiry := now + seconds timeout in
  current_mode m = MONITOR ->
  datetime_min <= now <= datetime_max ->
  (~ verified ->
   enter_update_mode m euid admin_user timeout now token
   = (Ok (false, None), m)) /\
  (verified -> datetime_min <= expiry <= datetime_max ->
   exists m',
     enter_update_mode m euid admin_user timeout now token
     = (Ok (true, Some token), m') /\
     active_sessions m' !! token
       = Some {| user := admin_user; created := now; expires := expiry |} /\
     current_mode m' = UPDATE /\
     mode_start_time m' = Some now /\ mode_timeout m' = Some timeout) /\
  (verified -> ~ datetime_min <= expiry <= datetime_max ->
   enter_update_mode m euid admin_user timeout now token
   = (Raise OverflowError, m)).
Proof.
  intros verified expiry Hm Hnow. unfold enter_update_mode. rewrite Hm.
  rewrite !bool_decide_eq_false_2 by discriminate.
  pose proof (_verify_admin_spec euid admin_user) as Hv. fold verified in Hv.
  rewrite (_generate_session_token_spec m admin_user timeout now token Hnow).
  fold expiry.
  split; [|split].
  - intros Hno. destruct (_verify_admin euid admin_user); [|reflexivity].
    exfalso. apply Hno, Hv. reflexivity.
  - intros Hyes [H1 H2]. rewrite (proj2 Hv Hyes). cbn [negb].
    rewrite (proj2 (Z.leb_le _ _) H1), (proj2 (Z.leb_le _ _) H2). cbn [andb].
    eexists. split; [reflexivity|]. cbn.
    rewrite lookup_insert_eq. auto.
  - intros Hyes Hno. rewrite (proj2 Hv Hyes). cbn [negb].
    destruct ((datetime_min <=? expiry) && (expiry <=? datetime_max)) eqn:Hr;
      [|reflexivity].
    exfalso. apply Hno. apply andb_true_iff in Hr as [H1 H2].
    apply Z.leb_le in H1, H2. auto.
Qed.

(** Claim C7.  In Emergency mode a read of the mode changes nothing;
    every call that asks for another mode, Init or Update, or for an exit
    other than the emergency exit of a verified admin, returns failure
    and leaves the manager as it is; [enter_emergency_mode], which asks
    for no new mode, leaves the mode Emergency; and only
    [exit_emergency_mode] by a verified admin moves the mode to
    Monitor. *)
Theorem emergency_trap (m : manager) (euid now : Z) (c : call) :
  current_mode m = EMERGENCY ->
  (fst (get_current_mode m now) = EMERGENCY /\
   snd (get_current_mode m now) = m) /\
  match c with
  | Exit_emergency u =>
      if _verify_admin euid u
      then fst (run euid now c m) = true /\
           current_mode (snd (run euid now c m)) = MONITOR
      else run euid now c m = (false, m)
  | Enter_emergency _ =>
      fst (run euid now c m) = true /\
      current_mode (snd (run euid now c m)) = EMERGENCY
  | _ => run euid now c m = (false, m)
  end.
Proof.
  intros Hm. split.
  - rewrite get_current_mode_other by (rewrite Hm; discriminate).
    rewrite Hm. auto.
  - destruct c as [u | u | u t tok | u | r | u]; simpl.
    + unfold enter_init_mode. rewrite Hm. reflexivity.
    + unfold exit_init_mode. rewrite Hm. reflexivity.
    + unfold enter_update_mode. rewrite Hm. reflexivity.
    + unfold exit_update_mode. rewrite Hm. reflexivity.
    + split; reflexivity.
    + unfold exit_emergency_mode. rewrite Hm. simpl.
      destruct (_verify_admin euid u); simpl; auto.
Qed.

End AuthFacts.

(** Claim C5 as stated fails at the deadline itself: a read exactly
    [timeout] seconds after entry still returns Update. *)
Lemma get_current_mode_at_deadline :
  let m1 := snd (AuthManager.enter_update_mode AuthManager.__init__ 0 "root"
                   60 1000 "t0") in
  fst (AuthManager.enter_update_mode AuthManager.__init__ 0 "root" 60 1000 "t0")
    = Ok (true, Some "t0"%string) /\
  fst (AuthManager.get_current_mode m1 (1000 + AuthManager.seconds 60))
    = AuthManager.UPDATE.
Proof. split; reflexivity. Qed.

(** Claim C6 as stated fails for timeouts outside [60, 3600]: entry with
    5 seconds and with 86400 seconds succeeds. *)
Lemma enter_update_mode_any_timeout :
  fst (AuthManager.enter_update_mode AuthManager.__init__ 0 "root" 5
         Samples.today "t0")
    = Ok (true, Some "t0"%string) /\
  fst (AuthManager.enter_update_mode AuthManager.__init__ 0 "admin" 86400
         Samples.today "t1")
    = Ok (true, Some "t1"%string).
Proof. split; reflexivity. Qed.

(** Claim C2 as stated fails for a query whose window starts before
    [datetime.min].  With a window of [10**12] seconds the one recorded
    event lies within the window, the count 1 reaches the threshold 1,
    the mean 100 reaches the threshold 70 and the one critical event is
    at least 0.7 times the count; but the query raises. *)
Lemma detect_window_overflow :
  let ev := Samples.encrypted in
  let th := IntegrityEngine.ransomware_thresholds Samples.attacked in
  IntegrityEngine.detect_ransomware_pattern Samples.exact Samples.Rsum
    Samples.attacked (Some 1000000000000) Samples.today
    = Raise OverflowError /\
  IntegrityEngine.modification_history Samples.attacked = [ev] /\
  Samples.today - 1000000000000 * 1000000
    <= IntegrityEngine.ev_timestamp ev /\
  IntegrityEngine.files_count th <= 1 /\
  (IntegrityEngine.block_change_percent th
     <= IntegrityEngine.ev_change_percent ev / 1)%R /\
  (IntegrityEngine.block_change_percent th
     <= IntegrityEngine.ev_change_percent ev)%R /\
  (IntegrityEngine.entropy_threshold th
     <= IntegrityEngine.ev_entropy ev)%R /\
  (7 / 10 * 1 <= 1)%R.
Proof.
  cbv zeta. split; [vm_compute; reflexivity|].
  split; [reflexivity|].
  split; [vm_compute; discriminate|].
  split; [vm_compute; discriminate|]. cbn. repeat split; lra.
Qed.

(** ** The theorems at the sample inputs *)


(** The detector on the engine that reacts to a single file: the one
    event of the last ten seconds makes the answer positive. *)
Lemma detect_ransomware_pattern_iff_witness :
  exists d,
    IntegrityEngine.detect_ransomware_pattern Samples.exact Samples.Rsum
      Samples.attacked (Some 10) Samples.today = Ok (true, d).
Proof.
  destruct (detect_ransomware_pattern_iff Samples.exact Samples.Rsum
              Samples.attacked (Some 10) Samples.today) as [[_ H] _].
  - unfold datetime_min, datetime_max, Samples.today. lia.
  - apply H. clear H.
    assert (Hw : List.filter
                   (fun ev => Samples.today - 10 * 1000000
                              <=? IntegrityEngine.ev_timestamp ev)
                   (IntegrityEngine.modification_history Samples.attacked)
                 = [Samples.encrypted]) by reflexivity.
    rewrite Hw. cbn [length map List.filter Samples.attacked
                     IntegrityEngine.ransomware_thresholds
                     IntegrityEngine.files_count
                     IntegrityEngine.block_change_percent
                     IntegrityEngine.entropy_threshold
                     Samples.encrypted
                     IntegrityEngine.ev_change_percent
                     IntegrityEngine.ev_entropy].
    destruct (Rle_dec 70 100) as [_ | Hno]; [|exfalso; apply Hno; lra].
    destruct (Rle_dec (75 / 10) 8) as [_ | Hno]; [|exfalso; apply Hno; lra].
    cbn [andb length]. unfold Samples.exact, Samples.Rsum.
    split; [unfold datetime_min, datetime_max, Samples.today; lia|].
    split; [lia|]. split; [lia|]. cbn. split; lra.
Defined.

(** The block restore theorem on the sample file and its backup. *)
Lemma restore_blocks_spec_witness :
  exists db dt',
    content Samples.disk "/var/backups/data.backup" = Some (Some db) /\
    content (snd (RecoveryEngine.restore_blocks root_access Samples.recovery
                    "/srv/data.txt" "/var/backups/data.backup" [1]
                    Samples.disk)) "/srv/data.txt" = Some (Some dt') /\
    length dt' = length db.
Proof.
  destruct (restore_blocks_spec root_access Samples.recovery "/srv/data.txt"
              "/var/backups/data.backup" [1] Samples.disk) as [Hex _].
  destruct (Hex (i_data Samples.target_file) _ _ eq_refl eq_refl eq_refl)
    as (db & dt' & Hb & Ht & Hlen & _).
  exists db, dt'. split; [exact Hb|]. split; [exact Ht | exact Hlen].
Defined.

(** Entry at instant 1000 for 60 seconds: the read one microsecond after
    the deadline returns Monitor. *)
Lemma update_mode_deadline_witness :
  fst (AuthManager.reads
         (snd (AuthManager.enter_update_mode AuthManager.__init__ 0 "root"
                 60 1000 "t0"))
         [60001000; 60001001]) !! 1%nat
  = Some AuthManager.MONITOR.
Proof.
  apply (update_mode_deadline AuthManager.__init__ _ 0 "root" 60 1000 "t0"
           (Some "t0"%string) (surjective_pairing _)
           [60001000; 60001001] _ _ (surjective_pairing _)
           1%nat 60001001 eq_refl).
  reflexivity.
Defined.

(** Entry from the initial manager by [admin] under the super-user, for
    five seconds. *)
Lemma enter_update_mode_from_monitor_witness :
  exists m',
    AuthManager.enter_update_mode AuthManager.__init__ 0 "admin" 5
      Samples.today "t0"
    = (Ok (true, Some "t0"%string), m') /\
    AuthManager.current_mode m' = AuthManager.UPDATE.
Proof.
  destruct (enter_update_mode_from_monitor AuthManager.__init__ 0 "admin" 5
              Samples.today "t0" eq_refl) as (_ & Hok & _).
  - unfold datetime_min, datetime_max, Samples.today. lia.
  - destruct Hok as (m' & Hrun & _ & Hm & _).
    + split; [reflexivity | right; reflexivity].
    + unfold datetime_min, datetime_max, Samples.today, AuthManager.seconds.
      lia.
    + exists m'. split; [exact Hrun | exact Hm].
Defined.

(** A request for Update mode while the emergency lasts. *)
Lemma emergency_trap_witness :
  AuthManager.run 0 9 (AuthManager.Enter_update "root" 300 "t0")
    Samples.alarmed = (false, Samples.alarmed).
Proof.
  destruct (emergency_trap Samples.alarmed 0 9
              (AuthManager.Enter_update "root" 300 "t0") eq_refl)
    as [_ H].
  exact H.
Defined.

(** The sample store holds an untrusted record created at instant 5;
    [add_file] at instant 99 makes it trusted and created at 99. *)
Lemma add_file_resets_record_witness :
  (exists old, HashStorage.get_file Samples.store "/etc/hosts" = Some old /\
               HashStorage.is_trusted old = false /\
               HashStorage.created_at old = 5) /\
  exists db' new,
    HashStorage.add_file Samples.store "/etc/hosts" 70000 65536
      ["aa"; "bb"] None 99 = (Ok true, db') /\
    HashStorage.get_file db' "/etc/hosts" = Some new /\
    HashStorage.is_trusted new = true /\ HashStorage.created_at new = 99.
Proof.
  split.
  - eexists. split; [reflexivity|]. split; reflexivity.
  - destruct (add_file_resets_record Samples.store "/etc/hosts" 70000 65536
                ["aa"; "bb"] None 99 _ eq_refl)
      as [(db' & new & Hadd & Hget & _ & _ & _ & _ & Ht & Hc & _) _].
    exists db', new. repeat split; assumption.
Defined.

(** ** The definitions on small inputs *)

Example file_blocks_5_by_2 :
  IntegrityEngine.file_blocks 2 [x41; x42; x43; x44; x45]
  = [[x41; x42]; [x43; x44]; [x45]].
Proof. reflexivity. Qed.

Example file_blocks_zero_block_size :
  IntegrityEngine.file_blocks 0 [x41; x42; x43] = [].
Proof. reflexivity. Qed.

Example compare_hashes_longer_file :
  fst (IntegrityEngine.compare_hashes ["a"; "b"; "c"] ["a"; "x"])
  = [1; 2]%nat.
Proof. reflexivity. Qed.

Example compare_hashes_equal :
  fst (IntegrityEngine.compare_hashes ["a"; "b"] ["a"; "b"]) = [].
Proof. reflexivity. Qed.

Example deque_append_full :
  deque_append 2 [1; 2] 3 = [2; 3].
Proof. reflexivity. Qed.

Example sorted_indices :
  RecoveryEngine.sorted [3; 1; 2; 1] = [1; 1; 2; 3].
Proof. reflexivity. Qed.

Example write_at_past_the_end :
  RecoveryEngine.write_at 3 [x61] [x41] = [x41; x00; x00; x61].
Proof. reflexivity. Qed.

Example truncate_extends :
  RecoveryEngine.truncate 3 [x41] = [x41; x00; x00].
Proof. reflexivity. Qed.

Example basename_of_backup :
  RecoveryEngine.basename "/var/backups/data.backup" = "data.backup"%string.
Proof. reflexivity. Qed.

(** Block 1 of the sample target is restored from the sample backup, and
    the target is cut to the three bytes of the backup. *)
Example restore_blocks_sample :
  let out := RecoveryEngine.restore_blocks root_access Samples.recovery
               "/srv/data.txt" "/var/backups/data.backup" [1] Samples.disk in
  RecoveryEngine.success (fst out) = true /\
  RecoveryEngine.restored_blocks (fst out) = 1%nat /\
  content (snd out) "/srv/data.txt" = Some (Some [x41; x42; x63]).
Proof. repeat split. Qed.

(** A negative index makes [seek] raise: the call fails. *)
Example restore_blocks_negative_index :
  RecoveryEngine.success
    (fst (RecoveryEngine.restore_blocks root_access Samples.recovery
            "/srv/data.txt" "/var/backups/data.backup" [-1] Samples.disk))
  = false.
Proof. reflexivity. Qed.

(** With no event in the window the default detector answers no; with a
    [files_count] threshold of zero the mean is a division by zero. *)
Example detect_nothing_recorded :
  IntegrityEngine.detect_ransomware_pattern Samples.exact Samples.Rsum Samples.integrity None
    Samples.today
  = Ok (false, None).
Proof. reflexivity. Qed.

Example detect_zero_threshold_raises :
  IntegrityEngine.detect_ransomware_pattern Samples.exact Samples.Rsum
    (IntegrityEngine.new_engine 2
       {| IntegrityEngine.files_count := 0;
          IntegrityEngine.time_window := 10;
          IntegrityEngine.block_change_percent := 70%R;
          IntegrityEngine.entropy_threshold := 7%R |})
    None Samples.today
  = Raise ZeroDivisionError.
Proof. reflexivity. Qed.

(** [enter_emergency_mode] asks for no new mode: called in Emergency
    mode it leaves the mode as it is. *)
Example enter_emergency_mode_again :
  let m := snd (AuthManager.enter_emergency_mode AuthManager.__init__
                  "ransomware" 0) in
  let out := AuthManager.run 1000 7 (AuthManager.Enter_emergency "again") m in
  AuthManager.current_mode m = AuthManager.EMERGENCY /\
  AuthManager.current_mode (snd out) = AuthManager.EMERGENCY.
Proof. repeat split. Qed.

(** The sample store: the record of the file, and what [update_file] on a
    path that is not stored returns. *)
Example store_record :
  HashStorage.get_file Samples.store "/etc/hosts"
  = Some {| HashStorage.file_path := "/etc/hosts";
            HashStorage.file_size := 70000;
            HashStorage.block_size := 65536;
            HashStorage.blocks_count := 2;
            HashStorage.block_hashes := ["aa"; "bb"];
            HashStorage.created_at := 5;
            HashStorage.updated_at := 5;
            HashStorage.is_trusted := false;
            HashStorage.backup_path := None |}.
Proof. reflexivity. Qed.

Example update_file_unknown_path :
  fst (HashStorage.update_file Samples.store "/etc/motd" 1 ["cc"] None 9)
  = Ok false.
Proof. reflexivity. Qed.

Example verify_admin_needs_root :
  AuthManager._verify_admin 1000 "root" = false /\
  AuthManager._verify_admin 0 "gui" = false /\
  AuthManager._verify_admin 0 "admin" = true.
Proof. repeat split. Qed.

(** The token of an Update session is known until the deadline is seen to
    have passed; the read that sees it clears the sessions. *)
Example session_cleared_at_downgrade :
  let m1 := snd (AuthManager.enter_update_mode AuthManager.__init__ 0 "root"
                   60 0 "t0") in
  fst (AuthManager.verify_session_token m1 "t0" 1) = AuthManager.SUCCESS /\
  fst (AuthManager.verify_session_token
         (snd (AuthManager.get_current_mode m1 61000000)) "t0" 61000000)
  = AuthManager.UNAUTHORIZED.
Proof. split; reflexivity. Qed.

(* ===================================================================== *)
(** * Further properties of the integrity engine *)
(* ===================================================================== *)

Section DiffFacts.
Import IntegrityEngine.

Lemma diff_common_spec (cur ref : list string) :
  forall (k j : nat),
  In j (diff_common k cur ref) <->
  (k <= j)%nat /\ (j - k < length cur)%nat /\ (j - k < length ref)%nat /\
  cur !! (j - k)%nat <> ref !! (j - k)%nat.
Proof.
  revert ref. induction cur as [|c cur IH]; intros ref k j.
  - simpl. split; [intros [] | intros (_ & H & _); simpl in H; lia].
  - destruct ref as [|r ref].
    + simpl. split; [intros [] | intros (_ & _ & H & _); simpl in H; lia].
    + cbn [diff_common].
      assert (Hstep : forall P : Prop,
                 (P <-> (j = k /\ c <> r) \/ In j (diff_common (S k) cur ref)) ->
                 P <-> (k <= j)%nat /\ (j - k < length (c :: cur))%nat /\
                       (j - k < length (r :: ref))%nat /\
                       (c :: cur) !! (j - k)%nat <> (r :: ref) !! (j - k)%nat).
      { intros P HP. rewrite HP, IH. clear HP. simpl length. split.
        - intros [[-> Hne] | (H1 & H2 & H3 & H4)].
          + rewrite Nat.sub_diag. simpl. repeat split; try lia. congruence.
          + replace (j - k)%nat with (S (j - S k)) by lia. simpl.
            repeat split; try lia. exact H4.
        - intros (H1 & H2 & H3 & H4).
          destruct (decide (j = k)) as [->|Hne].
          + left. split; [reflexivity|]. rewrite Nat.sub_diag in H4.
            simpl in H4. congruence.
          + right. replace (j - k)%nat with (S (j - S k)) in H4 by lia.
            simpl in H4. repeat split; try lia. exact H4. }
      destruct (String.eqb c r) eqn:Heq.
      * apply String.eqb_eq in Heq. apply Hstep. split; [auto|].
        intros [[_ Hne] | H]; [contradiction | exact H].
      * apply String.eqb_neq in Heq. apply Hstep. simpl. split.
        -- intros [<- | H]; auto.
        -- intros [[-> _] | H]; auto.
Qed.

Lemma length_diff_common (cur ref : list string) :
  forall k, (length (diff_common k cur ref)
             <= Nat.min (length cur) (length ref))%nat.
Proof.
  revert ref. induction cur as [|c cur IH]; intros ref k; simpl; [lia|].
  destruct ref as [|r ref]; simpl; [lia|].
  specialize (IH ref (S k)). destruct (String.eqb c r); simpl; lia.
Qed.

Lemma compare_hashes_In (cur ref : list string) (j : nat) :
  In j (fst (compare_hashes cur ref)) <-> cur !! j <> ref !! j.
Proof.
  unfold compare_hashes. cbn [fst].
  rewrite in_app_iff, diff_common_spec, Nat.sub_0_r.
  destruct (Nat.eqb (length cur) (length ref)) eqn:Hlen.
  - apply Nat.eqb_eq in Hlen. simpl. split.
    + intros [(_ & _ & _ & H) | []]. exact H.
    + intros H. left.
      destruct (decide (j < length cur)%nat) as [Hlt | Hge].
      * repeat split; try lia. exact H.
      * exfalso. apply H.
        rewrite !lookup_ge_None_2 by lia. reflexivity.
  - apply Nat.eqb_neq in Hlen. rewrite in_seq. split.
    + intros [(_ & _ & _ & H) | H]; [exact H|].
      destruct (Nat.le_gt_cases (length cur) (length ref)) as [Hle | Hgt].
      * rewrite Nat.min_l, Nat.max_r in H by lia.
        rewrite (lookup_ge_None_2 cur) by lia.
        intros Heq. symmetry in Heq. apply lookup_ge_None_1 in Heq. lia.
      * rewrite Nat.min_r, Nat.max_l in H by lia.
        rewrite (lookup_ge_None_2 ref) by lia.
        intros Heq. apply lookup_ge_None_1 in Heq. lia.
    + intros H.
      destruct (decide (j < Nat.min (length cur) (length ref))%nat)
        as [Hlt | Hge].
      * left. repeat split; try lia. exact H.
      * right. split; [lia|].
        destruct (decide (j < Nat.max (length cur) (length ref))%nat)
          as [Hlt | Hge2]; [lia|].
        exfalso. apply H. rewrite !lookup_ge_None_2 by lia. reflexivity.
Qed.

Lemma compare_hashes_nil (cur ref : list string) :
  fst (compare_hashes cur ref) = [] <-> cur = ref.
Proof.
  split.
  - intros Hnil. apply list_eq. intros j.
    destruct (decide (cur !! j = ref !! j)) as [Heq | Hne]; [exact Heq|].
    apply compare_hashes_In in Hne. rewrite Hnil in Hne. destruct Hne.
  - intros ->.
    destruct (fst (compare_hashes ref ref)) as [|j l] eqn:Hl; [reflexivity|].
    exfalso.
    assert (Hin : In j (fst (compare_hashes ref ref)))
      by (rewrite Hl; left; reflexivity).
    apply compare_hashes_In in Hin. apply Hin. reflexivity.
Qed.

(** Extra X1.  An index is in the list [compare_hashes] returns exactly
    when the current and the reference vector differ at it, a block that
    only one of them has counting as a difference; so the list is empty
    exactly when the two vectors are equal. *)
Theorem compare_hashes_changed (cur ref : list string) :
  (forall j : nat, In j (fst (compare_hashes cur ref)) <-> cur !! j <> ref !! j) /\
  (fst (compare_hashes cur ref) = [] <-> cur = ref).
Proof.
  split; [intros j; apply compare_hashes_In | apply compare_hashes_nil].
Qed.

(** Extra X2.  The percentage [compare_hashes] returns lies between 0 and
    100; it is 0 exactly when the vectors are equal. *)
Theorem compare_hashes_percent (cur ref : list string) :
  (0 <= snd (compare_hashes cur ref) <= 100)%R /\
  (snd (compare_hashes cur ref) = 0%R <-> cur = ref).
Proof.
  pose proof (compare_hashes_nil cur ref) as Hnil.
  unfold compare_hashes in *. cbn [fst snd] in *.
  set (changed := diff_common 0 cur ref ++ _) in *.
  set (mx := Nat.max (length cur) (length ref)).
  assert (Hlen : (length changed <= mx)%nat).
  { subst changed mx. rewrite length_app.
    pose proof (length_diff_common cur ref 0%nat).
    destruct (Nat.eqb (length cur) (length ref)); simpl;
      rewrite ?length_seq; lia. }
  destruct (0 <? mx)%nat eqn:Hmx.
  - apply Nat.ltb_lt in Hmx.
    assert (Hm : (0 < INR mx)%R) by (apply lt_0_INR; exact Hmx).
    assert (Hc : (0 <= INR (length changed))%R) by apply pos_INR.
    assert (Hle : (INR (length changed) <= INR mx)%R) by (apply le_INR; exact Hlen).
    assert (Hq : (0 <= INR (length changed) / INR mx <= 1)%R).
    { split.
      - apply Rmult_le_pos; [exact Hc|].
        apply Rlt_le, Rinv_0_lt_compat. exact Hm.
      - apply Rmult_le_reg_r with (INR mx); [exact Hm|].
        unfold Rdiv. rewrite Rmult_assoc, Rinv_l by lra. lra. }
    split; [lra|]. rewrite <- Hnil. split.
    + intros H0. assert (Hz : (INR (length changed) / INR mx = 0)%R) by lra.
      assert (Hz' : INR (length changed) = 0%R).
      { apply Rmult_eq_compat_r with (r := INR mx) in Hz.
        unfold Rdiv in Hz. rewrite Rmult_assoc, Rinv_l in Hz by lra. lra. }
      change 0%R with (INR 0) in Hz'. apply INR_eq in Hz'.
      apply length_zero_iff_nil. exact Hz'.
    + intros ->. simpl. lra.
  - apply Nat.ltb_ge in Hmx. split; [lra|].
    split; [intros _ | reflexivity].
    apply Hnil. apply length_zero_iff_nil. lia.
Qed.

End DiffFacts.

Section BlockFacts.
Import IntegrityEngine.

Lemma read_blocks_lookup (n : nat) (fuel : nat) :
  (0 < n)%nat ->
  forall (rest : bytes) (i : nat),
  (length rest < fuel)%nat ->
  read_blocks fuel (Z.of_nat n) rest !! i
  = if decide (i * n < length rest)%nat
    then Some (take n (drop (i * n) rest)) else None.
Proof.
  intros Hn. induction fuel as [|fuel IH]; intros rest i Hfuel; [lia|].
  cbn [read_blocks]. unfold file_read.
  assert ((Z.of_nat n <? 0) = false) as -> by (apply Z.ltb_ge; lia).
  rewrite Nat2Z.id.
  destruct rest as [|x rest].
  - rewrite take_nil. rewrite decide_False by (simpl; lia). reflexivity.
  - destruct (take n (x :: rest)) as [|b block] eqn:Htake.
    { destruct n; [lia | discriminate]. }
    rewrite <- Htake.
    destruct i as [|i].
    + simpl lookup. rewrite decide_True by (simpl; lia). reflexivity.
    + change ((take n (x :: rest) :: ?l) !! S i) with (l !! i).
      rewrite IH by (rewrite length_drop, length_take; simpl in *; lia).
      rewrite length_drop, length_take, drop_drop.
      destruct (Nat.le_gt_cases n (length (x :: rest))) as [Hle | Hgt].
      * rewrite Nat.min_l by exact Hle.
        replace (n + i * n)%nat with (S i * n)%nat by lia.
        destruct (decide (i * n < length (x :: rest) - n)%nat),
                 (decide (S i * n < length (x :: rest))%nat);
          try reflexivity; lia.
      * rewrite Nat.min_r by lia.
        rewrite decide_False by lia. rewrite decide_False by lia.
        reflexivity.
Qed.

Lemma file_blocks_lookup (n : nat) (data : bytes) (i : nat) :
  (0 < n)%nat ->
  file_blocks (Z.of_nat n) data !! i
  = if decide (i * n < length data)%nat
    then Some (take n (drop (i * n) data)) else None.
Proof.
  intros Hn. unfold file_blocks. apply read_blocks_lookup; [exact Hn | lia].
Qed.

Lemma length_file_blocks (n : nat) (data : bytes) :
  (0 < n)%nat ->
  length (file_blocks (Z.of_nat n) data) = ((length data + n - 1) / n)%nat.
Proof.
  intros Hn.
  set (l := file_blocks (Z.of_nat n) data).
  set (q := ((length data + n - 1) / n)%nat).
  assert (Hq : forall i, (i * n < length data <-> i < q)%nat).
  { intros i. subst q.
    pose proof (Nat.div_mod_eq (length data + n - 1) n) as Hdm.
    pose proof (Nat.mod_upper_bound (length data + n - 1) n ltac:(lia)) as Hr.
    split; intros H; nia. }
  assert (Hl : forall i, (i < length l <-> i < q)%nat).
  { intros i. rewrite <- Hq. rewrite <- lookup_lt_is_Some.
    subst l. rewrite file_blocks_lookup by exact Hn.
    destruct (decide (i * n < length data)%nat); split; intros H;
      try (eexists; reflexivity); try lia.
    destruct H as [? H]. discriminate. }
  destruct (Nat.lt_trichotomy (length l) q) as [H | [H | H]];
    [apply Hl in H; lia | exact H | apply Hl in H; lia].
Qed.

(** Extra X3.  With a positive block size the blocks [compute_file_hashes]
    hashes are the consecutive [block_size]-byte slices of the file: block
    [i] is the bytes from offset [i * block_size], at most [block_size] of
    them; there are [ceil (size / block_size)] blocks; put together they
    are the file. *)
Theorem file_blocks_slices (bs : Z) (data : bytes) :
  0 < bs ->
  (forall i : nat,
     file_blocks bs data !! i
     = if decide (i * Z.to_nat bs < length data)%nat
       then Some (take (Z.to_nat bs) (drop (i * Z.to_nat bs) data))
       else None) /\
  length (file_blocks bs data)
  = ((length data + Z.to_nat bs - 1) / Z.to_nat bs)%nat /\
  concat (file_blocks bs data) = data.
Proof.
  intros Hbs. remember (Z.to_nat bs) as n eqn:Hn.
  assert (Hpos : (0 < n)%nat) by lia.
  assert (Hid : bs = Z.of_nat n) by lia. rewrite Hid.
  split; [|split].
  - intros i. apply file_blocks_lookup. exact Hpos.
  - apply length_file_blocks. exact Hpos.
  - apply file_blocks_concat. lia.
Qed.

Variable sha256 : bytes -> string.
Variable acc : access.

(** Extra X4.  When the hashes of a file can be computed, a check of the
    file returns [NO_CHANGE] exactly when the reference vector is the
    vector of these hashes; so a check against a baseline taken from the
    same content finds no change, in either mode. *)
Theorem check_integrity_baseline (e : engine) (fs : filesystem)
    (path : string) (hashes reference : list string) (size : Z)
    (upd : bool) (now : Z) :
  compute_file_hashes sha256 acc e fs path = Ok (hashes, size) ->
  exists r e',
    check_integrity sha256 acc e fs path reference upd now = (Ok r, e') /\
    current_hashes r = hashes /\
    (change_type r = NO_CHANGE <-> hashes = reference) /\
    (hashes = reference -> e' = e /\ blocks_changed r = 0%nat).
Proof.
  intros Hc. unfold check_integrity. rewrite Hc.
  pose proof (compare_hashes_nil hashes reference) as Hnil.
  destruct (compare_hashes hashes reference) as [changed pct] eqn:Hcmp.
  cbn [fst] in Hnil.
  destruct (Nat.eqb (length changed) 0) eqn:Hz.
  - apply Nat.eqb_eq, length_zero_iff_nil in Hz.
    eexists _, _. split; [reflexivity|]. simpl.
    split; [reflexivity|]. split; [|auto]. split; [intros _|reflexivity].
    apply Hnil. exact Hz.
  - apply Nat.eqb_neq in Hz.
    assert (Hne : hashes <> reference).
    { intros Heq. apply Hnil in Heq. subst changed. simpl in Hz. lia. }
    destruct upd.
    + eexists _, _. split; [reflexivity|]. simpl.
      split; [reflexivity|]. split; [|contradiction].
      split; [discriminate | contradiction].
    + eexists _, _. split; [reflexivity|].
      cbn -[_classify_change calculate_entropy deque_append].
      split; [reflexivity|]. split; [|contradiction].
      split; [|contradiction].
      intros Hno. exfalso.
      pose proof (classify_not_trivial
                    (set_history e
                       (deque_append history_maxlen (modification_history e)
                          {| ev_file_path := path; ev_timestamp := now;
                             ev_blocks_changed := length changed;
                             ev_blocks_total := length hashes;
                             ev_change_percent := pct;
                             ev_entropy := calculate_entropy acc fs path
                                             default_sample_size |}))
                    pct (calculate_entropy acc fs path default_sample_size))
        as [Hn _].
      apply Hn. exact Hno.
Qed.

Lemma length_deque_append {A} (maxlen : nat) (d : list A) (x : A) :
  length (deque_append maxlen d x) = Nat.min maxlen (S (length d)).
Proof.
  unfold deque_append. rewrite length_drop, length_app. simpl. lia.
Qed.

(** Extra X5.  [check_integrity] leaves the block size and the thresholds
    of the engine as they are, and a history of at most 1000 events has at
    most 1000 events afterwards. *)
Theorem check_integrity_keeps_engine (e : engine) (fs : filesystem)
    (path : string) (reference : list string) (upd : bool) (now : Z) :
  let e' := snd (check_integrity sha256 acc e fs path reference upd now) in
  block_size e' = block_size e /\
  ransomware_thresholds e' = ransomware_thresholds e /\
  ((length (modification_history e) <= history_maxlen)%nat ->
   (length (modification_history e') <= history_maxlen)%nat).
Proof.
  unfold check_integrity.
  destruct (compute_file_hashes sha256 acc e fs path) as [[cur size]|ex].
  - destruct (compare_hashes cur reference) as [changed pct].
    destruct (Nat.eqb (length changed) 0); [simpl; auto|].
    destruct upd; [simpl; auto|].
    cbn -[_classify_change calculate_entropy deque_append history_maxlen].
    split; [reflexivity|]. split; [reflexivity|].
    intros _. rewrite length_deque_append. lia.
  - destruct ex; simpl; auto.
Qed.

End BlockFacts.

Section ChangedBlocksFacts.
Import IntegrityEngine IntegrityEngineExt.

Variable acc : access.



End ChangedBlocksFacts.

Section StatisticsFacts.
Import IntegrityEngine IntegrityEngineExt.

Variable round : R -> R.
Variable float_sum : list R -> R.

Lemma Rmax_list_ge (others : list R) :
  forall first : R,
  (first <= Rmax_list first others)%R /\
  Forall (fun x => (x <= Rmax_list first others)%R) others.
Proof.
  unfold Rmax_list. induction others as [|x l IH]; intros first; simpl.
  - split; [lra | constructor].
  - destruct (IH (Rmax first x)) as [H1 H2].
    pose proof (Rmax_l first x). pose proof (Rmax_r first x).
    split; [lra|]. constructor; [lra | exact H2].
Qed.

Lemma Rmax_list_In (others : list R) :
  forall first : R, In (Rmax_list first others) (first :: others).
Proof.
  unfold Rmax_list. induction others as [|x l IH]; intros first; simpl.
  - left. reflexivity.
  - destruct (IH (Rmax first x)) as [H | H].
    + rewrite <- H. unfold Rmax. destruct (Rle_dec first x); auto.
    + right. right. exact H.
Qed.

(** The maximum [get_modification_statistics] gives of one quantity. *)
Lemma Rmax_list_events (value : ModificationEvent -> R)
    (ev : ModificationEvent) (evs : list ModificationEvent) :
  let m := Rmax_list (value ev) (map value evs) in
  (exists ev', In ev' (ev :: evs) /\ value ev' = m) /\
  forall ev', In ev' (ev :: evs) -> (value ev' <= m)%R.
Proof.
  intros m. split.
  - pose proof (Rmax_list_In (map value evs) (value ev)) as Hin.
    fold m in Hin. change (value ev :: map value evs)
      with (map value (ev :: evs)) in Hin.
    apply in_map_iff in Hin as (ev' & Hv & Hin). eauto.
  - destruct (Rmax_list_ge (map value evs) (value ev)) as [H1 H2].
    fold m in H1, H2. rewrite Forall_map, Forall_forall in H2.
    intros ev' [<- | Hin]; [exact H1|].
    apply H2, list_elem_of_In. exact Hin.
Qed.

(** Extra X7.  At a date [now], [get_modification_statistics] raises
    [OverflowError] when its window does not start at a date.  Otherwise
    it counts the events within the window; with no event the averages
    are 0 and neither a maximum nor the files are given; with events it
    lists their files in order, and each maximum is the value of one of
    the events and bounds the value of every event. *)
Theorem modification_statistics_spec (e : engine) (w now : Z) :
  let start := now - w * 1000000 in
  let recent :=
    List.filter (fun ev => start <=? ev_timestamp ev)
                (modification_history e) in
  datetime_min <= now <= datetime_max ->
  (~ datetime_min <= start <= datetime_max ->
   get_modification_statistics round float_sum e w now
   = Raise OverflowError) /\
  (datetime_min <= start <= datetime_max ->
   exists st,
     get_modification_statistics round float_sum e w now = Ok st /\
     files_modified st = length recent /\
     (recent = [] ->
      stat_avg_change_percent st = 0%R /\ stat_avg_entropy st = 0%R /\
      max_change_percent st = None /\ max_entropy st = None /\
      files st = None) /\
     (recent <> [] ->
      files st = Some (map ev_file_path recent) /\
      exists mc me,
        max_change_percent st = Some mc /\ max_entropy st = Some me /\
        (exists ev, In ev recent /\ ev_change_percent ev = mc) /\
        (exists ev, In ev recent /\ ev_entropy ev = me) /\
        forall ev, In ev recent ->
          (ev_change_percent ev <= mc)%R /\ (ev_entropy ev <= me)%R)).
Proof.
  intros start recent Hnow. unfold get_modification_statistics.
  pose proof (window_start now w Hnow) as Hstart. fold start in Hstart.
  assert (Hcases :
            (datetime_min <= start <= datetime_max /\
             (datetime_min <=? start) && (start <=? datetime_max) = true) \/
            (~ datetime_min <= start <= datetime_max /\
             (datetime_min <=? start) && (start <=? datetime_max) = false)).
  { destruct ((datetime_min <=? start) && (start <=? datetime_max)) eqn:Hr.
    - left. apply andb_true_iff in Hr as [H1 H2].
      apply Z.leb_le in H1, H2. auto.
    - right. split; [|reflexivity]. intros [H1 H2].
      apply andb_false_iff in Hr as [H | H]; apply Z.leb_gt in H; lia. }
  destruct Hcases as [[Hin Hr] | [Hout Hr]]; rewrite Hr in Hstart.
  - split; [intros Hno; contradiction|]. intros _.
    destruct (timedelta_seconds w) as [delta|ex]; [|discriminate].
    rewrite Hstart. unfold events_since. fold recent.
    destruct recent as [|ev evs].
    + eexists. split; [reflexivity|]. cbn.
      split; [reflexivity|]. split; [auto 6 | congruence].
    + eexists. split; [reflexivity|].
      cbn [files_modified stat_avg_change_percent stat_avg_entropy
           max_change_percent max_entropy files].
      split; [reflexivity|]. split; [discriminate|]. intros _.
      split; [reflexivity|].
      destruct (Rmax_list_events ev_change_percent ev evs) as [Hc1 Hc2].
      destruct (Rmax_list_events ev_entropy ev evs) as [He1 He2].
      eexists _, _. split; [reflexivity|]. split; [reflexivity|].
      split; [exact Hc1|]. split; [exact He1|].
      intros ev' Hev. split; [apply Hc2 | apply He2]; exact Hev.
  - split; [|intros Hyes; contradiction]. intros _.
    destruct (timedelta_seconds w) as [delta|ex].
    + rewrite Hstart. reflexivity.
    + injection Hstart as ->. reflexivity.
Qed.

End StatisticsFacts.

(* ===================================================================== *)
(** * Further properties of the recovery engine *)
(* ===================================================================== *)

Section BackupFacts.
Import RecoveryEngine RecoveryEngineExt.

Variable acc : access.

Lemma lock_file_result (p : string) (fs : filesystem) :
  exists fs1, _lock_file acc p fs = (Ok tt, fs1) /\
    (fs1 = fs \/
     exists f, fs !! p = Some (Regular f) /\ may_chmod acc = true /\
               fs1 = <[p := Regular (Inode (i_data f)
                                       (clear_bits (i_mode f) S_IWALL))]> fs).
Proof.
  unfold _lock_file, try_pass. eexists. split; [reflexivity|].
  unfold mbind, io_bind, bind, exists_, st_mode, chmod. cbn [fst snd].
  destruct (fs !! p) as [[|f]|] eqn:Hp.
  - rewrite bool_decide_eq_true_2 by eauto. rewrite Hp. cbn.
    rewrite Hp. destruct (may_chmod acc); simpl; auto.
  - rewrite bool_decide_eq_true_2 by eauto. rewrite Hp. cbn.
    rewrite Hp. destruct (may_chmod acc) eqn:Hc; simpl; [|auto].
    right. exists f. auto.
  - rewrite bool_decide_eq_false_2 by (intros [? ?]; discriminate).
    simpl. auto.
Qed.

Lemma restore_from_backup_success (e : engine) (target backup : string)
    (fs fs' : filesystem) (r : RecoveryResult) :
  restore_from_backup acc e target backup fs = (r, fs') ->
  success r = true ->
  fs !! target <> Some Directory ->
  exists b,
    fs !! backup = Some (Regular b) /\ target <> backup /\
    fs' = <[target := Regular (Inode (i_data b) 420)]> fs.
Proof.
  unfold restore_from_backup. intros H Hs Hdir.
  destruct (negb (bool_decide (is_Some (fs !! backup)))) eqn:Hb;
    [injection H as <- <-; discriminate|].
  destruct (lock_file_result target fs) as (fs1 & Hlock & Hfs1).
  unfold mbind, io_bind, bind in H. rewrite Hlock in H.
  assert (Hkey : exists fs2 b,
             copy2 acc backup target fs1 = (Ok tt, fs2) /\
             fs !! backup = Some (Regular b) /\ target <> backup /\
             may_chmod acc = true /\
             fs2 = <[target := Regular (Inode (i_data b) (i_mode b))]> fs).
  { destruct (copy2 acc backup target fs1) as [rc fs2] eqn:Hcopy.
    destruct rc as [[]|ex]; [|injection H as <- <-; discriminate].
    clear H. unfold copy2 in Hcopy.
    assert (Hdir1 : fs1 !! target <> Some Directory).
    { destruct Hfs1 as [-> | (f & _ & _ & ->)]; [exact Hdir|].
      rewrite lookup_insert_eq. discriminate. }
    assert (Hdst : match fs1 !! target with
                   | Some Directory => path_join target (basename backup)
                   | _ => target
                   end = target).
    { destruct (fs1 !! target) as [[|?]|]; [contradiction | reflexivity..]. }
    rewrite Hdst in Hcopy.
    destruct (fs1 !! backup) as [[|s]|] eqn:Hsrc.
    - destruct (bool_decide (backup = target)); discriminate.
    - destruct (bool_decide (backup = target)) eqn:Hsame; [discriminate|].
      apply bool_decide_eq_false in Hsame.
      destruct (negb (may_read acc (i_mode s))); [discriminate|].
      assert (Hsrc0 : fs !! backup = Some (Regular s)).
      { destruct Hfs1 as [-> | (f & _ & _ & ->)]; [exact Hsrc|].
        rewrite lookup_insert_ne in Hsrc by congruence. exact Hsrc. }
      assert (Hres : may_chmod acc = true /\
                     fs2 = <[target := Regular (Inode (i_data s) (i_mode s))]> fs1).
      { destruct (fs1 !! target) as [[|d]|].
        - contradiction.
        - destruct (may_write acc (i_mode d)); [|discriminate].
          destruct (may_chmod acc); [|discriminate].
          injection Hcopy as <-. auto.
        - destruct (may_chmod acc); [|discriminate].
          injection Hcopy as <-. auto. }
      destruct Hres as [Hch ->].
      exists (<[target := Regular (Inode (i_data s) (i_mode s))]> fs1), s.
      repeat split; try congruence.
      destruct Hfs1 as [-> | (f & _ & _ & ->)]; [reflexivity|].
      apply insert_insert_eq.
    - discriminate. }
  destruct Hkey as (fs2 & b & Hcopy & Hb0 & Hne & Hch & ->).
  rewrite Hcopy in H.
  unfold chmod at 1 in H. rewrite lookup_insert_eq, Hch in H.
  match type of H with
  | context [_unlock_file acc target ?X] =>
      replace X with (<[target := Regular (Inode (i_data b) 420)]> fs) in H
        by (symmetry; apply insert_insert_eq)
  end.
  unfold _unlock_file, try_pass, mbind, io_bind, bind, exists_, st_mode in H.
  cbn [fst snd] in H.
  rewrite bool_decide_eq_true_2 in H by (rewrite lookup_insert_eq; eauto).
  rewrite lookup_insert_eq in H. cbn [i_mode] in H.
  unfold chmod in H. rewrite lookup_insert_eq, Hch in H.
  cbn [i_mode i_data snd] in H.
  injection H as _ <-.
  exists b. split; [exact Hb0|]. split; [exact Hne|].
  apply insert_insert_eq.
Qed.

(** Extra X8.  A successful [restore_from_backup] onto a path that is not
    a directory leaves there a regular file with the bytes of the backup
    and permission bits [0o644]; at every other path there is the same
    regular file as before, or none as before, and a directory stays a
    directory; it never succeeds with the backup as its own target or
    with a backup that is not a regular file. *)
Theorem restore_from_backup_spec (e : engine) (target backup : string)
    (fs fs' : filesystem) (r : RecoveryResult) :
  restore_from_backup acc e target backup fs = (r, fs') ->
  success r = true ->
  fs !! target <> Some Directory ->
  exists b,
    fs !! backup = Some (Regular b) /\ target <> backup /\
    fs' !! target = Some (Regular (Inode (i_data b) 420)) /\
    (forall q f, q <> target ->
       fs' !! q = Some (Regular f) <-> fs !! q = Some (Regular f)) /\
    (forall q, fs !! q = Some Directory -> fs' !! q = Some Directory).
Proof.
  intros Hrun Hs Hdir.
  destruct (restore_from_backup_success e target backup fs fs' r Hrun Hs Hdir)
    as (b & Hb & Hne & ->).
  exists b. split; [exact Hb|]. split; [exact Hne|].
  split; [apply lookup_insert_eq|]. split.
  - intros q f Hq. rewrite lookup_insert_ne by congruence. reflexivity.
  - intros q Hq. rewrite lookup_insert_ne; [exact Hq|].
    intros <-. contradiction.
Qed.

Lemma create_backup_success (e : engine) (path stamp bp : string)
    (fs fs' : filesystem) :
  create_backup acc e path stamp fs = (Some bp, fs') ->
  bp = path_join (backup_dir e) (_generate_backup_name path stamp) /\
  bp <> path /\
  exists f, fs !! path = Some (Regular f) /\
    (fs !! bp <> Some Directory ->
     fs' = <[bp := Regular (Inode (i_data f) 384)]> fs).
Proof.
  unfold create_backup. intros H.
  destruct (fs !! path) as [[|f]|] eqn:Hp; try discriminate.
  set (bp0 := path_join (backup_dir e) (_generate_backup_name path stamp)) in *.
  unfold mbind, io_bind, bind in H.
  destruct (copy2 acc path bp0 fs) as [rc fs1] eqn:Hcopy.
  destruct rc as [[]|ex]; [|discriminate].
  destruct (chmod acc bp0 384 fs1) as [rc fs2] eqn:Hchmod.
  destruct rc as [[]|ex]; [|discriminate].
  injection H as Hbp <-. split; [symmetry; exact Hbp|].
  rewrite <- Hbp. clear Hbp.
  unfold copy2 in Hcopy. rewrite Hp in Hcopy.
  assert (Hne : bp0 <> path).
  { intros Heq. destruct (fs !! bp0) as [[|d]|] eqn:Hd.
    - rewrite Heq, Hp in Hd. discriminate.
    - rewrite bool_decide_eq_true_2 in Hcopy by congruence. discriminate.
    - rewrite Heq, Hp in Hd. discriminate. }
  split; [exact Hne|]. exists f. split; [reflexivity|]. intros Hdir.
  destruct (fs !! bp0) as [[|d]|] eqn:Hd; [contradiction| |].
  - cbv beta iota zeta in Hcopy. rewrite Hd in Hcopy.
    rewrite bool_decide_eq_false_2 in Hcopy by congruence.
    destruct (negb (may_read acc (i_mode f))); [discriminate|].
    destruct (may_write acc (i_mode d)); [|discriminate].
    destruct (may_chmod acc) eqn:Hch; [|discriminate].
    injection Hcopy as <-. unfold chmod in Hchmod.
    rewrite lookup_insert_eq, Hch in Hchmod.
    injection Hchmod as <-. apply insert_insert_eq.
  - cbv beta iota zeta in Hcopy. rewrite Hd in Hcopy.
    rewrite bool_decide_eq_false_2 in Hcopy by congruence.
    destruct (negb (may_read acc (i_mode f))); [discriminate|].
    destruct (may_chmod acc) eqn:Hch; [|discriminate].
    injection Hcopy as <-. unfold chmod in Hchmod.
    rewrite lookup_insert_eq, Hch in Hchmod.
    injection Hchmod as <-. apply insert_insert_eq.
Qed.

(** Extra X9.  [create_backup] fails, changing nothing, when the path
    holds no regular file.  When it succeeds it returns the path
    [backup_dir/name] with [name] the generated name, and, if that path is
    not a directory, the file system differs from the one before only
    there: a regular file with the bytes of the source and permission bits
    [0o600]. *)
Theorem create_backup_spec (e : engine) (path stamp : string)
    (fs : filesystem) :
  ((forall f, fs !! path <> Some (Regular f)) ->
   create_backup acc e path stamp fs = (None, fs)) /\
  (forall bp fs',
     create_backup acc e path stamp fs = (Some bp, fs') ->
     bp = path_join (backup_dir e) (_generate_backup_name path stamp) /\
     bp <> path /\
     exists f, fs !! path = Some (Regular f) /\
       (fs !! bp <> Some Directory ->
        fs' = <[bp := Regular (Inode (i_data f) 384)]> fs)).
Proof.
  split.
  - unfold create_backup. intros Hno.
    destruct (fs !! path) as [[|f]|]; try reflexivity.
    exfalso. apply (Hno f). reflexivity.
  - intros bp fs'. apply create_backup_success.
Qed.

(** Extra X10.  Backup and restore round trip: after [create_backup] of a
    file, whatever is done to the file system in between as long as the
    backup stays as it was and the path of the file does not become a
    directory, a successful [restore_from_backup] puts the bytes the file
    had at backup time back in its place. *)
Theorem backup_restore_round_trip (e : engine) (path stamp bp : string)
    (fs fs1 fs2 fs3 : filesystem) (f : inode) (r : RecoveryResult) :
  fs !! path = Some (Regular f) ->
  fs !! bp <> Some Directory ->
  create_backup acc e path stamp fs = (Some bp, fs1) ->
  fs2 !! bp = fs1 !! bp ->
  fs2 !! path <> Some Directory ->
  restore_from_backup acc e path bp fs2 = (r, fs3) ->
  success r = true ->
  fs3 !! path = Some (Regular (Inode (i_data f) 420)).
Proof.
  intros Hp Hdir Hcreate Hkeep Hdir2 Hrestore Hs.
  destruct (create_backup_success e path stamp bp fs fs1 Hcreate) as (_ & _ & f' & Hp' & Hfs1).
  rewrite Hp in Hp'. injection Hp' as <-.
  specialize (Hfs1 Hdir).
  destruct (restore_from_backup_success e path bp fs2 fs3 r Hrestore Hs Hdir2)
    as (b & Hb & _ & ->).
  rewrite lookup_insert_eq.
  rewrite Hkeep, Hfs1, lookup_insert_eq in Hb. injection Hb as <-.
  reflexivity.
Qed.

End BackupFacts.

Section HealingFacts.

Variable sha256 : bytes -> string.
Variable acc : access.

Lemma lookup_map {A B} (f : A -> B) (l : list A) (i : nat) :
  map f l !! i = f <$> (l !! i).
Proof.
  revert i. induction l as [|x l IH]; intros [|i]; simpl; auto.
Qed.

Lemma lookup_slice {A} (n k : nat) (l : list A) (j : nat) :
  (j < n)%nat -> take n (drop k l) !! j = l !! (k + j)%nat.
Proof.
  intros Hj. rewrite lookup_take_lt by exact Hj. apply lookup_drop.
Qed.

(** Extra X11.  Self-healing by blocks: let the reference vector be the
    hashes of the backup and let no block of the target collide with the
    block of the backup at the same index.  Then a successful
    [restore_blocks] of the indices that [compare_hashes] reports leaves
    the target with exactly the bytes of the backup. *)
Theorem restore_changed_blocks_heals (bs : Z) (e : RecoveryEngine.engine)
    (target backup : string) (fs fs' : filesystem)
    (r : RecoveryEngine.RecoveryResult) (dt db : bytes) :
  0 < bs ->
  RecoveryEngine.block_size e = bs ->
  content fs target = Some (Some dt) ->
  content fs backup = Some (Some db) ->
  (forall i x y,
     IntegrityEngine.file_blocks bs dt !! i = Some x ->
     IntegrityEngine.file_blocks bs db !! i = Some y ->
     sha256 x = sha256 y -> x = y) ->
  RecoveryEngine.restore_blocks acc e target backup
    (map Z.of_nat
       (fst (IntegrityEngine.compare_hashes
               (map sha256 (IntegrityEngine.file_blocks bs dt))
               (map sha256 (IntegrityEngine.file_blocks bs db)))))
    fs = (r, fs') ->
  RecoveryEngine.success r = true ->
  content fs' target = Some (Some db).
Proof.
  intros Hbs Hbse Ht Hb Hinj Hrun Hs.
  destruct (restore_blocks_existing acc e target backup _ fs fs' dt r Ht Hrun Hs)
    as (db' & data & cnt & Hdb & Hloop & _ & _ & Hfs').
  rewrite Hb in Hdb. injection Hdb as <-.
  rewrite Hfs', decide_True by reflexivity. do 2 f_equal.
  rewrite Hbse in Hloop.
  destruct (restore_loop_spec _ _ _ _ _ _ _ Hloop) as [Hkeep Hidx].
  pose proof (compare_hashes_In
                (map sha256 (IntegrityEngine.file_blocks bs dt))
                (map sha256 (IntegrityEngine.file_blocks bs db)))
    as Hchanged.
  remember (Z.to_nat bs) as n eqn:Hn.
  assert (Hpos : (0 < n)%nat) by lia.
  assert (Hid : bs = Z.of_nat n) by lia.
  assert (Hagree : forall o, (o < length db)%nat -> data !! o = db !! o).
  { intros o Ho.
    set (i := (o / n)%nat).
    assert (Hi : (i * n <= o < i * n + n)%nat).
    { subst i. pose proof (Nat.div_mod_eq o n).
      pose proof (Nat.mod_upper_bound o n ltac:(lia)). nia. }
    destruct (decide (map sha256 (IntegrityEngine.file_blocks bs dt) !! i
                      = map sha256 (IntegrityEngine.file_blocks bs db) !! i))
      as [Heq | Hne].
    - apply Hkeep; [exact Ho|].
      rewrite !lookup_map, Hid, !file_blocks_lookup in Heq by exact Hpos.
      rewrite (decide_True (P := (i * n < length db)%nat)) in Heq by lia.
      destruct (decide (i * n < length dt)%nat) as [Hlt | Hge];
        [|discriminate].
      simpl in Heq. injection Heq as Heq.
      assert (Hblk : take n (drop (i * n) dt) = take n (drop (i * n) db)).
      { apply (Hinj i); [| |exact Heq]; rewrite Hid, file_blocks_lookup by exact Hpos.
        - rewrite decide_True by exact Hlt. reflexivity.
        - rewrite decide_True by lia. reflexivity. }
      replace o with (i * n + (o - i * n))%nat by lia.
      rewrite <- !(lookup_slice n) by lia. rewrite Hblk. reflexivity.
    - apply (Hidx (Z.of_nat i)); [|nia|exact Ho].
      apply In_sorted, in_map, Hchanged. exact Hne. }
  apply list_eq. intros o.
  destruct (decide (o < length db)%nat) as [Hlt | Hge].
  - rewrite truncate_lookup; [apply Hagree; exact Hlt | exact Hlt |].
    apply lookup_lt_is_Some. rewrite Hagree by exact Hlt.
    apply lookup_lt_is_Some. exact Hlt.
  - rewrite (lookup_ge_None_2 db) by lia.
    apply lookup_ge_None_2. rewrite length_truncate. lia.
Qed.

End HealingFacts.

Section BlockingFacts.
Import RecoveryEngine RecoveryEngineExt.

Variable acc : access.

Lemma testbit_S_IWALL (k : Z) :
  0 <= k -> Z.testbit S_IWALL k = bool_decide (k = 1 \/ k = 4 \/ k = 7).
Proof.
  intros Hk. destruct (decide (k < 8)) as [Hlt | Hge].
  - assert (Hcases : k = 0 \/ k = 1 \/ k = 2 \/ k = 3 \/ k = 4 \/ k = 5
                     \/ k = 6 \/ k = 7) by lia.
    destruct Hcases as [-> | [-> | [-> | [-> | [-> | [-> | [-> | ->]]]]]]];
      reflexivity.
  - rewrite Z.bits_above_log2 by (unfold S_IWALL; simpl; lia).
    symmetry. apply bool_decide_eq_false. lia.
Qed.

Lemma testbit_S_IWUSR (k : Z) :
  0 <= k -> Z.testbit S_IWUSR k = bool_decide (k = 7).
Proof.
  intros Hk. destruct (decide (k < 8)) as [Hlt | Hge].
  - assert (Hcases : k = 0 \/ k = 1 \/ k = 2 \/ k = 3 \/ k = 4 \/ k = 5
                     \/ k = 6 \/ k = 7) by lia.
    destruct Hcases as [-> | [-> | [-> | [-> | [-> | [-> | [-> | ->]]]]]]];
      reflexivity.
  - rewrite Z.bits_above_log2 by (unfold S_IWUSR; simpl; lia).
    symmetry. apply bool_decide_eq_false. lia.
Qed.

Lemma clear_bits_no_write (mode : Z) :
  Z.land (clear_bits mode S_IWALL) S_IWALL = 0.
Proof.
  unfold clear_bits. rewrite <- Z.land_assoc.
  rewrite (Z.land_comm (Z.lnot S_IWALL)), Z.land_lnot_diag.
  apply Z.land_0_r.
Qed.

Lemma block_file_refused (path : string) (permanent : bool)
    (chattr : chattr_outcome) (d : disk) :
  d_files d !! path = None \/ path ∈ d_immutable d ->
  block_file acc path permanent chattr d = (false, d).
Proof.
  unfold block_file, chmod_on. intros [Hnone | Himm].
  - rewrite Hnone. reflexivity.
  - destruct (d_files d !! path) as [nd|]; [|reflexivity].
    rewrite bool_decide_eq_true_2 by exact Himm. reflexivity.
Qed.

Lemma block_file_regular (path : string) (permanent : bool)
    (chattr : chattr_outcome) (d : disk) (f : inode) :
  d_files d !! path = Some (Regular f) ->
  path ∉ d_immutable d -> may_chmod acc = true ->
  exists ok d',
    block_file acc path permanent chattr d = (ok, d') /\
    d_files d'
    = <[path := Regular (Inode (i_data f) (clear_bits (i_mode f) S_IWALL))]>
        (d_files d) /\
    Z.land (clear_bits (i_mode f) S_IWALL) S_IWALL = 0 /\
    (ok = false <-> permanent = true /\ chattr = Chattr_timeout) /\
    (forall q, q ∈ d_immutable d' <->
               q ∈ d_immutable d \/
               (q = path /\ permanent = true /\ chattr = Chattr_done)).
Proof.
  unfold block_file, chmod_on.
  intros Hf Hnot Hch. rewrite Hf.
  rewrite bool_decide_eq_false_2 by exact Hnot.
  unfold chmod. rewrite Hf, Hch. cbn [d_files d_immutable].
  destruct permanent, chattr; eexists _, _; (split; [reflexivity|]);
    cbn [d_files d_immutable];
    (split; [reflexivity|]); (split; [apply clear_bits_no_write|]);
    (split; [split; [discriminate || auto | intros [? ?]; congruence]|]);
    intros q; rewrite ?elem_of_union, ?elem_of_singleton;
    intuition congruence.
Qed.

(** Extra X12.  [block_file] returns false and changes nothing when the
    path is missing or carries the immutable attribute.  On a regular file
    without the attribute, whose bits the process may change, it clears
    the three write bits and keeps the other bits and the bytes; it sets
    the attribute exactly when the block is permanent and [chattr]
    succeeds; and it returns true unless [chattr] ran into its timeout. *)
Theorem block_file_spec (path : string) (permanent : bool)
    (chattr : chattr_outcome) (d : disk) :
  (d_files d !! path = None \/ path ∈ d_immutable d ->
   block_file acc path permanent chattr d = (false, d)) /\
  (forall f,
     d_files d !! path = Some (Regular f) ->
     path ∉ d_immutable d -> may_chmod acc = true ->
     exists ok d',
       block_file acc path permanent chattr d = (ok, d') /\
       d_files d'
       = <[path := Regular (Inode (i_data f) (clear_bits (i_mode f) S_IWALL))]>
           (d_files d) /\
       Z.land (clear_bits (i_mode f) S_IWALL) S_IWALL = 0 /\
       (ok = false <-> permanent = true /\ chattr = Chattr_timeout) /\
       (forall q, q ∈ d_immutable d' <->
                  q ∈ d_immutable d \/
                  (q = path /\ permanent = true /\ chattr = Chattr_done))).
Proof.
  split; [apply block_file_refused | intros f; apply block_file_regular].
Qed.

Lemma unblock_mode_bits (mode k : Z) :
  0 <= k ->
  Z.testbit (Z.lor (clear_bits mode S_IWALL) S_IWUSR) k
  = if bool_decide (k = 7) then true
    else if bool_decide (k = 1 \/ k = 4) then false
    else Z.testbit mode k.
Proof.
  intros Hk. unfold clear_bits.
  rewrite Z.lor_spec, Z.land_spec, Z.lnot_spec by exact Hk.
  rewrite testbit_S_IWALL, testbit_S_IWUSR by exact Hk.
  destruct (decide (k = 7)) as [->|H7].
  - rewrite !bool_decide_eq_true_2 by lia. apply orb_true_r.
  - rewrite (bool_decide_eq_false_2 (k = 7)) by exact H7.
    rewrite orb_false_r.
    destruct (decide (k = 1 \/ k = 4)) as [H14 | H14].
    + rewrite !bool_decide_eq_true_2 by lia. apply andb_false_r.
    + rewrite !bool_decide_eq_false_2 by lia. apply andb_true_r.
Qed.

(** Extra X13.  [unblock_file] does not undo [block_file]: after a
    temporary block and an unblock of a regular file the bytes are the
    same, the owner's write bit is set whether it was set before or not,
    the write bits of group and others are clear, and every other bit is
    as before. *)
Theorem block_then_unblock (path : string) (chattr : chattr_outcome)
    (d : disk) (f : inode) :
  d_files d !! path = Some (Regular f) ->
  path ∉ d_immutable d -> may_chmod acc = true ->
  chattr <> Chattr_timeout ->
  exists d1 d2 mode',
    block_file acc path false chattr d = (true, d1) /\
    unblock_file acc path chattr d1 = (true, d2) /\
    d_files d2 = <[path := Regular (Inode (i_data f) mode')]> (d_files d) /\
    forall k, 0 <= k ->
      Z.testbit mode' k
      = if bool_decide (k = 7) then true
        else if bool_decide (k = 1 \/ k = 4) then false
        else Z.testbit (i_mode f) k.
Proof.
  intros Hf Hnot Hch Hto.
  destruct (block_file_regular path false chattr d f Hf Hnot Hch) as (ok & d1 & Hb & Hfiles & _ & Hok & Himm).
  assert (ok = true) as ->.
  { destruct ok; [reflexivity|]. destruct Hok as [Hok _].
    destruct (Hok eq_refl) as [? _]. discriminate. }
  assert (Hnot1 : path ∉ d_immutable d1).
  { intros Hin. apply Himm in Hin as [Hin | (_ & ? & _)];
      [contradiction | discriminate]. }
  assert (Hun : exists d2,
             unblock_file acc path chattr d1 = (true, d2) /\
             d_files d2
             = <[path := Regular (Inode (i_data f)
                                    (Z.lor (clear_bits (i_mode f) S_IWALL)
                                           S_IWUSR))]> (d_files d)).
  { unfold unblock_file, chmod_on.
    rewrite Hfiles, lookup_insert_eq.
    destruct chattr; [| |contradiction].
    - cbn [d_files d_immutable].
      rewrite ?Hfiles, lookup_insert_eq.
      rewrite bool_decide_eq_false_2
        by (rewrite elem_of_difference; intros [? _]; contradiction).
      unfold chmod. rewrite lookup_insert_eq, Hch.
      cbn [i_mode i_data d_files].
      eexists. split; [reflexivity|]. apply insert_insert_eq.
    - rewrite ?Hfiles, lookup_insert_eq.
      rewrite bool_decide_eq_false_2 by exact Hnot1.
      unfold chmod. rewrite ?Hfiles, lookup_insert_eq, Hch.
      cbn [i_mode i_data d_files].
      eexists. split; [reflexivity|]. apply insert_insert_eq. }
  destruct Hun as (d2 & Hun & Hfiles2).
  exists d1, d2, (Z.lor (clear_bits (i_mode f) S_IWALL) S_IWUSR).
  split; [exact Hb|]. split; [exact Hun|]. split; [exact Hfiles2|].
  intros k Hk. apply unblock_mode_bits. exact Hk.
Qed.

Lemma block_file_frame (path : string) (permanent : bool)
    (chattr : chattr_outcome) (d d' : disk) (ok : bool) :
  block_file acc path permanent chattr d = (ok, d') ->
  (forall q, content (d_files d') q = content (d_files d) q) /\
  (forall q, q <> path ->
     d_files d' !! q = d_files d !! q /\
     (q ∈ d_immutable d' <-> q ∈ d_immutable d)).
Proof.
  unfold block_file, chmod_on. intros H.
  destruct (d_files d !! path) as [nd|] eqn:Hp;
    [|injection H as <- <-; split; [reflexivity | tauto]].
  destruct (bool_decide (path ∈ d_immutable d));
    [injection H as <- <-; split; [reflexivity | tauto]|].
  match type of H with
  | context [chmod acc path ?m (d_files d)] =>
      destruct (chmod acc path m (d_files d)) as [rc fs1] eqn:Hc
  end.
  assert (Hfs1 : (forall q, content fs1 q = content (d_files d) q) /\
                 (forall q, q <> path -> fs1 !! q = d_files d !! q)).
  { split; [eapply chmod_content; exact Hc|].
    intros q Hq. unfold chmod in Hc. rewrite Hp in Hc.
    destruct (may_chmod acc); [|injection Hc as _ <-; reflexivity].
    destruct nd; injection Hc as _ <-; [reflexivity|].
    apply lookup_insert_ne. congruence. }
  destruct Hfs1 as [Hcont Hother].
  destruct rc as [[]|ex]; [|injection H as <- <-; split; [exact Hcont|];
                             intros q Hq; split; [apply Hother; exact Hq | tauto]].
  destruct permanent; [destruct chattr|]; injection H as <- <-;
    cbn [d_files d_immutable]; (split; [exact Hcont|]);
    intros q Hq; (split; [apply Hother; exact Hq|]);
    rewrite ?elem_of_union, ?elem_of_singleton; tauto.
Qed.

Lemma emergency_block_loop_counts (chattr : string -> chattr_outcome)
    (paths : list string) :
  forall (blocked errors : nat) (d : disk),
  let out := emergency_block_loop acc paths chattr blocked errors d in
  (fst (fst out) + snd (fst out) = blocked + errors + length paths)%nat /\
  (blocked <= fst (fst out))%nat /\
  (forall q, content (d_files (snd out)) q = content (d_files d) q) /\
  (forall q, ~ In q paths ->
     d_files (snd out) !! q = d_files d !! q).
Proof.
  induction paths as [|p paths IH]; intros blocked errors d.
  - simpl. repeat split; auto; lia.
  - cbn [emergency_block_loop].
    destruct (block_file acc p true (chattr p) d) as [ok d1] eqn:Hb.
    destruct (block_file_frame _ _ _ _ _ _ Hb) as [Hcont Hother].
    destruct ok.
    + destruct (IH (S blocked) errors d1) as (H1 & H2 & H3 & H4).
      cbv zeta in *. simpl length. repeat split; try lia.
      * intros q. rewrite H3. apply Hcont.
      * intros q Hq. rewrite H4 by (intros ?; apply Hq; right; assumption).
        apply Hother. intros ->. apply Hq. left. reflexivity.
    + destruct (IH blocked (S errors) d1) as (H1 & H2 & H3 & H4).
      cbv zeta in *. simpl length. repeat split; try lia.
      * intros q. rewrite H3. apply Hcont.
      * intros q Hq. rewrite H4 by (intros ?; apply Hq; right; assumption).
        apply Hother. intros ->. apply Hq. left. reflexivity.
Qed.

Lemma emergency_block_loop_good (chattr : string -> chattr_outcome)
    (paths : list string) :
  may_chmod acc = true ->
  forall (blocked errors : nat) (d : disk),
  NoDup paths ->
  (forall p, In p paths -> (p ∉ d_immutable d) /\ chattr p <> Chattr_timeout) ->
  let out := emergency_block_loop acc paths chattr blocked errors d in
  fst (fst out)
  = (blocked
     + length (List.filter
                 (fun p => bool_decide (is_Some (d_files d !! p))) paths))%nat /\
  forall p f, In p paths -> d_files d !! p = Some (Regular f) ->
    d_files (snd out) !! p
    = Some (Regular (Inode (i_data f) (clear_bits (i_mode f) S_IWALL))).
Proof.
  intros Hch. induction paths as [|p paths IH];
    intros blocked errors d Hnd Hgood.
  - simpl. split; [lia | intros ? ? []].
  - apply NoDup_cons in Hnd as [Hnotin Hnd].
    rewrite list_elem_of_In in Hnotin.
    destruct (Hgood p (or_introl eq_refl)) as [Himm Hto].
    cbn [emergency_block_loop List.filter].
    destruct (block_file acc p true (chattr p) d) as [ok d1] eqn:Hb.
    destruct (block_file_frame _ _ _ _ _ _ Hb) as [_ Hother].
    assert (Hgood1 : forall q, In q paths ->
               (q ∉ d_immutable d1) /\ chattr q <> Chattr_timeout).
    { intros q Hq. destruct (Hgood q (or_intror Hq)) as [Hqi Hqt].
      split; [|exact Hqt].
      assert (q <> p) by (intros ->; contradiction).
      destruct (Hother q H) as [_ Hi]. rewrite Hi. exact Hqi. }
    assert (Hfilter : List.filter
                        (fun q => bool_decide (is_Some (d_files d1 !! q))) paths
                      = List.filter
                          (fun q => bool_decide (is_Some (d_files d !! q))) paths).
    { apply filter_ext_in. intros q Hq.
      assert (q <> p) by (intros ->; contradiction).
      destruct (Hother q H) as [-> _]. reflexivity. }
    assert (Hhead : (ok = bool_decide (is_Some (d_files d !! p))) /\
                    forall f, d_files d !! p = Some (Regular f) ->
                      d_files d1 !! p
                      = Some (Regular (Inode (i_data f)
                                         (clear_bits (i_mode f) S_IWALL)))).
    { destruct (d_files d !! p) as [[|f]|] eqn:Hp.
      - split; [|discriminate].
        rewrite bool_decide_eq_true_2 by eauto.
        unfold block_file, chmod_on, chmod in Hb.
        rewrite Hp, (bool_decide_eq_false_2 _ Himm), Hch in Hb.
        destruct (chattr p); [| |contradiction]; injection Hb as <- _; reflexivity.
      - destruct (block_file_regular p true (chattr p) d f Hp Himm Hch) as (ok' & d1' & Hb' & Hfiles & _ & Hok & _).
        rewrite Hb in Hb'. injection Hb' as <- <-.
        rewrite bool_decide_eq_true_2 by eauto. split.
        + destruct ok; [reflexivity|]. destruct Hok as [Hok _].
          destruct (Hok eq_refl) as [_ ?]. contradiction.
        + intros f' Hf'. injection Hf' as <-.
          rewrite Hfiles. apply lookup_insert_eq.
      - split; [|discriminate].
        rewrite bool_decide_eq_false_2 by (intros [? ?]; discriminate).
        rewrite block_file_refused in Hb by (left; exact Hp). injection Hb as <- _.
        reflexivity. }
    destruct Hhead as [Hok Hfile].
    assert (Hrest : forall b e,
               let out := emergency_block_loop acc paths chattr b e d1 in
               fst (fst out)
               = (b + length (List.filter
                                (fun q => bool_decide (is_Some (d_files d !! q)))
                                paths))%nat /\
               forall q f, In q (p :: paths) ->
                 d_files d !! q = Some (Regular f) ->
                 d_files (snd out) !! q
                 = Some (Regular (Inode (i_data f)
                                    (clear_bits (i_mode f) S_IWALL)))).
    { intros b e. destruct (IH b e d1 Hnd Hgood1) as [Hc Hf].
      destruct (emergency_block_loop_counts chattr paths b e d1)
        as (_ & _ & _ & Hframe).
      cbv zeta in *. rewrite Hfilter in Hc. split; [exact Hc|].
      intros q f [<- | Hq] Hqf.
      - rewrite Hframe by exact Hnotin. apply Hfile. exact Hqf.
      - apply Hf; [exact Hq|].
        assert (q <> p) by (intros ->; contradiction).
        destruct (Hother q H) as [-> _]. exact Hqf. }
    rewrite <- Hok. destruct ok.
    + destruct (Hrest (S blocked) errors) as [Hc Hf]. cbv zeta in *.
      split; [rewrite Hc; simpl; lia | exact Hf].
    + destruct (Hrest blocked (S errors)) as [Hc Hf]. cbv zeta in *.
      split; [rewrite Hc; simpl; lia | exact Hf].
Qed.

(** Extra X14.  [emergency_block_all] counts every path once, as blocked
    or as an error, and changes the bytes of no file.  When the process
    may change permission bits, the paths are distinct, none carries the
    immutable attribute and [chattr] never runs into its timeout, the
    blocked paths are exactly the existing ones, and every regular file
    among them ends with its three write bits clear. *)
Theorem emergency_block_all_spec (paths : list string)
    (chattr : string -> chattr_outcome) (d : disk) :
  let out := emergency_block_all acc paths chattr d in
  (fst (fst out) + snd (fst out) = length paths)%nat /\
  (forall q, content (d_files (snd out)) q = content (d_files d) q) /\
  (may_chmod acc = true -> NoDup paths ->
   (forall p, In p paths ->
      (p ∉ d_immutable d) /\ chattr p <> Chattr_timeout) ->
   fst (fst out)
   = length (List.filter
               (fun p => bool_decide (is_Some (d_files d !! p))) paths) /\
   forall p f, In p paths -> d_files d !! p = Some (Regular f) ->
     exists mode,
       d_files (snd out) !! p = Some (Regular (Inode (i_data f) mode)) /\
       Z.land mode S_IWALL = 0).
Proof.
  unfold emergency_block_all.
  destruct (emergency_block_loop_counts chattr paths 0 0 d)
    as (Hsum & _ & Hcont & _).
  cbv zeta in *. split; [simpl in Hsum; exact Hsum|]. split; [exact Hcont|].
  intros Hch Hnd Hgood.
  destruct (emergency_block_loop_good chattr paths Hch 0 0 d Hnd Hgood)
    as [Hc Hf].
  cbv zeta in *. split; [exact Hc|].
  intros p f Hp Hpf. eexists. split; [apply Hf; assumption|].
  apply clear_bits_no_write.
Qed.

End BlockingFacts.

(* ===================================================================== *)
(** * Further properties of the hash storage *)
(* ===================================================================== *)

Section StoreFacts.
Import HashStorage HashStorageExt.

Lemma filter_filter_same {A} (f g : A -> bool) (l : list A) :
  (forall x, In x l -> f x = true -> g x = true) ->
  List.filter f (List.filter g l) = List.filter f l.
Proof.
  induction l as [|x l IH]; intros H; simpl; [reflexivity|].
  assert (IH' : List.filter f (List.filter g l) = List.filter f l).
  { apply IH. intros y Hy. apply H. right. exact Hy. }
  destruct (g x) eqn:Hg; simpl.
  - rewrite IH'. reflexivity.
  - destruct (f x) eqn:Hf; [|exact IH'].
    rewrite (H x (or_introl eq_refl) Hf) in Hg. discriminate.
Qed.

Lemma filter_map_commute {A} (f : A -> bool) (g : A -> A) (l : list A) :
  (forall x, f (g x) = f x) ->
  List.filter f (map g l) = map g (List.filter f l).
Proof.
  intros H. induction l as [|x l IH]; simpl; [reflexivity|].
  rewrite H. destruct (f x); simpl; rewrite IH; reflexivity.
Qed.

Lemma max_id_ge (ids : list Z) (x : Z) : In x ids -> x <= max_id ids.
Proof.
  induction ids as [|y ids IH]; simpl; [intros []|].
  intros [-> | H]; [lia|]. specialize (IH H). lia.
Qed.

Lemma next_rowid_fresh (seq : Z) (ids : list Z) (x : Z) :
  In x ids -> x < next_rowid seq ids.
Proof. intros H. apply max_id_ge in H. unfold next_rowid. lia. Qed.

Lemma NoDup_map_eq {A B} (f : A -> B) (l : list A) (x y : A) :
  NoDup (map f l) -> In x l -> In y l -> f x = f y -> x = y.
Proof.
  induction l as [|z l IH]; simpl; [intros _ []|].
  intros Hnd Hx Hy Heq. apply NoDup_cons in Hnd as [Hz Hnd].
  rewrite list_elem_of_In in Hz.
  destruct Hx as [-> | Hx], Hy as [-> | Hy].
  - reflexivity.
  - exfalso. apply Hz. rewrite Heq. apply in_map. exact Hy.
  - exfalso. apply Hz. rewrite <- Heq. apply in_map. exact Hx.
  - apply IH; assumption.
Qed.

Lemma NoDup_map_filter {A B} (f : A -> B) (g : A -> bool) (l : list A) :
  NoDup (map f l) -> NoDup (map f (List.filter g l)).
Proof.
  induction l as [|x l IH]; simpl; [auto|].
  intros Hnd. apply NoDup_cons in Hnd as [Hx Hnd].
  destruct (g x); simpl; [|auto].
  apply NoDup_cons. split; [|auto].
  rewrite list_elem_of_In in *. intros Hin. apply Hx.
  apply in_map_iff in Hin as (y & Hy & Hin).
  apply filter_In in Hin as [Hin _].
  apply in_map_iff. eauto.
Qed.

Lemma insert_block_hashes_appends (file_id : Z) (hashes : list string) :
  forall (k : Z) (db db' : database),
  insert_block_hashes file_id k hashes db = Some db' ->
  files db' = files db /\
  exists rows, block_hashes_tbl db' = block_hashes_tbl db ++ rows /\
               Forall (fun b => b_file_id b = file_id) rows.
Proof.
  induction hashes as [|h hashes IH]; intros k db db' H; simpl in H.
  - injection H as <-. split; [reflexivity|]. exists [].
    rewrite app_nil_r. split; [reflexivity | constructor].
  - destruct (insert_block_hash file_id k h db) as [db1|] eqn:H1;
      [|discriminate].
    destruct (IH _ _ _ H) as (Hf & rows & Htbl & Hrows).
    unfold insert_block_hash in H1.
    destruct (existsb _ _); [discriminate|].
    destruct (_ && _); [discriminate|].
    injection H1 as <-. simpl in *. split; [exact Hf|].
    eexists (_ :: rows). split.
    + rewrite Htbl, <- app_assoc. reflexivity.
    + constructor; [reflexivity | exact Hrows].
Qed.

(** What decides the record [get_file] returns for a path. *)
Lemma get_file_ext (db db' : database) (q : string) :
  List.filter (has_path q) (files db') = List.filter (has_path q) (files db) ->
  (forall row, In row (files db) -> has_path q row = true ->
     List.filter (fun b => b_file_id b =? f_id row) (block_hashes_tbl db')
     = List.filter (fun b => b_file_id b =? f_id row) (block_hashes_tbl db)) ->
  get_file db' q = get_file db q.
Proof.
  intros Hfiles Hrows. unfold get_file. rewrite Hfiles.
  destruct (List.filter (has_path q) (files db)) as [|row rest] eqn:Hsel;
    [reflexivity|].
  assert (Hin : In row (List.filter (has_path q) (files db)))
    by (rewrite Hsel; left; reflexivity).
  apply filter_In in Hin as [Hin Hq].
  rewrite (Hrows row Hin Hq). reflexivity.
Qed.

Lemma filter_id_skip (file_id other : Z) (tbl rows : list block_row) :
  file_id <> other ->
  Forall (fun b => b_file_id b = other) rows ->
  List.filter (fun b => b_file_id b =? file_id)
    (List.filter (fun b => negb (b_file_id b =? other)) tbl ++ rows)
  = List.filter (fun b => b_file_id b =? file_id) tbl.
Proof.
  intros Hne Hrows. rewrite List.filter_app.
  rewrite filter_filter_same.
  - rewrite (filter_none _ rows); [apply app_nil_r|].
    eapply Forall_impl; [exact Hrows|]. simpl. intros b ->.
    apply Z.eqb_neq. congruence.
  - intros b _ Hb. apply Z.eqb_eq in Hb. apply negb_true_iff, Z.eqb_neq.
    congruence.
Qed.

Lemma delete_files_blocks (db : database) (p : string) (file_id : Z) :
  ~ In file_id (map f_id (List.filter (has_path p) (files db))) ->
  List.filter (fun b => b_file_id b =? file_id)
    (block_hashes_tbl (fst (delete_files (has_path p) db)))
  = List.filter (fun b => b_file_id b =? file_id) (block_hashes_tbl db).
Proof.
  intros Hnot. unfold delete_files. cbn [fst block_hashes_tbl].
  destruct (foreign_keys db); [|reflexivity].
  apply filter_filter_same. intros b _ Hb. apply Z.eqb_eq in Hb.
  apply negb_true_iff, not_true_is_false. intros Href.
  unfold refers_to in Href. apply existsb_exists in Href as (x & Hx & Heq).
  apply Z.eqb_eq in Heq. apply Hnot. congruence.
Qed.

Lemma other_path_rows (db : database) (p q : string) (row : file_row) :
  well_formed db -> p <> q ->
  In row (files db) -> has_path q row = true ->
  ~ In (f_id row) (map f_id (List.filter (has_path p) (files db))).
Proof.
  intros [_ Hids] Hne Hin Hq Hmem.
  apply in_map_iff in Hmem as (r' & Hid & Hr').
  apply filter_In in Hr' as [Hr' Hp].
  assert (r' = row) by (eapply NoDup_map_eq; eauto). subst r'.
  apply has_path_eq in Hp, Hq. congruence.
Qed.

Lemma filter_other_path (p q : string) (l : list file_row) :
  p <> q ->
  List.filter (has_path q) (List.filter (fun r => negb (has_path p r)) l)
  = List.filter (has_path q) l.
Proof.
  intros Hne. apply filter_filter_same. intros r _ Hq.
  apply negb_true_iff, not_true_is_false. intros Hp.
  apply has_path_eq in Hp, Hq. congruence.
Qed.

(** Extra X15.  The store keeps [file_path] and [id] unique: the empty
    store has the property, and [add_file], [update_file], [remove_file],
    [set_trust_status] and [clear_all] preserve it. *)
Theorem methods_keep_well_formed (db : database) (path : string)
    (size bsize : Z) (hashes : list string) (backup : option string)
    (now : Z) (flag : bool) :
  well_formed db ->
  well_formed _init_database /\
  well_formed (snd (add_file db path size bsize hashes backup now)) /\
  well_formed (snd (update_file db path size hashes backup now)) /\
  well_formed (snd (remove_file db path)) /\
  well_formed (snd (set_trust_status db path flag)) /\
  well_formed (snd (clear_all db)).
Proof.
  intros [Hpaths Hids]. unfold well_formed.
  split; [simpl; split; constructor|]. split; [|split; [|split; [|split]]].
  - unfold add_file.
    destruct (insert_or_replace_file _ _ _ _ _ _ _ _ db) as [db1 fid] eqn:Hi.
    destruct (insert_block_hashes _ _ _ _) as [db3|] eqn:H3;
      [|simpl; auto].
    apply insert_block_hashes_appends in H3 as [Hf _].
    cbn [snd]. rewrite Hf. cbn [delete_block_hashes files].
    unfold insert_or_replace_file in Hi. injection Hi as <- <-.
    cbn [files delete_files fst]. rewrite !map_app. simpl.
    split.
    + apply NoDup_app. split; [apply NoDup_map_filter; exact Hpaths|].
      split; [|apply NoDup_singleton].
      intros x Hx Hx'. apply list_elem_of_singleton in Hx'. subst x.
      rewrite list_elem_of_In in Hx.
      apply in_map_iff in Hx as (r & Hr & Hin).
      apply filter_In in Hin as [_ Hin].
      apply negb_true_iff in Hin. apply has_path_eq in Hr. congruence.
    + apply NoDup_app. split; [apply NoDup_map_filter; exact Hids|].
      split; [|apply NoDup_singleton].
      intros x Hx Hx'. apply list_elem_of_singleton in Hx'. subst x.
      rewrite list_elem_of_In in Hx.
      apply (next_rowid_fresh (files_seq db)) in Hx. lia.
  - unfold update_file.
    destruct (List.filter (has_path path) (files db)) as [|row rest];
      [simpl; auto|].
    destruct (insert_block_hashes _ _ _ _) as [db3|] eqn:H3;
      [|simpl; auto].
    apply insert_block_hashes_appends in H3 as [Hf _].
    cbn [snd]. rewrite Hf. cbn [delete_block_hashes set_files files].
    rewrite !map_map.
    assert (Hp : map (fun r => f_file_path (update_file_row (f_id row) size
                        (Z.of_nat (length hashes)) now backup r)) (files db)
                 = map f_file_path (files db)).
    { apply map_ext. intros r. unfold update_file_row.
      destruct (f_id r =? f_id row); reflexivity. }
    assert (Hi : map (fun r => f_id (update_file_row (f_id row) size
                        (Z.of_nat (length hashes)) now backup r)) (files db)
                 = map f_id (files db)).
    { apply map_ext. intros r. unfold update_file_row.
      destruct (f_id r =? f_id row); reflexivity. }
    rewrite Hp, Hi. auto.
  - unfold remove_file, delete_files. cbn [snd files].
    split; apply NoDup_map_filter; assumption.
  - unfold set_trust_status. cbn [snd set_files files]. rewrite !map_map.
    assert (Hp : forall g : file_row -> file_row,
               (forall r, f_file_path (g r) = f_file_path r) ->
               (forall r, f_id (g r) = f_id r) ->
               NoDup (map (fun r => f_file_path (g r)) (files db)) /\
               NoDup (map (fun r => f_id (g r)) (files db))).
    { intros g H1 H2.
      rewrite (map_ext _ f_file_path) by exact H1.
      rewrite (map_ext _ f_id) by exact H2. auto. }
    apply Hp; intros r; destruct (has_path path r); reflexivity.
  - simpl. split; constructor.
Qed.

Lemma add_file_frame (db : database) (p q : string)
    (size bsize : Z) (hashes : list string) (backup : option string)
    (now : Z) :
  well_formed db -> p <> q ->
  get_file (snd (add_file db p size bsize hashes backup now)) q
    = get_file db q.
Proof.
  intros Hwf Hne.
  unfold add_file.
  destruct (insert_or_replace_file _ _ _ _ _ _ _ _ db) as [db1 fid] eqn:Hi.
  destruct (insert_block_hashes _ _ _ _) as [db3|] eqn:H3;
    [|reflexivity].
  apply insert_block_hashes_appends in H3 as (Hf & rows & Htbl & Hrows).
  cbn [snd]. unfold insert_or_replace_file in Hi. injection Hi as <- <-.
  apply get_file_ext.
  - rewrite Hf. cbn [delete_block_hashes files delete_files fst].
    rewrite List.filter_app, filter_other_path by exact Hne.
    cbn [List.filter]. unfold has_path at 2. cbn [f_file_path].
    assert ((p =? q)%string = false) as -> by (apply String.eqb_neq; exact Hne).
    apply app_nil_r.
  - intros row Hin Hq. rewrite Htbl.
    cbn [delete_block_hashes block_hashes_tbl].
    rewrite filter_id_skip.
    + apply (delete_files_blocks db p).
      apply (other_path_rows db p q); assumption.
    + assert (Hlt : f_id row
                    < next_rowid (files_seq (fst (delete_files (has_path p) db)))
                        (map f_id (files (fst (delete_files (has_path p) db))))).
      { apply next_rowid_fresh. apply in_map.
        cbn [delete_files fst files]. apply filter_In. split; [exact Hin|].
        apply negb_true_iff, not_true_is_false. intros Hp.
        apply has_path_eq in Hp, Hq. congruence. }
      cbn [delete_files fst files files_seq] in Hlt. lia.
    + exact Hrows.
Qed.

Lemma update_file_frame (db : database) (p q : string)
    (size : Z) (hashes : list string) (backup : option string) (now : Z) :
  well_formed db -> p <> q ->
  get_file (snd (update_file db p size hashes backup now)) q
    = get_file db q.
Proof.
  intros Hwf Hne.
  unfold update_file.
  destruct (List.filter (has_path p) (files db)) as [|row rest] eqn:Hsel;
    [reflexivity|].
  destruct (insert_block_hashes _ _ _ _) as [db3|] eqn:H3;
    [|reflexivity].
  apply insert_block_hashes_appends in H3 as (Hf & rows & Htbl & Hrows).
  cbn [snd].
  assert (Hrow : In row (files db) /\ has_path p row = true).
  { apply filter_In. rewrite Hsel. left. reflexivity. }
  destruct Hrow as [Hrow Hrowp].
  assert (Hdiff : forall r, In r (files db) -> has_path q r = true ->
                    f_id r <> f_id row).
  { intros r Hr Hq Heq. destruct Hwf as [_ Hids].
    assert (r = row) by (eapply NoDup_map_eq; eauto). subst r.
    apply has_path_eq in Hrowp, Hq. congruence. }
  apply get_file_ext.
  - rewrite Hf. cbn [delete_block_hashes set_files files].
    rewrite filter_map_commute.
    + rewrite <- (map_id (List.filter (has_path q) (files db))) at 2.
      apply map_ext_in. intros r Hr. apply filter_In in Hr as [Hr Hq].
      unfold update_file_row.
      rewrite (proj2 (Z.eqb_neq _ _) (Hdiff r Hr Hq)). reflexivity.
    + intros r. unfold update_file_row, has_path.
      destruct (f_id r =? f_id row); reflexivity.
  - intros r Hr Hq. rewrite Htbl.
    cbn [delete_block_hashes set_files block_hashes_tbl].
    apply filter_id_skip; [apply Hdiff; assumption | exact Hrows].
Qed.

Lemma remove_file_frame (db : database) (p q : string) :
  well_formed db -> p <> q ->
  get_file (snd (remove_file db p)) q = get_file db q.
Proof.
  intros Hwf Hne.
  unfold remove_file.
  destruct (delete_files (has_path p) db) as [db' n] eqn:Hd. cbn [snd].
  replace db' with (fst (delete_files (has_path p) db)) by (rewrite Hd; reflexivity).
  apply get_file_ext.
  - cbn [delete_files fst files]. apply filter_other_path. exact Hne.
  - intros row Hin Hq. apply delete_files_blocks.
    apply (other_path_rows db p q); assumption.
Qed.

Lemma set_trust_status_frame (db : database) (p q : string)
    (flag : bool) :
  well_formed db -> p <> q ->
  get_file (snd (set_trust_status db p flag)) q = get_file db q.
Proof.
  intros Hwf Hne.
  unfold set_trust_status. cbn [snd]. apply get_file_ext.
  - cbn [set_files files]. rewrite filter_map_commute.
    + rewrite <- (map_id (List.filter (has_path q) (files db))) at 2.
      apply map_ext_in. intros r Hr. apply filter_In in Hr as [_ Hq].
      destruct (has_path p r) eqn:Hp; [|reflexivity].
      apply has_path_eq in Hp, Hq. congruence.
    + intros r. destruct (has_path p r); reflexivity.
  - intros row _ _. reflexivity.
Qed.

(** Extra X16.  On a store with unique paths and ids, [add_file],
    [update_file], [remove_file] and [set_trust_status] on one path leave
    the record of every other path as it is. *)
Theorem methods_frame (db : database) (p q : string)
    (size bsize : Z) (hashes : list string) (backup : option string)
    (now : Z) (flag : bool) :
  well_formed db -> p <> q ->
  get_file (snd (add_file db p size bsize hashes backup now)) q
    = get_file db q /\
  get_file (snd (update_file db p size hashes backup now)) q
    = get_file db q /\
  get_file (snd (remove_file db p)) q = get_file db q /\
  get_file (snd (set_trust_status db p flag)) q = get_file db q.
Proof.
  intros Hwf Hne. split; [|split; [|split]].
  - apply add_file_frame; assumption.
  - apply update_file_frame; assumption.
  - apply remove_file_frame; assumption.
  - apply set_trust_status_frame; assumption.
Qed.

Lemma file_exists_get_file (db : database) (path : string) :
  file_exists db path = false <-> get_file db path = None.
Proof.
  unfold file_exists, get_file.
  destruct (List.filter (has_path path) (files db)); split;
    (reflexivity || discriminate).
Qed.

Lemma filter_nil_none {A} (f : A -> bool) (l : list A) :
  List.filter f l = [] -> Forall (fun x => f x = false) l.
Proof.
  intros H. rewrite Forall_forall. intros x Hx.
  apply list_elem_of_In in Hx.
  destruct (f x) eqn:Hf; [|reflexivity].
  assert (Hin : In x (List.filter f l)) by (apply filter_In; auto).
  rewrite H in Hin. destruct Hin.
Qed.

Lemma delete_files_nothing (db : database) (path : string) :
  List.filter (has_path path) (files db) = [] ->
  delete_files (has_path path) db = (db, 0%nat).
Proof.
  intros Hsel. unfold delete_files. rewrite Hsel. simpl.
  rewrite (filter_all (fun r => negb (has_path path r))).
  - rewrite (filter_all (fun b => negb (refers_to [] b)))
      by (rewrite Forall_forall; reflexivity).
    destruct db as [f t s1 s2 fk]; destruct fk; reflexivity.
  - eapply Forall_impl; [apply filter_nil_none; exact Hsel|].
    simpl. intros r ->. reflexivity.
Qed.

Lemma filter_path_removed (db : database) (path : string) :
  List.filter (has_path path) (files (snd (remove_file db path))) = [].
Proof.
  unfold remove_file, delete_files. cbn [snd files].
  apply filter_none. rewrite Forall_forall. intros r Hr.
  apply list_elem_of_In, filter_In in Hr as [_ Hr].
  apply negb_true_iff in Hr. exact Hr.
Qed.

Lemma remove_file_get_file (db : database) (path : string) :
  get_file (snd (remove_file db path)) path = None.
Proof.
  unfold get_file. rewrite filter_path_removed. reflexivity.
Qed.

(** Extra X17.  [remove_file] answers whether the path was stored;
    afterwards the path is not stored, and a second [remove_file] answers
    [False] and changes nothing. *)
Theorem remove_file_spec (db : database) (path : string) :
  fst (remove_file db path) = Ok (file_exists db path) /\
  get_file (snd (remove_file db path)) path = None /\
  file_exists (snd (remove_file db path)) path = false /\
  remove_file (snd (remove_file db path)) path
    = (Ok false, snd (remove_file db path)).
Proof.
  pose proof (filter_path_removed db path) as Hgone.
  split; [|split; [|split]].
  - unfold remove_file, delete_files, file_exists. cbn [fst].
    destruct (List.filter (has_path path) (files db)); reflexivity.
  - apply remove_file_get_file.
  - unfold file_exists. rewrite Hgone. reflexivity.
  - unfold remove_file at 1.
    rewrite (delete_files_nothing _ _ Hgone). reflexivity.
Qed.

Lemma not_stored (db : database) (path : string) :
  file_exists db path = false ->
  List.filter (has_path path) (files db) = [].
Proof.
  unfold file_exists.
  destruct (List.filter (has_path path) (files db)); [reflexivity|].
  discriminate.
Qed.

Lemma update_file_not_stored (db : database) (path : string) (size : Z)
    (hashes : list string) (backup : option string) (now : Z) :
  file_exists db path = false ->
  update_file db path size hashes backup now = (Ok false, db).
Proof.
  intros Hno. unfold update_file. rewrite (not_stored _ _ Hno). reflexivity.
Qed.

Lemma set_trust_status_not_stored (db : database) (path : string)
    (flag : bool) :
  file_exists db path = false ->
  set_trust_status db path flag = (Ok false, db).
Proof.
  intros Hno. pose proof (not_stored _ _ Hno) as Hsel.
  unfold set_trust_status. rewrite Hsel. cbn [length Nat.ltb Nat.leb].
  f_equal. unfold set_files.
  rewrite (map_ext_in _ Datatypes.id).
  - rewrite map_id. destruct db; reflexivity.
  - intros r Hr. pose proof (filter_nil_none _ _ Hsel) as Hall.
    rewrite Forall_forall in Hall.
    rewrite (Hall r) by (apply list_elem_of_In; exact Hr). reflexivity.
Qed.

(** Extra X18.  For a path that is not stored, [update_file],
    [set_trust_status] and [remove_file] answer [False] and leave the
    store as it is, and [get_file] answers [None]. *)
Theorem unknown_path_no_effect (db : database) (path : string) (size : Z)
    (hashes : list string) (backup : option string) (now : Z)
    (flag : bool) :
  file_exists db path = false ->
  update_file db path size hashes backup now = (Ok false, db) /\
  set_trust_status db path flag = (Ok false, db) /\
  remove_file db path = (Ok false, db) /\
  get_file db path = None.
Proof.
  intros Hno. split; [|split; [|split]].
  - apply update_file_not_stored. exact Hno.
  - apply set_trust_status_not_stored. exact Hno.
  - unfold remove_file.
    rewrite (delete_files_nothing _ _ (not_stored _ _ Hno)). reflexivity.
  - apply file_exists_get_file. exact Hno.
Qed.

Lemma set_trust_status_get_file (db : database) (path : string)
    (flag : bool) (r : FileRecord) :
  get_file db path = Some r ->
  get_file (snd (set_trust_status db path flag)) path =
    Some {| file_path := file_path r; file_size := file_size r;
            block_size := block_size r; blocks_count := blocks_count r;
            block_hashes := block_hashes r;
            created_at := created_at r; updated_at := updated_at r;
            is_trusted := flag; backup_path := backup_path r |}.
Proof.
  unfold get_file at 1, set_trust_status. cbn [snd].
  destruct (List.filter (has_path path) (files db)) as [|row rest] eqn:Hsel;
    [discriminate|].
  intros Hr. injection Hr as <-.
  assert (Hrow : has_path path row = true).
  { assert (Hin : In row (List.filter (has_path path) (files db)))
      by (rewrite Hsel; left; reflexivity).
    apply filter_In in Hin as [_ Hin]. exact Hin. }
  unfold get_file. cbn [set_files files block_hashes_tbl].
  rewrite filter_map_commute
    by (intros x; destruct (has_path path x) eqn:Hx; exact Hx).
  rewrite Hsel. cbn [map]. rewrite Hrow.
  cbn [f_id f_file_path f_file_size f_block_size f_blocks_count
       f_created_at f_updated_at f_is_trusted f_backup_path
       file_path file_size block_size blocks_count block_hashes
       created_at updated_at is_trusted backup_path].
  destruct flag; reflexivity.
Qed.

(** Extra X19.  [set_trust_status] on a stored path answers [True] and
    changes the record's [is_trusted] to the flag, and nothing else of
    it. *)
Theorem set_trust_status_spec (db : database) (path : string)
    (flag : bool) (r : FileRecord) :
  get_file db path = Some r ->
  fst (set_trust_status db path flag) = Ok true /\
  get_file (snd (set_trust_status db path flag)) path =
    Some {| file_path := file_path r; file_size := file_size r;
            block_size := block_size r; blocks_count := blocks_count r;
            block_hashes := block_hashes r;
            created_at := created_at r; updated_at := updated_at r;
            is_trusted := flag; backup_path := backup_path r |}.
Proof.
  intros Hr. split; [|apply set_trust_status_get_file; exact Hr].
  unfold get_file in Hr. unfold set_trust_status. cbn [fst].
  destruct (List.filter (has_path path) (files db)); [discriminate|].
  reflexivity.
Qed.

(** Extra X20.  On a store with unique paths and ids, if every stored
    record has as many hashes as its [blocks_count] says, the same holds
    after [add_file], [update_file], [remove_file], [set_trust_status]
    and [clear_all]; it holds for the empty store. *)
Theorem methods_keep_consistent (db : database) (path : string)
    (size bsize : Z) (hashes : list string) (backup : option string)
    (now : Z) (flag : bool) :
  well_formed db -> consistent db ->
  consistent _init_database /\
  consistent (snd (add_file db path size bsize hashes backup now)) /\
  consistent (snd (update_file db path size hashes backup now)) /\
  consistent (snd (remove_file db path)) /\
  consistent (snd (set_trust_status db path flag)) /\
  consistent (snd (clear_all db)).
Proof.
  intros Hwf Hc.
  split; [intros q r H; discriminate|].
  split; [|split; [|split; [|split]]]; intros q r Hq.
  - destruct (String.string_dec path q) as [<- | Hne].
    + destruct (add_file_get_file db path size bsize hashes backup now)
        as (db' & Hadd & Hget).
      rewrite Hadd in Hq. cbn [snd] in Hq. rewrite Hget in Hq.
      injection Hq as <-. reflexivity.
    + rewrite add_file_frame in Hq by assumption. apply (Hc q r Hq).
  - destruct (String.string_dec path q) as [<- | Hne].
    + destruct (get_file db path) as [old|] eqn:Hold.
      * destruct (update_file_get_file db path size hashes backup now old
                    Hold) as (db' & Hupd & Hget).
        rewrite Hupd in Hq. cbn [snd] in Hq. rewrite Hget in Hq.
        injection Hq as <-. reflexivity.
      * apply file_exists_get_file in Hold.
        rewrite update_file_not_stored in Hq by exact Hold.
        apply (Hc path r Hq).
    + rewrite update_file_frame in Hq by assumption. apply (Hc q r Hq).
  - destruct (String.string_dec path q) as [<- | Hne].
    + rewrite remove_file_get_file in Hq. discriminate.
    + rewrite remove_file_frame in Hq by assumption. apply (Hc q r Hq).
  - destruct (String.string_dec path q) as [<- | Hne].
    + destruct (get_file db path) as [old|] eqn:Hold.
      * rewrite (set_trust_status_get_file db path flag old Hold) in Hq.
        injection Hq as <-. apply (Hc path old Hold).
      * apply file_exists_get_file in Hold.
        rewrite set_trust_status_not_stored in Hq by exact Hold.
        apply (Hc path r Hq).
    + rewrite set_trust_status_frame in Hq by assumption.
      apply (Hc q r Hq).
  - discriminate.
Qed.

Lemma insert_by_path_In (p x : string) (l : list string) :
  In x (insert_by_path p l) <-> x = p \/ In x l.
Proof.
  induction l as [|q l IH]; simpl; [intuition|].
  destruct (String.leb p q); simpl; [intuition|].
  rewrite IH. intuition.
Qed.

Lemma length_insert_by_path (p : string) (l : list string) :
  length (insert_by_path p l) = S (length l).
Proof.
  induction l as [|q l IH]; simpl; [reflexivity|].
  destruct (String.leb p q); simpl; [reflexivity|]. rewrite IH. reflexivity.
Qed.

Lemma leb_total (p q : string) :
  String.leb p q = false -> String.leb q p = true.
Proof.
  intros H. destruct (String.leb_total p q) as [H' | H']; congruence.
Qed.

Lemma ascii_compare_refl (a : ascii) : Ascii.compare a a = Eq.
Proof. apply N.compare_refl. Qed.

Lemma compare_lt_trans (p : string) :
  forall q r : string,
  String.compare p q = Lt -> String.compare q r = Lt ->
  String.compare p r = Lt.
Proof.
  induction p as [|a p IH]; intros [|b q] [|c r]; simpl;
    try congruence.
  destruct (Ascii.compare a b) eqn:Hab; try discriminate;
    destruct (Ascii.compare b c) eqn:Hbc; try discriminate.
  - apply Ascii.compare_eq_iff in Hab, Hbc. subst.
    rewrite ascii_compare_refl. apply IH.
  - apply Ascii.compare_eq_iff in Hab. subst. rewrite Hbc. reflexivity.
  - apply Ascii.compare_eq_iff in Hbc. subst. rewrite Hab. reflexivity.
  - unfold Ascii.compare in *.
    apply N.compare_lt_iff in Hab. apply N.compare_lt_iff in Hbc.
    assert (Hac : (N_of_ascii a < N_of_ascii c)%N)
      by (eapply N.lt_trans; eassumption).
    apply N.compare_lt_iff in Hac. rewrite Hac. reflexivity.
Qed.

Lemma leb_trans (p q r : string) :
  String.leb p q = true -> String.leb q r = true -> String.leb p r = true.
Proof.
  unfold String.leb.
  destruct (String.compare p q) eqn:Hpq; try discriminate;
    destruct (String.compare q r) eqn:Hqr; try discriminate; intros _ _.
  - apply String.compare_eq_iff in Hpq. subst. rewrite Hqr. reflexivity.
  - apply String.compare_eq_iff in Hpq. subst. rewrite Hqr. reflexivity.
  - apply String.compare_eq_iff in Hqr. subst. rewrite Hpq. reflexivity.
  - rewrite (compare_lt_trans p q r Hpq Hqr). reflexivity.
Qed.

Lemma insert_by_path_sorted (p : string) (l : list string) :
  StronglySorted (fun a b => String.leb a b = true) l ->
  StronglySorted (fun a b => String.leb a b = true) (insert_by_path p l).
Proof.
  induction l as [|q l IH]; intros Hs; simpl.
  - constructor; constructor.
  - apply StronglySorted_inv in Hs as [Hs Hq].
    destruct (String.leb p q) eqn:Hpq.
    + constructor; [constructor; assumption|].
      constructor; [exact Hpq|].
      eapply Forall_impl; [exact Hq|]. simpl. intros x Hx.
      eapply leb_trans; eassumption.
    + constructor; [apply IH; exact Hs|].
      rewrite Forall_forall. intros x Hx.
      apply list_elem_of_In, insert_by_path_In in Hx as [-> | Hx].
      * apply leb_total. exact Hpq.
      * rewrite Forall_forall in Hq. apply Hq, list_elem_of_In. exact Hx.
Qed.

(** Extra X21.  [get_all_files] lists exactly the stored paths, in
    ascending order, and as many of them as [get_files_count] says. *)
Theorem get_all_files_spec (db : database) :
  (forall p, In p (get_all_files db) <-> file_exists db p = true) /\
  StronglySorted (fun a b => String.leb a b = true) (get_all_files db) /\
  length (get_all_files db) = get_files_count db.
Proof.
  unfold get_all_files, get_files_count. split; [|split].
  - intros p.
    assert (Hin : In p (order_by_file_path (map f_file_path (files db)))
                  <-> In p (map f_file_path (files db))).
    { induction (map f_file_path (files db)) as [|q l IH]; simpl;
        [tauto|].
      rewrite insert_by_path_In, IH. intuition. }
    rewrite Hin. unfold file_exists. split.
    + intros H. apply in_map_iff in H as (r & Hr & H).
      assert (Hf : In r (List.filter (has_path p) (files db))).
      { apply filter_In. split; [exact H|]. unfold has_path.
        apply String.eqb_eq. exact Hr. }
      destruct (List.filter (has_path p) (files db)); [destruct Hf|].
      reflexivity.
    + destruct (List.filter (has_path p) (files db)) as [|r rest] eqn:Hsel;
        [discriminate|].
      intros _.
      assert (Hf : In r (List.filter (has_path p) (files db)))
        by (rewrite Hsel; left; reflexivity).
      apply filter_In in Hf as [Hf Hp]. apply has_path_eq in Hp.
      apply in_map_iff. exists r. auto.
  - induction (map f_file_path (files db)) as [|q l IH]; simpl.
    + constructor.
    + apply insert_by_path_sorted. exact IH.
  - rewrite <- (length_map f_file_path (files db)).
    induction (map f_file_path (files db)) as [|q l IH]; simpl;
      [reflexivity|].
    rewrite length_insert_by_path, IH. reflexivity.
Qed.

End StoreFacts.

(* ===================================================================== *)
(** * Further properties of the mode manager *)
(* ===================================================================== *)

Section SessionFacts.
Import AuthManager AuthManagerExt.

Lemma record_mode_change_fields (m : manager) (mode : SystemMode)
    (u : string) (t : option Z) (r : string) (now : Z) :
  current_mode (_record_mode_change m mode u t r now) = current_mode m /\
  active_sessions (_record_mode_change m mode u t r now)
    = active_sessions m /\
  mode_start_time (_record_mode_change m mode u t r now)
    = mode_start_time m /\
  mode_timeout (_record_mode_change m mode u t r now) = mode_timeout m.
Proof. repeat split. Qed.

Lemma record_mode_change_length (m : manager) (mode : SystemMode)
    (u : string) (t : option Z) (r : string) (now : Z) :
  (length (mode_history (_record_mode_change m mode u t r now)) <= 1000)%nat.
Proof.
  unfold _record_mode_change. cbn [mode_history].
  destruct (1000 <? length _)%nat eqn:Hlen.
  - rewrite length_drop. apply Nat.ltb_lt in Hlen. lia.
  - apply Nat.ltb_ge in Hlen. exact Hlen.
Qed.

Lemma get_current_mode_cases (m : manager) (now : Z) :
  (snd (get_current_mode m now) = m) \/
  (current_mode m = UPDATE /\ _is_mode_expired m now = true /\
   snd (get_current_mode m now) = snd (_exit_update_mode m "auto" now)).
Proof.
  unfold get_current_mode. cbn [snd].
  destruct (bool_decide (current_mode m = UPDATE)) eqn:Hm; [|left; reflexivity].
  destruct (_is_mode_expired m now) eqn:He; [|left; reflexivity].
  right. apply bool_decide_eq_true_1 in Hm. auto.
Qed.

Lemma get_current_mode_keeps (m : manager) (now : Z) :
  sessions_in_update_only m ->
  sessions_in_update_only (snd (get_current_mode m now)).
Proof.
  intros Hinv. destruct (get_current_mode_cases m now) as [-> | (_ & _ & ->)];
    [exact Hinv|].
  intros _. reflexivity.
Qed.

Lemma run_keeps (euid now : Z) (c : call) (m : manager) :
  sessions_in_update_only m ->
  sessions_in_update_only (snd (run euid now c m)).
Proof.
  unfold sessions_in_update_only. intros Hinv.
  destruct c as [u | u | u t tok | u | r | u]; cbn [run].
  - unfold enter_init_mode.
    destruct (bool_decide (current_mode m = MONITOR)) eqn:Hm; cbn [negb snd];
      [|exact Hinv].
    apply bool_decide_eq_true_1 in Hm. intros _. cbn.
    apply Hinv. congruence.
  - unfold exit_init_mode.
    destruct (bool_decide (current_mode m = INIT)) eqn:Hm; cbn [negb snd];
      [|exact Hinv].
    apply bool_decide_eq_true_1 in Hm. intros _. cbn.
    apply Hinv. congruence.
  - unfold enter_update_mode.
    destruct (bool_decide (current_mode m = EMERGENCY)); [exact Hinv|].
    destruct (bool_decide (current_mode m = INIT)); [exact Hinv|].
    destruct (bool_decide (current_mode m = UPDATE)); [cbn; congruence|].
    destruct (_verify_admin euid u); cbn [negb]; [|exact Hinv].
    unfold _generate_session_token.
    destruct (timedelta_seconds t) as [delta|ex]; [|exact Hinv].
    destruct (datetime_add now delta) as [expiry|ex]; [|exact Hinv].
    cbn. congruence.
  - unfold exit_update_mode.
    destruct (bool_decide (current_mode m = UPDATE)); cbn [negb];
      [|exact Hinv].
    intros _. reflexivity.
  - unfold enter_emergency_mode. cbn [snd active_sessions current_mode].
    intros _.
    destruct (record_mode_change_fields m EMERGENCY "system" None r now)
      as (Hc & Hs & _).
    rewrite Hc.
    destruct (bool_decide (current_mode m = UPDATE)) eqn:Hm; [reflexivity|].
    apply bool_decide_eq_false_1 in Hm. rewrite Hs. apply Hinv. exact Hm.
  - unfold exit_emergency_mode.
    destruct (bool_decide (current_mode m = EMERGENCY)) eqn:Hm; cbn [negb];
      [|exact Hinv].
    destruct (_verify_admin euid u); cbn [negb]; [|exact Hinv].
    apply bool_decide_eq_true_1 in Hm. intros _. cbn.
    apply Hinv. congruence.
Qed.

Lemma fold_delete_lookup (tokens : list string) :
  forall (s : gmap string session) (k : string),
  fold_left (fun s token => delete token s) tokens s !! k
  = if decide (k ∈ tokens) then None else s !! k.
Proof.
  induction tokens as [|t tokens IH]; intros s k; cbn [fold_left].
  - rewrite decide_False by apply not_elem_of_nil. reflexivity.
  - rewrite IH. destruct (decide (k ∈ tokens)) as [Hin | Hnot].
    + rewrite decide_True by (right; exact Hin). reflexivity.
    + destruct (decide (k = t)) as [-> | Hne].
      * rewrite decide_True by left. apply lookup_delete_eq.
      * rewrite decide_False.
        -- apply lookup_delete_ne. congruence.
        -- intros Hin. apply elem_of_cons in Hin as [? | ?]; auto.
Qed.

Lemma expired_tokens (s : gmap string session) (now : Z) (k : string) :
  k ∈ map fst (List.filter (fun p => expires (snd p) <? now) (map_to_list s))
  <-> exists x, s !! k = Some x /\ expires x < now.
Proof.
  rewrite list_elem_of_In, in_map_iff. split.
  - intros ([k' x] & <- & Hin). apply filter_In in Hin as [Hin Hx].
    apply list_elem_of_In, elem_of_map_to_list in Hin.
    exists x. split; [exact Hin|]. apply Z.ltb_lt. exact Hx.
  - intros (x & Hk & Hx). exists (k, x). split; [reflexivity|].
    apply filter_In. split.
    + apply list_elem_of_In, elem_of_map_to_list. exact Hk.
    + apply Z.ltb_lt. exact Hx.
Qed.

Lemma cleanup_lookup (m : manager) (now : Z) (k : string) :
  active_sessions (snd (cleanup_expired_sessions m now)) !! k
  = match active_sessions m !! k with
    | Some x => if expires x <? now then None else Some x
    | None => None
    end.
Proof.
  unfold cleanup_expired_sessions. cbn [snd set_sessions active_sessions].
  rewrite fold_delete_lookup.
  destruct (decide _) as [Hin | Hnot].
  - apply expired_tokens in Hin as (x & -> & Hx).
    apply Z.ltb_lt in Hx. rewrite Hx. reflexivity.
  - destruct (active_sessions m !! k) as [x|] eqn:Hk; [|reflexivity].
    destruct (expires x <? now) eqn:Hx; [|reflexivity].
    exfalso. apply Hnot, expired_tokens. exists x. split; [exact Hk|].
    apply Z.ltb_lt. exact Hx.
Qed.

Lemma serve_keeps (euid now : Z) (r : request) (m : manager) :
  sessions_in_update_only m ->
  sessions_in_update_only (serve euid now r m).
Proof.
  intros Hinv. destruct r as [c | | tok | tok | a u | ]; cbn [serve].
  - apply run_keeps. exact Hinv.
  - apply get_current_mode_keeps. exact Hinv.
  - unfold verify_session_token.
    destruct (active_sessions m !! tok) as [x|] eqn:Hx; [|exact Hinv].
    destruct (expires x <? now); [|exact Hinv].
    intros Hm. cbn in *. rewrite (Hinv Hm) in Hx.
    rewrite lookup_empty in Hx. discriminate.
  - unfold revoke_session.
    destruct (active_sessions m !! tok) as [x|] eqn:Hx; [|exact Hinv].
    intros Hm. cbn in *. rewrite (Hinv Hm) in Hx.
    rewrite lookup_empty in Hx. discriminate.
  - unfold validate_action.
    pose proof (get_current_mode_keeps m now Hinv) as H.
    destruct (get_current_mode m now) as [mode m1]. cbn [snd] in H.
    destruct (bool_decide (a ∈ _)); [exact H|].
    destruct mode; try exact H.
    destruct (bool_decide (a ∈ _)); exact H.
  - intros Hm. apply map_eq. intros k. rewrite cleanup_lookup.
    rewrite (Hinv Hm), !lookup_empty. reflexivity.
Qed.

Lemma serve_all_keeps (euid : Z) (requests : list (Z * request)) :
  sessions_in_update_only (serve_all euid requests).
Proof.
  unfold serve_all.
  assert (H : forall m, sessions_in_update_only m ->
            sessions_in_update_only
              (fold_left (fun m tr => serve euid (fst tr) (snd tr) m)
                         requests m)).
  { induction requests as [|[t r] rs IH]; intros m Hm; cbn [fold_left];
      [exact Hm|].
    apply IH, serve_keeps. exact Hm. }
  apply H. intros _. reflexivity.
Qed.

(** Extra X22.  After any sequence of calls on a new manager, session
    tokens exist only while the mode is Update: in every other mode no
    session is active, so a token that verifies shows the manager in
    Update mode. *)
Theorem sessions_only_in_update_mode (euid : Z)
    (requests : list (Z * request)) (token : string) (now : Z) :
  (current_mode (serve_all euid requests) <> UPDATE ->
   active_sessions (serve_all euid requests) = ∅) /\
  (fst (verify_session_token (serve_all euid requests) token now) = SUCCESS
   -> current_mode (serve_all euid requests) = UPDATE).
Proof.
  pose proof (serve_all_keeps euid requests) as Hinv.
  split; [exact Hinv|].
  intros Hok.
  destruct (decide (current_mode (serve_all euid requests) = UPDATE))
    as [H | H]; [exact H|].
  unfold verify_session_token in Hok. rewrite (Hinv H) in Hok.
  rewrite lookup_empty in Hok. discriminate.
Qed.

Lemma no_session_unauthorized (m : manager) (token : string) (now : Z) :
  active_sessions m = ∅ ->
  verify_session_token m token now = (UNAUTHORIZED, m).
Proof.
  intros H. unfold verify_session_token. rewrite H, lookup_empty.
  reflexivity.
Qed.

(** Extra X23.  Leaving Update mode revokes every token: after a mode
    read past the deadline, after [exit_update_mode], and after
    [enter_emergency_mode], taken in Update mode, the mode is Monitor
    (Emergency for the last) and [verify_session_token] answers
    UNAUTHORIZED for every token at every instant. *)
Theorem leaving_update_revokes_tokens (m : manager) (now : Z)
    (admin_user reason token : string) (later : Z) :
  current_mode m = UPDATE ->
  (_is_mode_expired m now = true ->
   let m' := snd (get_current_mode m now) in
   fst (get_current_mode m now) = MONITOR /\
   verify_session_token m' token later = (UNAUTHORIZED, m')) /\
  (let m' := snd (exit_update_mode m admin_user now) in
   fst (exit_update_mode m admin_user now) = true /\
   current_mode m' = MONITOR /\
   verify_session_token m' token later = (UNAUTHORIZED, m')) /\
  (let m' := snd (enter_emergency_mode m reason now) in
   current_mode m' = EMERGENCY /\
   verify_session_token m' token later = (UNAUTHORIZED, m')).
Proof.
  intros Hm. split; [|split].
  - intros He. unfold get_current_mode.
    rewrite bool_decide_eq_true_2 by exact Hm. rewrite He. cbn.
    split; reflexivity.
  - unfold exit_update_mode.
    rewrite bool_decide_eq_true_2 by exact Hm. cbn.
    repeat split; reflexivity.
  - unfold enter_emergency_mode.
    destruct (record_mode_change_fields m EMERGENCY "system" None reason now)
      as (Hc & _).
    rewrite Hc, bool_decide_eq_true_2 by exact Hm. cbn.
    split; reflexivity.
Qed.

(** Extra X24.  In Update mode [enter_update_mode] extends the mode for
    any caller: it succeeds without the admin check, issues no token,
    leaves sessions and history as they are, and the mode then lasts
    until [timeout] seconds after the call. *)
Theorem update_extension_unverified (m : manager) (euid : Z)
    (admin_user : string) (timeout now : Z) (token : string) :
  current_mode m = UPDATE ->
  exists m',
    enter_update_mode m euid admin_user timeout now token
      = (Ok (true, None), m') /\
    active_sessions m' = active_sessions m /\
    mode_history m' = mode_history m /\
    forall t, fst (get_current_mode m' t)
              = if now + seconds timeout <? t then MONITOR else UPDATE.
Proof.
  intros Hm. unfold enter_update_mode. rewrite Hm.
  rewrite bool_decide_eq_false_2 by discriminate.
  rewrite bool_decide_eq_false_2 by discriminate.
  rewrite bool_decide_eq_true_2 by reflexivity.
  eexists. split; [reflexivity|]. split; [reflexivity|].
  split; [reflexivity|].
  intros t. unfold get_current_mode, _is_mode_expired. cbn.
  replace (now + seconds timeout <? t) with (seconds timeout <? t - now).
  - destruct (seconds timeout <? t - now); reflexivity.
  - destruct (Z.ltb_spec (seconds timeout) (t - now)),
             (Z.ltb_spec (now + seconds timeout) t); (reflexivity || lia).
Qed.

(** Extra X25.  A token issued by [enter_update_mode] verifies up to and
    including the instant [timeout] seconds after the call; later it is
    EXPIRED once, and UNAUTHORIZED from then on; after [revoke_session]
    it is UNAUTHORIZED. *)
Theorem session_token_round_trip (m m1 : manager) (euid : Z)
    (admin_user : string) (timeout now : Z) (token tok : string) (t t' : Z) :
  enter_update_mode m euid admin_user timeout now token
    = (Ok (true, Some tok), m1) ->
  tok = token /\
  (t <= now + seconds timeout ->
   verify_session_token m1 tok t = (SUCCESS, m1)) /\
  (now + seconds timeout < t ->
   fst (verify_session_token m1 tok t) = EXPIRED /\
   fst (verify_session_token (snd (verify_session_token m1 tok t)) tok t')
     = UNAUTHORIZED) /\
  fst (revoke_session m1 tok) = true /\
  fst (verify_session_token (snd (revoke_session m1 tok)) tok t)
    = UNAUTHORIZED.
Proof.
  unfold enter_update_mode.
  destruct (bool_decide (current_mode m = EMERGENCY)); [discriminate|].
  destruct (bool_decide (current_mode m = INIT)); [discriminate|].
  destruct (bool_decide (current_mode m = UPDATE)); [discriminate|].
  destruct (_verify_admin euid admin_user); cbn [negb]; [|discriminate].
  unfold _generate_session_token.
  destruct (timedelta_seconds timeout) as [delta|ex] eqn:Hd; [|discriminate].
  destruct (datetime_add now delta) as [expiry|ex] eqn:He; [|discriminate].
  apply timedelta_seconds_Ok in Hd. apply datetime_add_Ok in He.
  assert (Hexp : expiry = now + seconds timeout) by (unfold seconds; lia).
  clear Hd He. subst expiry.
  cbn. intros H. injection H as <- <-.
  split; [reflexivity|].
  unfold verify_session_token, revoke_session. cbn.
  rewrite !lookup_insert_eq. cbn.
  split; [|split; [|split]].
  - intros Ht. rewrite (proj2 (Z.ltb_ge _ _)) by lia. reflexivity.
  - intros Ht. rewrite (proj2 (Z.ltb_lt _ _)) by lia. cbn.
    rewrite lookup_delete_eq. split; reflexivity.
  - reflexivity.
  - rewrite lookup_delete_eq. reflexivity.
Qed.

Lemma set_sessions_same (m : manager) :
  set_sessions m (active_sessions m) = m.
Proof. destruct m; reflexivity. Qed.

Lemma fold_delete_size (tokens : list string) :
  forall s : gmap string session,
  NoDup tokens -> (forall k, k ∈ tokens -> is_Some (s !! k)) ->
  size s = (length tokens
            + size (fold_left (fun s token => delete token s) tokens s))%nat.
Proof.
  induction tokens as [|t tokens IH]; intros s Hnd Hin; cbn [fold_left length].
  - reflexivity.
  - apply NoDup_cons in Hnd as [Ht Hnd].
    destruct (Hin t) as [x Hx]; [left|].
    assert (IH' : size (delete t s)
                  = (length tokens
                     + size (fold_left (fun s token => delete token s)
                               tokens (delete t s)))%nat).
    { apply IH; [exact Hnd|].
      intros k Hk. rewrite lookup_delete_ne by (intros ->; auto).
      apply Hin. right. exact Hk. }
    pose proof (map_size_delete_Some t s (ex_intro _ x Hx)) as Hsz.
    assert (size s <> 0)%nat; [|lia].
    apply map_size_non_empty_iff. intros Hs. rewrite Hs in Hx.
    rewrite lookup_empty in Hx. discriminate.
Qed.

(** Extra X26.  [cleanup_expired_sessions] deletes exactly the sessions
    whose expiry lies before the call and keeps the others; the number it
    returns is the number of sessions that went; the mode is untouched
    and a second call at the same instant finds nothing to delete. *)
Theorem cleanup_expired_sessions_spec (m : manager) (now : Z) :
  let n := fst (cleanup_expired_sessions m now) in
  let m' := snd (cleanup_expired_sessions m now) in
  (forall token,
     active_sessions m' !! token
     = match active_sessions m !! token with
       | Some s => if expires s <? now then None else Some s
       | None => None
       end) /\
  size (active_sessions m) = (n + size (active_sessions m'))%nat /\
  current_mode m' = current_mode m /\
  cleanup_expired_sessions m' now = (0%nat, m').
Proof.
  cbn zeta. split; [apply cleanup_lookup|]. split; [|split].
  - unfold cleanup_expired_sessions. cbn [fst snd set_sessions active_sessions].
    apply fold_delete_size.
    + apply NoDup_map_filter. apply NoDup_fst_map_to_list.
    + intros k Hk. apply expired_tokens in Hk as (x & -> & _). eauto.
  - reflexivity.
  - set (m' := snd (cleanup_expired_sessions m now)).
    assert (Hnone : List.filter (fun p => expires (snd p) <? now)
                      (map_to_list (active_sessions m')) = []).
    { apply filter_none. rewrite Forall_forall. intros [k x] Hin.
      apply elem_of_map_to_list in Hin. unfold m' in Hin.
      rewrite cleanup_lookup in Hin. cbn [snd].
      destruct (active_sessions m !! k) as [y|]; [|discriminate].
      destruct (expires y <? now) eqn:Hy; [discriminate|].
      injection Hin as <-. exact Hy. }
    unfold cleanup_expired_sessions at 1. rewrite Hnone. cbn.
    rewrite set_sessions_same. reflexivity.
Qed.

(** Extra X28.  [validate_action] allows the three query actions in every
    mode, and allows an action that changes the baseline exactly while
    the mode is Update and its deadline has not passed: the mode read it
    starts with performs the downgrade. *)
Theorem validate_action_update (m : manager) (euid : Z)
    (action admin_user : string) (now : Z) :
  (action ∈ ["get_status"; "view_logs"; "get_statistics"] ->
   fst (validate_action m euid action admin_user now) = true) /\
  (action ∈ ["update_file"; "modify_file"; "update_hashes"] ->
   (fst (validate_action m euid action admin_user now) = true <->
    current_mode m = UPDATE /\ _is_mode_expired m now = false) /\
   (current_mode m = UPDATE -> _is_mode_expired m now = true ->
    current_mode (snd (validate_action m euid action admin_user now))
      = MONITOR)).
Proof.
  split.
  - intros Ha. unfold validate_action.
    destruct (get_current_mode m now) as [mode m1].
    rewrite bool_decide_eq_true_2 by exact Ha. reflexivity.
  - intros Ha.
    assert (Hcases : action = "update_file"%string \/
                     action = "modify_file"%string \/
                     action = "update_hashes"%string).
    { repeat (apply elem_of_cons in Ha as [Ha | Ha]; [auto|]).
      apply elem_of_nil in Ha. destruct Ha. }
    unfold validate_action, get_current_mode.
    destruct (current_mode m) eqn:Hm; cbn [bool_decide decide_rel].
    + rewrite (bool_decide_eq_false_2 (MONITOR = UPDATE)) by discriminate.
      rewrite Hm. split; [|discriminate].
      destruct Hcases as [-> | [-> | ->]]; vm_compute; split;
        (discriminate || (intros [? _]; discriminate)).
    + rewrite (bool_decide_eq_false_2 (INIT = UPDATE)) by discriminate.
      rewrite Hm. split; [|discriminate].
      destruct Hcases as [-> | [-> | ->]]; vm_compute; split;
        (discriminate || (intros [? _]; discriminate)).
    + rewrite (bool_decide_eq_true_2 (UPDATE = UPDATE)) by reflexivity.
      destruct (_is_mode_expired m now) eqn:He.
      * cbn [_exit_update_mode snd current_mode].
        split; [|intros _ _; destruct (bool_decide _); reflexivity].
        destruct Hcases as [-> | [-> | ->]]; vm_compute; split;
          (discriminate || (intros [_ ?]; discriminate)).
      * rewrite Hm. split; [|discriminate].
        destruct Hcases as [-> | [-> | ->]]; vm_compute; split; auto.
    + rewrite (bool_decide_eq_false_2 (EMERGENCY = UPDATE)) by discriminate.
      rewrite Hm. split; [|discriminate].
      destruct Hcases as [-> | [-> | ->]]; vm_compute; split;
        (discriminate || (intros [? _]; discriminate)).
Qed.

Lemma last_record (m : manager) (mode : SystemMode) (u : string)
    (t : option Z) (r : string) (now : Z) :
  last (mode_history (_record_mode_change m mode u t r now))
  = Some {| rec_timestamp := now; rec_from_mode := current_mode m;
            rec_to_mode := mode; rec_admin_user := u; rec_timeout := t;
            rec_reason := r |}.
Proof.
  unfold _record_mode_change. cbn [mode_history].
  destruct (1000 <? length _)%nat eqn:Hlen.
  - apply Nat.ltb_lt in Hlen. rewrite last_lookup, length_drop, lookup_drop.
    rewrite length_app in *. cbn [length] in *.
    rewrite lookup_app_r by lia.
    replace (_ - length (mode_history m))%nat with 0%nat by lia.
    reflexivity.
  - apply last_snoc.
Qed.

Lemma run_history_bounded (euid now : Z) (c : call) (m : manager) :
  (length (mode_history m) <= 1000)%nat ->
  (length (mode_history (snd (run euid now c m))) <= 1000)%nat.
Proof.
  intros Hm.
  destruct c as [u | u | u t tok | u | r | u]; cbn [run].
  - unfold enter_init_mode. destruct (negb _); [exact Hm|].
    apply record_mode_change_length.
  - unfold exit_init_mode. destruct (negb _); [exact Hm|].
    apply record_mode_change_length.
  - unfold enter_update_mode.
    destruct (bool_decide (current_mode m = EMERGENCY)); [exact Hm|].
    destruct (bool_decide (current_mode m = INIT)); [exact Hm|].
    destruct (bool_decide (current_mode m = UPDATE)); [exact Hm|].
    destruct (negb _); [exact Hm|].
    unfold _generate_session_token.
    destruct (timedelta_seconds t) as [delta|ex]; [|exact Hm].
    destruct (datetime_add now delta) as [expiry|ex]; [|exact Hm].
    cbn [snd set_mode mode_history].
    apply record_mode_change_length.
  - unfold exit_update_mode. destruct (negb _); [exact Hm|].
    apply record_mode_change_length.
  - unfold enter_emergency_mode. cbn [snd mode_history].
    destruct (bool_decide _).
    + apply record_mode_change_length.
    + apply record_mode_change_length.
  - unfold exit_emergency_mode. destruct (negb _); [exact Hm|].
    destruct (negb _); [exact Hm|].
    apply record_mode_change_length.
Qed.

Lemma serve_history_bounded (euid now : Z) (r : request) (m : manager) :
  (length (mode_history m) <= 1000)%nat ->
  (length (mode_history (serve euid now r m)) <= 1000)%nat.
Proof.
  intros Hm.
  assert (Hread : (length (mode_history (snd (get_current_mode m now)))
                   <= 1000)%nat).
  { destruct (get_current_mode_cases m now) as [-> | (_ & _ & ->)];
      [exact Hm|]. apply record_mode_change_length. }
  destruct r as [c | | tok | tok | a u | ]; cbn [serve].
  - apply run_history_bounded. exact Hm.
  - exact Hread.
  - unfold verify_session_token.
    destruct (active_sessions m !! tok) as [x|]; [|exact Hm].
    destruct (expires x <? now); exact Hm.
  - unfold revoke_session.
    destruct (active_sessions m !! tok) as [x|]; exact Hm.
  - unfold validate_action.
    destruct (get_current_mode m now) as [mode m1]. cbn [snd] in Hread.
    destruct (bool_decide (a ∈ _)); [exact Hread|].
    destruct mode; try exact Hread.
    destruct (bool_decide (a ∈ _)); exact Hread.
  - exact Hm.
Qed.

(** Extra X29.  After any sequence of calls the mode history holds at
    most 1000 records.  A successful transition call made outside Update
    mode ends the history with a record of that transition: the instant,
    the mode before and the mode after.  [enter_emergency_mode] called in
    Update mode ends the history with a record to Monitor, while the mode
    is Emergency. *)
Theorem mode_history_records (euid : Z) (requests : list (Z * request))
    (m : manager) (now : Z) (c : call) (reason : string) :
  (length (mode_history (serve_all euid requests)) <= 1000)%nat /\
  (current_mode m <> UPDATE -> fst (run euid now c m) = true ->
   exists record,
     last (mode_history (snd (run euid now c m))) = Some record /\
     rec_timestamp record = now /\
     rec_from_mode record = current_mode m /\
     rec_to_mode record = current_mode (snd (run euid now c m))) /\
  (current_mode m = UPDATE ->
   exists record,
     last (mode_history (snd (enter_emergency_mode m reason now)))
       = Some record /\
     rec_from_mode record = UPDATE /\ rec_to_mode record = MONITOR /\
     current_mode (snd (enter_emergency_mode m reason now)) = EMERGENCY).
Proof.
  split; [|split].
  - unfold serve_all.
    assert (H : forall m0, (length (mode_history m0) <= 1000)%nat ->
              (length (mode_history
                 (fold_left (fun m tr => serve euid (fst tr) (snd tr) m)
                            requests m0)) <= 1000)%nat).
    { induction requests as [|[t r] rs IH]; intros m0 Hm0; cbn [fold_left];
        [exact Hm0|].
      apply IH, serve_history_bounded. exact Hm0. }
    apply H. cbn. lia.
  - intros Hm.
    destruct c as [u | u | u t tok | u | r | u]; cbn [run].
    + unfold enter_init_mode. destruct (negb _); [discriminate|].
      intros _. eexists. cbn [snd set_mode mode_history current_mode].
      split; [apply last_record|]. repeat split.
    + unfold exit_init_mode. destruct (negb _); [discriminate|].
      intros _. eexists. cbn [snd set_mode mode_history current_mode].
      split; [apply last_record|]. repeat split.
    + unfold enter_update_mode.
      destruct (bool_decide (current_mode m = EMERGENCY)); [discriminate|].
      destruct (bool_decide (current_mode m = INIT)); [discriminate|].
      rewrite bool_decide_eq_false_2 by exact Hm.
      destruct (negb _); [discriminate|].
      unfold _generate_session_token.
      destruct (timedelta_seconds t) as [delta|ex]; [|discriminate].
      destruct (datetime_add now delta) as [expiry|ex]; [|discriminate].
      intros _. eexists.
      cbn [snd set_mode mode_history current_mode].
      split; [apply last_record|]. repeat split.
    + unfold exit_update_mode.
      rewrite bool_decide_eq_false_2 by exact Hm. discriminate.
    + unfold enter_emergency_mode. intros _.
      cbn [snd mode_history current_mode].
      destruct (record_mode_change_fields m EMERGENCY "system" None r now)
        as (Hc & _).
      rewrite Hc, bool_decide_eq_false_2 by exact Hm.
      eexists. split; [apply last_record|]. repeat split.
    + unfold exit_emergency_mode. destruct (negb _); [discriminate|].
      destruct (negb _); [discriminate|].
      intros _. eexists. cbn [snd set_mode mode_history current_mode].
      split; [apply last_record|]. repeat split.
  - intros Hm. unfold enter_emergency_mode.
    cbn [snd mode_history current_mode].
    destruct (record_mode_change_fields m EMERGENCY "system" None reason now)
      as (Hc & _).
    rewrite Hc, bool_decide_eq_true_2 by exact Hm.
    eexists. cbn [_exit_update_mode snd mode_history].
    split; [apply last_record|]. cbn [rec_from_mode rec_to_mode].
    rewrite Hc. auto.
Qed.

(** Extra X30.  [get_mode_history] with a positive limit returns the last
    records of the history, as many as the limit or all of them when the
    history is shorter; with limit 0 it returns the whole history; with a
    negative limit it leaves out the first records. *)
Theorem get_mode_history_spec (m : manager) (limit : Z) :
  (0 < limit ->
   length (get_mode_history m limit)
     = Nat.min (Z.to_nat limit) (length (mode_history m)) /\
   exists older, mode_history m = older ++ get_mode_history m limit) /\
  get_mode_history m 0 = mode_history m /\
  (limit < 0 ->
   get_mode_history m limit = drop (Z.to_nat (- limit)) (mode_history m)).
Proof.
  unfold get_mode_history, slice_from. split; [|split].
  - intros Hl. rewrite (proj2 (Z.ltb_lt _ _)) by lia. split.
    + rewrite length_drop. lia.
    + eexists. symmetry. apply take_drop.
  - reflexivity.
  - intros Hl. rewrite (proj2 (Z.ltb_ge _ _)) by lia. reflexivity.
Qed.

End SessionFacts.

Section RemainingTimeFacts.
Import AuthManager AuthManagerExt.

Variable round : R -> R.

(** What is used of the rounding to the nearest float: it keeps the
    order, and integers up to [2 ^ 53] in magnitude are floats. *)
Hypothesis round_monotone :
  forall x y : R, (x <= y)%R -> (round x <= round y)%R.
Hypothesis round_integer :
  forall z : Z, Z.abs z <= 2 ^ 53 -> round (IZR z) = IZR z.

Lemma Int_part_nonneg (x : R) : (0 <= x)%R -> 0 <= Int_part x.
Proof.
  intros Hx. destruct (base_Int_part x) as [_ H].
  assert (Hlt : (IZR (-1) < IZR (Int_part x))%R) by (simpl; lra).
  apply lt_IZR in Hlt. lia.
Qed.

Lemma truncate_float_le (x : R) (k : Z) :
  (x <= IZR k)%R -> 0 <= k -> truncate_float x <= k.
Proof.
  intros Hx Hk. unfold truncate_float.
  destruct (Rle_dec 0 x) as [Hpos | Hneg].
  - destruct (base_Int_part x) as [H _].
    apply le_IZR. lra.
  - pose proof (Int_part_nonneg (- x) ltac:(lra)). lia.
Qed.

Lemma truncate_float_nonpos (x : R) :
  (x <= 0)%R -> truncate_float x <= 0.
Proof. intros Hx. apply truncate_float_le; [exact Hx | lia]. Qed.

Lemma truncate_float_IZR (k : Z) : 0 <= k -> truncate_float (IZR k) = k.
Proof.
  intros Hk. unfold truncate_float.
  destruct (Rle_dec 0 (IZR k)) as [_ | Hneg].
  - symmetry. apply Int_part_spec. lra.
  - exfalso. apply Hneg. apply (IZR_le 0 k). exact Hk.
Qed.

Lemma float_overflow_large : 2 ^ 53 < float_overflow.
Proof. unfold float_overflow. apply Z.ltb_lt. vm_compute. reflexivity. Qed.

Lemma round_zero : round 0 = 0%R.
Proof. apply (round_integer 0). simpl. lia. Qed.

(** Extra X27.  [get_mode_remaining_time] answers [None] when the mode
    has no timeout or no start; it raises [OverflowError] for a timeout
    beyond the floats; otherwise it answers a number that is not
    negative.  For a timeout between 0 and [2 ^ 53] seconds the answer is
    at most the timeout when the start is not in the future, the timeout
    itself at the start, and 0 once the mode has expired. *)
Theorem get_mode_remaining_time_spec (m : manager) (now : Z) :
  (mode_timeout m = None \/ mode_start_time m = None ->
   get_mode_remaining_time round m now = Ok None) /\
  (forall timeout start,
     mode_timeout m = Some timeout -> mode_start_time m = Some start ->
     (float_overflow <= Z.abs timeout ->
      get_mode_remaining_time round m now = Raise OverflowError) /\
     (Z.abs timeout < float_overflow ->
      exists r, get_mode_remaining_time round m now = Ok (Some r) /\
                0 <= r) /\
     (0 <= timeout <= 2 ^ 53 ->
      exists r, get_mode_remaining_time round m now = Ok (Some r) /\
        (start <= now -> r <= timeout) /\
        (_is_mode_expired m now = true -> r = 0) /\
        (start = now -> r = timeout))).
Proof.
  unfold get_mode_remaining_time, float_of_int, total_seconds. split.
  - intros [-> | ->]; [reflexivity|].
    destruct (mode_timeout m); reflexivity.
  - intros timeout start Ht Hs. rewrite Ht, Hs. split; [|split].
    + intros Hbig. rewrite (proj2 (Z.ltb_ge _ _)) by exact Hbig. reflexivity.
    + intros Hsmall. rewrite (proj2 (Z.ltb_lt _ _)) by exact Hsmall.
      eexists. split; [reflexivity | lia].
    + intros Hrange. pose proof float_overflow_large as Hlarge.
      rewrite (proj2 (Z.ltb_lt _ _)) by lia.
      rewrite (round_integer timeout) by lia.
      set (elapsed := round (IZR (now - start) / 1000000)).
      eexists. split; [reflexivity|].
      assert (Hscale : (IZR (now - start) / 1000000 * 1000000
                        = IZR (now - start))%R) by (field; lra).
      split; [|split].
      * intros Hstart.
        assert (Hel : (0 <= elapsed)%R).
        { rewrite <- round_zero. apply round_monotone.
          assert (0 <= IZR (now - start))%R
            by (apply (IZR_le 0); lia).
          lra. }
        assert (Hrem : (round (IZR timeout - elapsed) <= IZR timeout)%R).
        { rewrite <- (round_integer timeout) at 2 by lia.
          apply round_monotone. lra. }
        pose proof (truncate_float_le _ timeout Hrem ltac:(lia)). lia.
      * unfold _is_mode_expired. rewrite Ht, Hs. intros Hexp.
        apply Z.ltb_lt in Hexp. unfold seconds in Hexp.
        assert (Hel : (IZR timeout <= elapsed)%R).
        { rewrite <- (round_integer timeout) by lia.
          apply round_monotone.
          assert (IZR (timeout * 1000000) <= IZR (now - start))%R
            by (apply IZR_le; lia).
          rewrite mult_IZR in H. lra. }
        assert (Hrem : (round (IZR timeout - elapsed) <= 0)%R).
        { rewrite <- round_zero. apply round_monotone. lra. }
        pose proof (truncate_float_nonpos _ Hrem). lia.
      * intros ->. subst elapsed. rewrite Z.sub_diag.
        replace (0 / 1000000)%R with 0%R by (field; lra).
        rewrite round_zero, Rminus_0_r, (round_integer timeout) by lia.
        rewrite truncate_float_IZR by lia. lia.
Qed.

End RemainingTimeFacts.

(* ===================================================================== *)
(** * The further properties on the sample inputs *)
(* ===================================================================== *)

(** The stand-in digest of the samples has no collisions. *)
Lemma digest_injective (x y : bytes) :
  Samples.digest x = Samples.digest y -> x = y.
Proof.
  unfold Samples.digest. intros H.
  apply (f_equal list_ascii_of_string) in H.
  rewrite !list_ascii_of_string_of_list_ascii in H.
  revert y H. induction x as [|a x IH]; intros [|b y] H; simpl in H;
    try discriminate; [reflexivity|].
  injection H as Hab H. f_equal; [|apply IH; exact H].
  apply (f_equal byte_of_ascii) in Hab.
  rewrite !byte_of_ascii_of_byte in Hab. exact Hab.
Qed.

Lemma file_blocks_slices_witness :
  length (IntegrityEngine.file_blocks 2 (i_data Samples.target_file))
  = 3%nat /\
  concat (IntegrityEngine.file_blocks 2 (i_data Samples.target_file))
  = i_data Samples.target_file.
Proof.
  destruct (file_blocks_slices 2 (i_data Samples.target_file))
    as (_ & Hlen & Hcat); [lia|].
  split; [exact Hlen | exact Hcat].
Defined.

Lemma check_integrity_baseline_witness :
  exists r e',
    IntegrityEngine.check_integrity Samples.digest root_access
      Samples.integrity Samples.disk "/srv/data.txt" ["AB"; "CD"; "E"]
      true 7 = (Ok r, e') /\
    IntegrityEngine.change_type r = IntegrityEngine.NO_CHANGE.
Proof.
  destruct (check_integrity_baseline Samples.digest root_access
              Samples.integrity Samples.disk "/srv/data.txt"
              ["AB"; "CD"; "E"] ["AB"; "CD"; "E"] 5 true 7 eq_refl)
    as (r & e' & Hrun & _ & Hno & _).
  exists r, e'. split; [exact Hrun|]. apply Hno. reflexivity.
Defined.

Lemma modification_statistics_spec_witness :
  exists st,
    IntegrityEngineExt.get_modification_statistics Samples.exact
      Samples.Rsum Samples.attacked 60 Samples.today = Ok st /\
    IntegrityEngineExt.files_modified st = 1%nat /\
    IntegrityEngineExt.max_entropy st = Some 8%R.
Proof.
  destruct (modification_statistics_spec Samples.exact Samples.Rsum
              Samples.attacked 60 Samples.today) as [_ H].
  - unfold datetime_min, datetime_max, Samples.today. lia.
  - destruct H as (st & Hst & Hcount & _ & Hmax).
    + unfold datetime_min, datetime_max, Samples.today. lia.
    + exists st. split; [exact Hst|]. split; [exact Hcount|].
      destruct Hmax as (_ & mc & me & _ & Hme & _ & (ev & Hev & <-) & _).
      { discriminate. }
      rewrite Hme. destruct Hev as [<- | []]. reflexivity.
Defined.

Lemma restore_from_backup_spec_witness :
  snd (RecoveryEngine.restore_from_backup root_access Samples.recovery
         "/srv/data.txt" "/var/backups/data.backup" Samples.disk)
    !! "/srv/data.txt"
  = Some (Regular (Inode (i_data Samples.backup_file) 420)).
Proof.
  destruct (restore_from_backup_spec root_access Samples.recovery
              "/srv/data.txt" "/var/backups/data.backup" Samples.disk
              _ _ (surjective_pairing _))
    as (b & Hb & _ & Hfs & _).
  - reflexivity.
  - vm_compute. discriminate.
  - assert (Hb' : Samples.disk !! "/var/backups/data.backup"
                  = Some (Regular Samples.backup_file)) by reflexivity.
    rewrite Hb' in Hb. injection Hb as <-. exact Hfs.
Defined.

Lemma backup_restore_round_trip_witness :
  let fs1 :=
    snd (RecoveryEngineExt.create_backup root_access Samples.recovery
           "/srv/data.txt" "20240101_120000" Samples.disk) in
  snd (RecoveryEngine.restore_from_backup root_access Samples.recovery
         "/srv/data.txt"
         "/var/backups/_srv_data.txt_20240101_120000.backup" fs1)
    !! "/srv/data.txt"
  = Some (Regular (Inode (i_data Samples.target_file) 420)).
Proof.
  cbv zeta.
  set (fs1 := snd (RecoveryEngineExt.create_backup root_access
                     Samples.recovery "/srv/data.txt" "20240101_120000"
                     Samples.disk)).
  set (out := RecoveryEngine.restore_from_backup root_access Samples.recovery
                "/srv/data.txt"
                "/var/backups/_srv_data.txt_20240101_120000.backup" fs1).
  apply (backup_restore_round_trip root_access Samples.recovery
           "/srv/data.txt" "20240101_120000"
           "/var/backups/_srv_data.txt_20240101_120000.backup"
           Samples.disk fs1 fs1 (snd out) Samples.target_file (fst out)).
  - reflexivity.
  - vm_compute. discriminate.
  - reflexivity.
  - reflexivity.
  - vm_compute. discriminate.
  - apply surjective_pairing.
  - reflexivity.
Defined.

Lemma restore_changed_blocks_heals_witness :
  content
    (snd (RecoveryEngine.restore_blocks root_access Samples.recovery
            "/srv/data.txt" "/var/backups/data.backup" [0; 1; 2]
            Samples.disk))
    "/srv/data.txt"
  = Some (Some (i_data Samples.backup_file)).
Proof.
  set (out := RecoveryEngine.restore_blocks root_access Samples.recovery
                "/srv/data.txt" "/var/backups/data.backup" [0; 1; 2]
                Samples.disk).
  apply (restore_changed_blocks_heals Samples.digest root_access 2
           Samples.recovery "/srv/data.txt" "/var/backups/data.backup"
           Samples.disk (snd out) (fst out) (i_data Samples.target_file)
           (i_data Samples.backup_file)).
  - lia.
  - reflexivity.
  - reflexivity.
  - reflexivity.
  - intros i x y _ _. apply digest_injective.
  - apply surjective_pairing.
  - reflexivity.
Defined.

Lemma block_then_unblock_witness :
  exists d1 d2 mode',
    RecoveryEngineExt.block_file root_access "/srv/data.txt" false
      RecoveryEngineExt.Chattr_failed
      (RecoveryEngineExt.Disk Samples.disk ∅) = (true, d1) /\
    RecoveryEngineExt.unblock_file root_access "/srv/data.txt"
      RecoveryEngineExt.Chattr_failed d1 = (true, d2) /\
    RecoveryEngineExt.d_files d2
    = <["/srv/data.txt" := Regular (Inode (i_data Samples.target_file) mode')]>
        Samples.disk /\
    Z.testbit mode' 7 = true /\ Z.testbit mode' 4 = false.
Proof.
  destruct (block_then_unblock root_access "/srv/data.txt"
              RecoveryEngineExt.Chattr_failed
              (RecoveryEngineExt.Disk Samples.disk ∅) Samples.target_file)
    as (d1 & d2 & mode' & H1 & H2 & H3 & Hbits).
  - reflexivity.
  - apply not_elem_of_empty.
  - reflexivity.
  - discriminate.
  - exists d1, d2, mode'. split; [exact H1|]. split; [exact H2|].
    split; [exact H3|].
    split; [apply (Hbits 7) | apply (Hbits 4)]; lia.
Defined.

Lemma methods_keep_well_formed_witness :
  HashStorageExt.well_formed
    (snd (HashStorage.add_file HashStorage._init_database "/etc/hosts"
            70000 65536 ["aa"; "bb"] None 5)).
Proof.
  destruct (methods_keep_well_formed HashStorage._init_database "/etc/hosts"
              70000 65536 ["aa"; "bb"] None 5 true)
    as (_ & H & _).
  - split; constructor.
  - exact H.
Defined.

Lemma store_well_formed : HashStorageExt.well_formed Samples.store.
Proof. split; vm_compute; apply NoDup_singleton. Qed.

Lemma methods_frame_witness :
  HashStorage.get_file
    (snd (HashStorage.add_file Samples.store "/etc/motd" 10 65536 ["cc"]
            None 9)) "/etc/hosts"
  = HashStorage.get_file Samples.store "/etc/hosts".
Proof.
  destruct (methods_frame Samples.store "/etc/motd" "/etc/hosts" 10 65536
              ["cc"] None 9 true store_well_formed)
    as (H & _).
  - discriminate.
  - exact H.
Defined.

Lemma unknown_path_no_effect_witness :
  HashStorage.update_file Samples.store "/etc/motd" 1 ["cc"] None 9
  = (Ok false, Samples.store).
Proof.
  destruct (unknown_path_no_effect Samples.store "/etc/motd" 1 ["cc"] None 9
              true eq_refl) as (H & _).
  exact H.
Defined.

Lemma set_trust_status_spec_witness :
  exists r,
    HashStorage.get_file
      (snd (HashStorage.set_trust_status Samples.store "/etc/hosts" true))
      "/etc/hosts" = Some r /\
    HashStorage.is_trusted r = true /\
    HashStorage.block_hashes r = ["aa"; "bb"].
Proof.
  destruct (set_trust_status_spec Samples.store "/etc/hosts" true _ eq_refl)
    as [_ H].
  eexists. split; [exact H|]. split; reflexivity.
Defined.

Lemma methods_keep_consistent_witness :
  HashStorageExt.consistent
    (snd (HashStorage.add_file HashStorage._init_database "/etc/hosts"
            70000 65536 ["aa"; "bb"] None 5)).
Proof.
  destruct (methods_keep_consistent HashStorage._init_database "/etc/hosts"
              70000 65536 ["aa"; "bb"] None 5 true)
    as (_ & H & _).
  - split; constructor.
  - intros path r Hr. discriminate.
  - exact H.
Defined.

Lemma leaving_update_revokes_tokens_witness :
  let m := snd (AuthManager.enter_update_mode AuthManager.__init__ 0 "root"
                  60 0 "t0") in
  fst (AuthManager.verify_session_token m "t0" 6) = AuthManager.SUCCESS /\
  fst (AuthManager.verify_session_token
         (snd (AuthManager.exit_update_mode m "root" 5)) "t0" 6)
  = AuthManager.UNAUTHORIZED.
Proof.
  cbv zeta. split; [reflexivity|].
  destruct (leaving_update_revokes_tokens
              (snd (AuthManager.enter_update_mode AuthManager.__init__ 0
                      "root" 60 0 "t0"))
              5 "root" "alarm" "t0" 6 eq_refl)
    as (_ & (_ & _ & H) & _).
  rewrite H. reflexivity.
Defined.

Lemma update_extension_unverified_witness :
  exists m',
    AuthManager.enter_update_mode
      (snd (AuthManager.enter_update_mode AuthManager.__init__ 0 "root"
              60 0 "t0"))
      1000 "guest" 3600 5 "t1" = (Ok (true, None), m') /\
    fst (AuthManager.get_current_mode m' 3000000000) = AuthManager.UPDATE.
Proof.
  destruct (update_extension_unverified
              (snd (AuthManager.enter_update_mode AuthManager.__init__ 0
                      "root" 60 0 "t0"))
              1000 "guest" 3600 5 "t1" eq_refl)
    as (m' & Hrun & _ & _ & Hmode).
  exists m'. split; [exact Hrun|]. rewrite Hmode. reflexivity.
Defined.

Lemma session_token_round_trip_witness :
  let m1 := snd (AuthManager.enter_update_mode AuthManager.__init__ 0 "root"
                   60 0 "t0") in
  AuthManager.verify_session_token m1 "t0" 60000000
  = (AuthManager.SUCCESS, m1).
Proof.
  cbv zeta.
  destruct (session_token_round_trip AuthManager.__init__ _ 0 "root" 60 0
              "t0" "t0" 60000000 0 (surjective_pairing _))
    as (_ & H & _).
  apply H. vm_compute. discriminate.
Defined.

Lemma get_mode_remaining_time_spec_witness :
  let m := snd (AuthManager.enter_update_mode AuthManager.__init__ 0 "root"
                  60 Samples.today "t0") in
  exists r,
    AuthManagerExt.get_mode_remaining_time Samples.exact m Samples.today
    = Ok (Some r) /\ r = 60.
Proof.
  cbv zeta.
  destruct (get_mode_remaining_time_spec Samples.exact)
    with (m := snd (AuthManager.enter_update_mode AuthManager.__init__ 0
                      "root" 60 Samples.today "t0"))
         (now := Samples.today) as [_ H].
  - intros x y Hxy. exact Hxy.
  - intros z _. reflexivity.
  - destruct (H 60 Samples.today eq_refl eq_refl) as (_ & _ & Hr).
    destruct Hr as (r & Hrun & _ & _ & Hstart); [lia|].
    exists r. split; [exact Hrun | apply Hstart; reflexivity].
Defined.
